(** * b0t: run-output extraction and the workflow execution queue

    A shallow embedding of
      - the output post-processing of [RunOutputModal] (the returnValue
        template, the array pass-through and the auto-filter), and
      - [src/lib/workflows/workflow-queue.ts] (initialisation, enqueueing with
        the direct-execution fallback, the worker's processor, statistics),
    together with the properties the specification states about them. *)

From Stdlib Require Import ZArith String Ascii List Bool Lia DecimalString DecimalNat.
From stdpp Require Import gmap strings list fin_maps.
Import ListNotations.
Open Scope string_scope.
Set Warnings "-register-all".

(** ** JavaScript values, as far as the embedded code inspects them *)
Module Js.

(** Dynamic values.  A string is a sequence of code units below 256, one per
    [ascii]; numbers are the integers (nothing here does arithmetic on them
    beyond counting); [JFunction] stands for the built-in functions that are
    reachable through a prototype chain.  The [props] of an object are its own
    enumerable properties in enumeration order.  [JObject props] is an
    ordinary object with the prototype every object literal and every
    parsed JSON object has, Object.prototype; [JDerived proto props] is an
    ordinary object whose prototype was set to [proto], an object or
    [JNull] for none. *)
Inductive JsValue : Type :=
| JUndefined
| JNull
| JBool (b : bool)
| JNumber (n : Z)
| JString (s : string)
| JArray (items : list JsValue)
| JObject (props : list (string * JsValue))
| JFunction (name : string)
| JDerived (proto : JsValue) (props : list (string * JsValue)).

Inductive JsError : Type :=
| TypeError (msg : string)
| Error (msg : string).

(** The outcome of evaluating code that may throw (for an async function:
    fulfilment or rejection of its promise). *)
Inductive Completion (A : Type) : Type :=
| Normal (a : A)
| Throw (e : JsError).
Arguments Normal {A} a.
Arguments Throw {A} e.

(** What the host's built-in prototypes contribute to a property lookup: the
    members an ordinary object inherits, the members an array inherits, and
    the members visible on the remaining values (functions and wrapped
    primitives).  They belong to the JavaScript engine, not to the
    repository, so every definition below takes them as a parameter. *)
Record Host : Type := {
  objectProto : string -> option JsValue;
  arrayProto : string -> option JsValue;
  otherProto : JsValue -> string -> option JsValue
}.

(** [typeof v] *)
Definition typeof (v : JsValue) : string :=
  match v with
  | JUndefined => "undefined"
  | JNull => "object"
  | JBool _ => "boolean"
  | JNumber _ => "number"
  | JString _ => "string"
  | JArray _ => "object"
  | JObject _ => "object"
  | JFunction _ => "function"
  | JDerived _ _ => "object"
  end.

(** ToBoolean *)
Definition truthy (v : JsValue) : bool :=
  match v with
  | JUndefined => false
  | JNull => false
  | JBool b => b
  | JNumber n => negb (Z.eqb n 0)
  | JString s => negb (String.eqb s "")
  | JArray _ => true
  | JObject _ => true
  | JFunction _ => true
  | JDerived _ _ => true
  end.

(** [Array.isArray v] *)
Definition isArray (v : JsValue) : bool :=
  match v with
  | JArray _ => true
  | _ => false
  end.

(** The decimal spelling of an array index: the property key of element [i]. *)
Definition indexKey (i : nat) : string :=
  NilEmpty.string_of_uint (Nat.to_uint i).

(** Own property of an object: the entry stored under [key]. *)
Fixpoint ownProperty (props : list (string * JsValue)) (key : string) : option JsValue :=
  match props with
  | [] => None
  | (k, v) :: rest => if String.eqb k key then Some v else ownProperty rest key
  end.

(** Element of an array whose index is spelled [key], counting from [i]. *)
Fixpoint arrayElement (items : list JsValue) (i : nat) (key : string) : option JsValue :=
  match items with
  | [] => None
  | x :: rest => if String.eqb (indexKey i) key then Some x else arrayElement rest (S i) key
  end.

(** Own property of an array: an element or [length]. *)
Definition arrayOwnProperty (items : list JsValue) (key : string) : option JsValue :=
  match arrayElement items 0 key with
  | Some x => Some x
  | None =>
      if String.eqb key "length" then Some (JNumber (Z.of_nat (List.length items))) else None
  end.

(** The lookup of [key], other than [__proto__], continued in the prototype
    [link] of an object and from there up the chain. *)
Fixpoint inheritedProperty (h : Host) (link : JsValue) (key : string) : option JsValue :=
  match link with
  | JObject props =>
      match ownProperty props key with
      | Some x => Some x
      | None => objectProto h key
      end
  | JArray items =>
      match arrayOwnProperty items key with
      | Some x => Some x
      | None => arrayProto h key
      end
  | JDerived next props =>
      match ownProperty props key with
      | Some x => Some x
      | None => inheritedProperty h next key
      end
  | JFunction _ => otherProto h link key
  | _ => None
  end.

(** The lookup of [__proto__] continued in the prototype [link] of an object
    whose prototype is [proto]: a property of that name stored along the
    chain, or else, where the chain reaches Object.prototype, the accessor
    of Object.prototype, which gives the prototype of the object it is read
    from. *)
Fixpoint inheritedProto (proto link : JsValue) : option JsValue :=
  match link with
  | JObject props =>
      match ownProperty props "__proto__" with
      | Some x => Some x
      | None => Some proto
      end
  | JDerived next props =>
      match ownProperty props "__proto__" with
      | Some x => Some x
      | None => inheritedProto proto next
      end
  | JArray _ | JFunction _ => Some proto
  | _ => None
  end.

(** Property lookup through the prototype chain; [None] when there is no
    such property. *)
Definition lookupProperty (h : Host) (v : JsValue) (key : string) : option JsValue :=
  match v with
  | JObject props =>
      match ownProperty props key with
      | Some x => Some x
      | None => objectProto h key
      end
  | JArray items =>
      match arrayOwnProperty items key with
      | Some x => Some x
      | None => arrayProto h key
      end
  | JDerived proto props =>
      match ownProperty props key with
      | Some x => Some x
      | None =>
          if String.eqb key "__proto__" then inheritedProto proto proto
          else inheritedProperty h proto key
      end
  | _ => otherProto h v key
  end.

(** [key in v]: a TypeError unless [v] is an object or a function. *)
Definition hasProperty (h : Host) (key : string) (v : JsValue) : Completion bool :=
  match v with
  | JObject _ | JArray _ | JFunction _ | JDerived _ _ =>
      Normal (match lookupProperty h v key with Some _ => true | None => false end)
  | _ => Throw (TypeError "Cannot use 'in' operator to search for a key in a primitive")
  end.

(** [v[key]]: a TypeError on null and undefined, undefined when the property
    is missing. *)
Definition getProperty (h : Host) (v : JsValue) (key : string) : Completion JsValue :=
  match v with
  | JUndefined | JNull => Throw (TypeError "Cannot read properties of null or undefined")
  | _ =>
      Normal (match lookupProperty h v key with Some x => x | None => JUndefined end)
  end.

(** [Object.entries(v)] *)
Definition objectEntries (v : JsValue) : list (string * JsValue) :=
  match v with
  | JObject props => props
  | JDerived _ props => props
  | JArray items => imap (fun i x => (indexKey i, x)) items
  | _ => []
  end.

(** [Object.keys(v)] for an object given by its entries. *)
Definition objectKeys (props : list (string * JsValue)) : list string :=
  map fst props.

(** [arr.includes(key)] on an array of strings. *)
Definition arrayIncludes (arr : list string) (key : string) : bool :=
  existsb (String.eqb key) arr.

(** [s.includes(sub)] *)
Fixpoint stringIncludes (s sub : string) : bool :=
  String.prefix sub s ||
  match s with
  | EmptyString => false
  | String _ rest => stringIncludes rest sub
  end.

(** White space and line terminators among the code units below 256. *)
Definition isWhiteSpace (c : ascii) : bool :=
  let n := nat_of_ascii c in
  Nat.eqb n 9 || Nat.eqb n 10 || Nat.eqb n 11 || Nat.eqb n 12 || Nat.eqb n 13 ||
  Nat.eqb n 32 || Nat.eqb n 160.

Fixpoint trimStart (s : string) : string :=
  match s with
  | EmptyString => EmptyString
  | String c rest => if isWhiteSpace c then trimStart rest else s
  end.

Fixpoint trimEnd (s : string) : string :=
  match s with
  | EmptyString => EmptyString
  | String c rest =>
      match trimEnd rest with
      | EmptyString => if isWhiteSpace c then EmptyString else String c EmptyString
      | kept => String c kept
      end
  end.

(** [s.trim()] *)
Definition trim (s : string) : string := trimEnd (trimStart s).

(** [s.split(sep)] for a one-character separator. *)
Fixpoint split (sep : ascii) (s : string) : list string :=
  match s with
  | EmptyString => [EmptyString]
  | String c rest =>
      if Ascii.eqb c sep then EmptyString :: split sep rest
      else
        match split sep rest with
        | first :: others => String c first :: others
        | [] => [String c EmptyString]
        end
  end.

(** *** Assignment to a property of an object under construction *)

(** An ordinary object that starts as [{}]: its prototype, [None] while it is
    still Object.prototype, and its own properties. *)
Record Built : Type := {
  builtProto : option JsValue;
  builtProps : list (string * JsValue)
}.

Definition emptyObject : Built := {| builtProto := None; builtProps := [] |}.

(** The object as a value. *)
Definition builtValue (o : Built) : JsValue :=
  match builtProto o with
  | None => JObject (builtProps o)
  | Some proto => JDerived proto (builtProps o)
  end.

(** An own property gets a new value and keeps its place. *)
Fixpoint updateOwn (props : list (string * JsValue)) (key : string) (value : JsValue)
  : list (string * JsValue) :=
  match props with
  | [] => []
  | (k, v) :: rest =>
      if String.eqb k key then (k, value) :: rest
      else (k, v) :: updateOwn rest key value
  end.

(** What an assignment does when the object has no own property of that
    name. *)
Inductive AssignTarget : Type :=
| CreateOwn        (* nothing inherited, or a writable property: a new own property *)
| SetPrototype     (* the [__proto__] accessor of Object.prototype *)
| Refused.         (* a read-only property or a throwing accessor *)

(** What an assignment of [key] finds in the prototype [link] and up the
    chain.  The properties an object or an array stores or inherits are
    writable, except [__proto__] of Object.prototype, which is an accessor.
    A function has the read-only [name] and [length], inherits the
    throwing accessors [caller] and [arguments], and the [prototype] of a
    built-in constructor is read-only. *)
Fixpoint assignTarget (h : Host) (link : JsValue) (key : string) : AssignTarget :=
  match link with
  | JObject props =>
      match ownProperty props key with
      | Some _ => CreateOwn
      | None => if String.eqb key "__proto__" then SetPrototype else CreateOwn
      end
  | JArray _ => if String.eqb key "__proto__" then SetPrototype else CreateOwn
  | JDerived next props =>
      match ownProperty props key with
      | Some _ => CreateOwn
      | None => assignTarget h next key
      end
  | JFunction _ =>
      if arrayIncludes ["name"; "length"; "caller"; "arguments"] key then Refused
      else if String.eqb key "prototype" then
        match otherProto h link key with
        | Some _ => Refused
        | None => CreateOwn
        end
      else if String.eqb key "__proto__" then SetPrototype
      else CreateOwn
  | _ => CreateOwn
  end.

(** The setter of [__proto__]: an object or null becomes the prototype, any
    other value is ignored. *)
Definition setPrototype (o : Built) (value : JsValue) : Built :=
  match value with
  | JNull | JArray _ | JObject _ | JFunction _ | JDerived _ _ =>
      {| builtProto := Some value; builtProps := builtProps o |}
  | _ => o
  end.

(** [o[key] = value] in strict code, for an ordinary extensible object
    [o]. *)
Definition assign (h : Host) (o : Built) (key : string) (value : JsValue)
  : Completion Built :=
  match ownProperty (builtProps o) key with
  | Some _ =>
      Normal {| builtProto := builtProto o;
                builtProps := updateOwn (builtProps o) key value |}
  | None =>
      match match builtProto o with
            | None => if String.eqb key "__proto__" then SetPrototype else CreateOwn
            | Some proto => assignTarget h proto key
            end with
      | CreateOwn =>
          Normal {| builtProto := builtProto o;
                    builtProps := builtProps o ++ [(key, value)] |}
      | SetPrototype => Normal (setPrototype o value)
      | Refused => Throw (TypeError "Cannot assign to read only property")
      end
  end.

End Js.

(** ** The output post-processing of [RunOutputModal] *)
Module RunOutputModal.
Import Js.

(** Truthiness of [returnValue : string | undefined]. *)
Definition configured (returnValue : option string) : bool :=
  match returnValue with
  | Some s => negb (String.eqb s "")
  | None => false
  end.

(** The part of [/^\{\{([^}]+)\}\}$/] after the two opening braces: one or
    more characters other than a closing brace, two closing braces, end of
    input.  Returns the captured characters. *)
Fixpoint matchCapture (s : string) : option string :=
  match s with
  | EmptyString => None
  | String c rest =>
      if Ascii.eqb c "}" then
        if String.eqb rest "}" then Some EmptyString else None
      else
        match matchCapture rest with
        | Some captured => Some (String c captured)
        | None => None
        end
  end.

(** [returnValue.match(/^\{\{([^}]+)\}\}$/)]: capture group 1, or [None] when
    the string does not match. *)
Definition matchTemplate (s : string) : option string :=
  match s with
  | String "{" (String "{" rest) =>
      match matchCapture rest with
      | Some EmptyString => None
      | Some captured => Some captured
      | None => None
      end
  | _ => None
  end.

(** The loop over [keys]: descend while the current value is a non-null
    object that has the key; otherwise give up and take the whole output. *)
Fixpoint traverse (h : Host) (output : JsValue) (keys : list string) (value : JsValue)
  : Completion JsValue :=
  match keys with
  | [] => Normal value
  | key :: rest =>
      let found :=
        if truthy value && String.eqb (typeof value) "object"
        then hasProperty h key value
        else Normal false in
      match found with
      | Throw e => Throw e
      | Normal true =>
          match getProperty h value key with
          | Throw e => Throw e
          | Normal next => traverse h output rest next
          end
      | Normal false => Normal output
      end
  end.

Definition internalKeys : list string := ["user"; "trigger"].

Definition credentialPlatforms : list string :=
  ["openai"; "anthropic"; "youtube"; "slack"; "twitter"; "github"; "reddit"].

(** The three [continue] tests of the auto-filter loop. *)
Definition skipped (key : string) : bool :=
  arrayIncludes internalKeys key ||
  (stringIncludes key "_apikey" || stringIncludes key "_api_key") ||
  arrayIncludes credentialPlatforms key.

(** The loop over [Object.entries(run.output)]: an entry that is not skipped
    is assigned to [filteredOutput]. *)
Fixpoint assignKept (h : Host) (filteredOutput : Built) (entries : list (string * JsValue))
  : Completion Built :=
  match entries with
  | [] => Normal filteredOutput
  | (key, value) :: rest =>
      if skipped key then assignKept h filteredOutput rest
      else
        match assign h filteredOutput key value with
        | Throw e => Throw e
        | Normal next => assignKept h next rest
        end
  end.

(** [filteredOutput] after the loop, which starts from [{}]. *)
Definition autoFilter (h : Host) (entries : list (string * JsValue)) : Completion Built :=
  assignKept h emptyObject entries.

(** [processedOutput], from [returnValue] and [run.output]. *)
Definition processOutput (h : Host) (returnValue : option string) (output : JsValue)
  : Completion JsValue :=
  if configured returnValue && truthy output && String.eqb (typeof output) "object"
     && negb (isArray output)
  then
    match returnValue with
    | None => Throw (TypeError "Cannot read properties of undefined (reading 'match')")
    | Some template =>
        match matchTemplate template with
        | Some captured =>
            let path := trim captured in
            let keys := split "." path in
            traverse h output keys output
        | None => Normal output
        end
    end
  else if configured returnValue && isArray output then Normal output
  else if configured returnValue then Normal output
  else if negb (configured returnValue) && truthy output
          && String.eqb (typeof output) "object" && negb (isArray output)
  then
    match autoFilter h (objectEntries output) with
    | Throw e => Throw e
    | Normal filteredOutput =>
        if Nat.ltb 0 (List.length (objectKeys (builtProps filteredOutput)))
        then Normal (builtValue filteredOutput)
        else Normal output
    end
  else Normal output.

End RunOutputModal.

(** ** [RunOutputModal]: from [workflowConfig] to [returnValue] *)
Module RunOutputModalConfig.
Import Js RunOutputModal.

Section WithJson.

(** The host's prototypes, and [JSON.parse], which returns the parsed value
    or throws a SyntaxError. *)
Variable h : Host.
Variable jsonParse : string -> Completion JsValue.

(** [v?.key] *)
Definition optionalGet (v : JsValue) (key : string) : JsValue :=
  match v with
  | JUndefined | JNull => JUndefined
  | _ =>
      match lookupProperty h v key with
      | Some x => x
      | None => JUndefined
      end
  end.

(** [v !== undefined] *)
Definition isDefined (v : JsValue) : bool :=
  match v with
  | JUndefined => false
  | _ => true
  end.

(** [parsedConfig]: a string is parsed, and is undefined when it does not
    parse. *)
Definition parseConfig (workflowConfig : JsValue) : JsValue :=
  match workflowConfig with
  | JString text =>
      match jsonParse text with
      | Normal parsed => parsed
      | Throw _ => JUndefined
      end
  | _ => workflowConfig
  end.

(** [configObj]: the [config] property when there is one, the whole object
    otherwise. *)
Definition configObject (parsedConfig : JsValue) : Completion JsValue :=
  if isDefined (optionalGet parsedConfig "config")
  then getProperty h parsedConfig "config"
  else Normal parsedConfig.

(** [returnValue], before it is taken for a string. *)
Definition returnValueOf (workflowConfig : JsValue) : Completion JsValue :=
  match configObject (parseConfig workflowConfig) with
  | Throw e => Throw e
  | Normal configObj =>
      let outputDisplay := optionalGet configObj "outputDisplay" in
      let direct := optionalGet configObj "returnValue" in
      Normal (if truthy direct then direct else optionalGet outputDisplay "returnValue")
  end.

(** [processedOutput], from [workflowConfig] and [run.output].  The
    returnValue is declared a string; any other truthy value that a
    configuration read from JSON can hold has no [match] method, so calling
    it throws. *)
Definition processedOutput (workflowConfig output : JsValue) : Completion JsValue :=
  match returnValueOf workflowConfig with
  | Throw e => Throw e
  | Normal (JString template) => processOutput h (Some template) output
  | Normal other =>
      if truthy other then
        if truthy output && String.eqb (typeof output) "object" && negb (isArray output)
        then Throw (TypeError "returnValue.match is not a function")
        else Normal output
      else processOutput h None output
  end.

End WithJson.

End RunOutputModalConfig.

(** ** The job broker behind [../queue]

    [createQueue], [createWorker], [addJob] and the job life cycle are not
    among the embedded sources; this module models them from the
    specification (section 4.5 and section 5). *)
Module Broker.

Inductive BackoffType : Type := fixedBackoff | exponentialBackoff.

Record BackoffOptions : Type := {
  backoffType : BackoffType;
  backoffDelay : Z            (* milliseconds *)
}.

Record KeepJobs : Type := { keepAge : Z; keepCount : Z }.

(** [defaultJobOptions] of a queue. *)
Record DefaultJobOptions : Type := {
  attempts : nat;
  backoff : BackoffOptions;
  removeOnComplete : KeepJobs;
  removeOnFail : KeepJobs
}.

(** The options given with one job. *)
Record JobOptions : Type := {
  priority : Z;
  delay : option Z            (* milliseconds *)
}.

(** The options of a worker. *)
Record WorkerOptions : Type := {
  concurrency : Z;
  limiterMax : Z;
  limiterDuration : Z
}.

Section Jobs.
Context {T : Type}.

(** Modelled from the spec: a job, "{id, workflowId, userId, triggerType,
    triggerData, attempt, priority}": its id, its name, the data it was
    queued with, its options and the attempts made so far. *)
Record Job : Type := {
  jobId : option string;
  jobName : string;
  jobData : T;
  jobOptions : JobOptions;
  attemptsMade : nat
}.

(** Modelled from the spec: a queue, with its options and its jobs by state
    (the states counted by [stats]).  A delayed job is queued with the delay
    after which it may run. *)
Record Queue : Type := {
  defaultJobOptions : DefaultJobOptions;
  waiting : list Job;
  active : list Job;
  completed : list Job;
  failed : list Job;
  delayed : list (Job * Z);
  issued : nat                (* job ids handed out so far *)
}.

(** Modelled from the spec: [createQueue] of [../queue], which creates the
    named queue, empty, with the given default job options. *)
Definition newQueue (options : DefaultJobOptions) : Queue :=
  {| defaultJobOptions := options;
     waiting := []; active := []; completed := []; failed := []; delayed := [];
     issued := 0 |}.

(** Modelled from the spec: jobs are told apart by their id. *)
Definition sameJob (id : option string) (j : Job) : bool :=
  match id, jobId j with
  | Some a, Some b => String.eqb a b
  | _, _ => false
  end.

(** Modelled from the spec: taking the job with the given id out of the
    jobs in one state. *)
Fixpoint takeJob (id : option string) (jobs : list Job) : option (Job * list Job) :=
  match jobs with
  | [] => None
  | j :: rest =>
      if sameJob id j then Some (j, rest)
      else
        match takeJob id rest with
        | Some (found, others) => Some (found, j :: others)
        | None => None
        end
  end.

(** Modelled from the spec: the same for the delayed jobs. *)
Fixpoint takeDelayed (id : option string) (jobs : list (Job * Z))
  : option (Job * list (Job * Z)) :=
  match jobs with
  | [] => None
  | (j, d) :: rest =>
      if sameJob id j then Some (j, rest)
      else
        match takeDelayed id rest with
        | Some (found, others) => Some (found, (j, d) :: others)
        | None => None
        end
  end.

(** Modelled from the spec: [addJob] of [../queue], "accepts run requests,
    persists them as jobs": the job gets the next id and is queued, delayed
    when a positive delay is asked for. *)
Definition addToQueue (name : string) (data : T) (options : JobOptions) (q : Queue)
  : Job * Queue :=
  let job := {| jobId := Some (Js.indexKey (S (issued q)));
                jobName := name; jobData := data; jobOptions := options;
                attemptsMade := 0 |} in
  let later := match delay options with
               | Some d => Z.ltb 0 d
               | None => false
               end in
  (job,
   {| defaultJobOptions := defaultJobOptions q;
      waiting := if later then waiting q else waiting q ++ [job];
      active := active q; completed := completed q; failed := failed q;
      delayed := if later
                 then delayed q ++ [(job, match delay options with Some d => d | None => 0%Z end)]
                 else delayed q;
      issued := S (issued q) |}).

(** Modelled from the spec: a delayed job becomes ready to run once its
    delay has passed. *)
Definition promote (id : option string) (q : Queue) : option Queue :=
  match takeDelayed id (delayed q) with
  | Some (job, others) =>
      Some {| defaultJobOptions := defaultJobOptions q;
              waiting := waiting q ++ [job];
              active := active q; completed := completed q; failed := failed q;
              delayed := others; issued := issued q |}
  | None => None
  end.

(** Modelled from the spec: "up to [concurrency] Jobs run active
    simultaneously system-wide": a worker pool of the given capacity takes a
    waiting job only while fewer than [capacity] jobs are active. *)
Definition start (capacity : Z) (id : option string) (q : Queue) : option (Job * Queue) :=
  if Z.ltb (Z.of_nat (List.length (active q))) capacity then
    match takeJob id (waiting q) with
    | Some (job, others) =>
        Some (job,
              {| defaultJobOptions := defaultJobOptions q;
                 waiting := others;
                 active := active q ++ [job];
                 completed := completed q; failed := failed q;
                 delayed := delayed q; issued := issued q |})
    | None => None
    end
  else None.

(** Modelled from the spec: "exponential backoff (base delay 10s, doubling
    per attempt)": the delay before retry number [retry + 1]. *)
Definition backoffFor (options : BackoffOptions) (retry : nat) : Z :=
  match backoffType options with
  | fixedBackoff => backoffDelay options
  | exponentialBackoff => (backoffDelay options * 2 ^ Z.of_nat retry)%Z
  end.

(** Modelled from the spec: what becomes of a job when its processor has
    run. *)
Inductive Settlement : Type :=
| Completed
| Retried (delayMs : Z)
| FailedForGood.

(** Modelled from the spec: "queued -> active -> {completed | failed};
    failed may transition back to queued up to a fixed retry limit (3
    attempts) with exponential backoff before becoming terminally failed".
    [attempts] is read as that retry limit: a job that has been queued
    again fewer than [attempts] times is queued again.  [succeeded] tells
    whether the processor returned rather than threw. *)
Definition settle (succeeded : bool) (id : option string) (q : Queue)
  : option (Settlement * Queue) :=
  match takeJob id (active q) with
  | None => None
  | Some (job, others) =>
      if succeeded then
        Some (Completed,
              {| defaultJobOptions := defaultJobOptions q;
                 waiting := waiting q; active := others;
                 completed := completed q ++ [job]; failed := failed q;
                 delayed := delayed q; issued := issued q |})
      else
        let tried := {| jobId := jobId job; jobName := jobName job;
                        jobData := jobData job; jobOptions := jobOptions job;
                        attemptsMade := S (attemptsMade job) |} in
        if Nat.ltb (attemptsMade job) (attempts (defaultJobOptions q)) then
          let pause := backoffFor (backoff (defaultJobOptions q)) (attemptsMade job) in
          Some (Retried pause,
                {| defaultJobOptions := defaultJobOptions q;
                   waiting := waiting q; active := others;
                   completed := completed q; failed := failed q;
                   delayed := delayed q ++ [(tried, pause)]; issued := issued q |})
        else
          Some (FailedForGood,
                {| defaultJobOptions := defaultJobOptions q;
                   waiting := waiting q; active := others;
                   completed := completed q; failed := failed q ++ [tried];
                   delayed := delayed q; issued := issued q |})
  end.

End Jobs.
Arguments Job : clear implicits.
Arguments Queue : clear implicits.

End Broker.

(** ** [src/lib/workflows/workflow-queue.ts] *)
Module WorkflowQueue.
Import Js Broker.

Definition WORKFLOW_QUEUE_NAME : string := "workflows-execution".

Inductive TriggerType : Type := manual | cron | webhook | telegram | discord.

Record WorkflowJobData : Type := {
  workflowId : string;
  userId : string;
  triggerType : TriggerType;
  triggerData : option JsValue
}.

(** What [executeWorkflow] resolves to, as far as this file reads it. *)
Record ExecutionResult : Type := {
  success : bool;
  output : option JsValue;
  error : option string;
  errorStep : option string
}.

Record InitOptions : Type := {
  optConcurrency : option Z;
  optMaxJobsPerMinute : option Z
}.

Record EnqueueOptions : Type := {
  optPriority : option Z;
  optDelay : option Z
}.

Record Enqueued : Type := { jobIdOf : string; queued : bool }.

Record Stats : Type := {
  statWaiting : nat;
  statActive : nat;
  statCompleted : nat;
  statFailed : nat;
  statDelayed : nat;
  statTotal : nat
}.

Inductive LogLevel : Type := info | warn | error_.

(** [x || d] for a number that may be undefined: 0 counts as missing. *)
Definition orDefault (x : option Z) (d : Z) : Z :=
  match x with
  | Some n => if Z.eqb n 0 then d else n
  | None => d
  end.

(** Truthiness of an environment variable or of an optional string. *)
Definition isSet (x : option string) : bool :=
  match x with
  | Some s => negb (String.eqb s "")
  | None => false
  end.

(** [`${x}`] for a string that may be undefined. *)
Definition interpolate (x : option string) : string :=
  match x with
  | Some s => s
  | None => "undefined"
  end.

(** The message of the error the processor throws for a failed run. *)
Definition failureMessage (result : ExecutionResult) : string :=
  "Workflow execution failed: " +:+ interpolate (error result) +:+ " " +:+
  (if isSet (errorStep result)
   then "(step: " +:+ interpolate (errorStep result) +:+ ")"
   else "").

Section WithExecutor.

(** [executeWorkflow] of [./executor] is the Step Executor; it is not part
    of this file.  It acts on a state of its own (the stored runs and
    whatever the steps touch) and resolves to a result or rejects. *)
Variable ExecutorState : Type.
Variable executeWorkflow :
  string -> string -> TriggerType -> option JsValue ->
  ExecutorState -> Completion ExecutionResult * ExecutorState.

(** The process: its environment, the broker and the registries of
    [../queue], the executor's state, and what was logged.  [invocations]
    records the calls made to [executeWorkflow], oldest first. *)
Record World : Type := {
  REDIS_URL : option string;
  brokerReachable : bool;
  queues : gmap string (Queue WorkflowJobData);
  workers : list (string * WorkerOptions);
  executor : ExecutorState;
  invocations : list WorkflowJobData;
  logged : list (LogLevel * string)
}.

(** Computations on the process that may throw. *)
Definition M (A : Type) : Type := World -> Completion A * World.

Definition ret {A : Type} (a : A) : M A := fun w => (Normal a, w).

Definition throw {A : Type} (e : JsError) : M A := fun w => (Throw e, w).

Definition bind {A B : Type} (m : M A) (k : A -> M B) : M B :=
  fun w =>
    match m w with
    | (Normal a, w') => k a w'
    | (Throw e, w') => (Throw e, w')
    end.

(** [try { body } catch (error) { handler }] *)
Definition tryCatch {A : Type} (body : M A) (handler : JsError -> M A) : M A :=
  fun w =>
    match body w with
    | (Normal a, w') => (Normal a, w')
    | (Throw e, w') => handler e w'
    end.

Notation "'let!' x ':=' m 'in' k" := (bind m (fun x => k))
  (at level 10, x pattern, m at level 100, k at level 200).
Notation "m ';;' k" := (bind m (fun _ => k))
  (at level 100, k at level 200, right associativity).

Definition setQueues (qs : gmap string (Queue WorkflowJobData)) (w : World) : World :=
  {| REDIS_URL := REDIS_URL w; brokerReachable := brokerReachable w;
     queues := qs; workers := workers w; executor := executor w;
     invocations := invocations w; logged := logged w |}.

(** [logger.info], [logger.warn], [logger.error]: the message is kept. *)
Definition log (level : LogLevel) (message : string) : M unit :=
  fun w =>
    (Normal tt,
     {| REDIS_URL := REDIS_URL w; brokerReachable := brokerReachable w;
        queues := queues w; workers := workers w; executor := executor w;
        invocations := invocations w;
        logged := logged w ++ [(level, message)] |}).

(** [await executeWorkflow(workflowId, userId, triggerType, triggerData)] *)
Definition callExecuteWorkflow (workflowId userId : string) (triggerType : TriggerType)
    (triggerData : option JsValue) : M ExecutionResult :=
  fun w =>
    let '(outcome, state') :=
      executeWorkflow workflowId userId triggerType triggerData (executor w) in
    (outcome,
     {| REDIS_URL := REDIS_URL w; brokerReachable := brokerReachable w;
        queues := queues w; workers := workers w; executor := state';
        invocations := invocations w ++
          [{| workflowId := workflowId; userId := userId;
              triggerType := triggerType; triggerData := triggerData |}];
        logged := logged w |}).

(** Modelled from the spec: [createQueue] of [../queue].  "Queue
    infrastructure failure (broker unreachable at startup)": it throws
    when the broker cannot be reached, and registers the queue otherwise. *)
Definition createQueue (name : string) (options : DefaultJobOptions) : M unit :=
  fun w =>
    if brokerReachable w then
      (Normal tt,
       setQueues (<[name := match queues w !! name with
                            | Some existing => existing
                            | None => newQueue options
                            end]> (queues w)) w)
    else (Throw (Error "connect ECONNREFUSED"), w).

(** Modelled from the spec: [createWorker] of [../queue], which attaches a
    worker with the given options to the named queue; the worker's
    processor is [workflowProcessor] below. *)
Definition createWorker (name : string) (options : WorkerOptions) : M unit :=
  fun w =>
    if brokerReachable w then
      (Normal tt,
       {| REDIS_URL := REDIS_URL w; brokerReachable := brokerReachable w;
          queues := queues w; workers := workers w ++ [(name, options)];
          executor := executor w; invocations := invocations w;
          logged := logged w |})
    else (Throw (Error "connect ECONNREFUSED"), w).

(** Modelled from the spec: [addJob] of [../queue], which adds a job to the
    named queue and resolves to it. *)
Definition addJob (queueName jobName : string) (data : WorkflowJobData)
    (options : JobOptions) : M (Job WorkflowJobData) :=
  fun w =>
    match queues w !! queueName with
    | Some q =>
        let '(job, q') := addToQueue jobName data options q in
        (Normal job, setQueues (<[queueName := q']> (queues w)) w)
    | None => (Throw (Error "Queue not found"), w)
    end.

(** The processor given to [createWorker]: one run of the whole workflow. *)
Definition workflowProcessor (job : Job WorkflowJobData) : M ExecutionResult :=
  let data := jobData job in
  log info "Executing workflow from queue" ;;
  let! result := callExecuteWorkflow (workflowId data) (userId data)
                                     (triggerType data) (triggerData data) in
  if negb (success result) then throw (Error (failureMessage result))
  else ret result.

Definition queueDefaults : DefaultJobOptions :=
  {| attempts := 3;
     backoff := {| backoffType := exponentialBackoff; backoffDelay := 10000 |};
     removeOnComplete := {| keepAge := 86400; keepCount := 1000 |};
     removeOnFail := {| keepAge := 604800; keepCount := 5000 |} |}.

Definition initializeWorkflowQueue (options : option InitOptions) : M bool :=
  let concurrency := orDefault (match options with
                                | Some o => optConcurrency o
                                | None => None
                                end) 10 in
  let maxJobsPerMinute := orDefault (match options with
                                     | Some o => optMaxJobsPerMinute o
                                     | None => None
                                     end) 100 in
  fun w =>
    if negb (isSet (REDIS_URL w)) then
      (log warn "REDIS_URL not set - workflow queue disabled, falling back to direct execution" ;;
       ret false) w
    else
      tryCatch
        (createQueue WORKFLOW_QUEUE_NAME queueDefaults ;;
         createWorker WORKFLOW_QUEUE_NAME
           {| concurrency := concurrency;
              limiterMax := maxJobsPerMinute;
              limiterDuration := 60000 |} ;;
         ret true)
        (fun _ => log error_ "Failed to initialize workflow queue" ;; ret false) w.

Definition queueWorkflowExecution (workflowId userId : string) (triggerType : TriggerType)
    (triggerData : option JsValue) (options : option EnqueueOptions) : M Enqueued :=
  fun w =>
    if negb (isSet (REDIS_URL w)) then
      (log info "No Redis - executing workflow directly (not queued)" ;;
       callExecuteWorkflow workflowId userId triggerType triggerData ;;
       ret {| jobIdOf := "direct-execution"; queued := false |}) w
    else
      match queues w !! WORKFLOW_QUEUE_NAME with
      | None =>
          throw (Error "Workflow queue not initialized. Call initializeWorkflowQueue() first.") w
      | Some _ =>
          (let! job := addJob WORKFLOW_QUEUE_NAME ("workflow-" +:+ workflowId)
                         {| workflowId := workflowId; userId := userId;
                            triggerType := triggerType; triggerData := triggerData |}
                         {| priority := orDefault (match options with
                                                   | Some o => optPriority o
                                                   | None => None
                                                   end) 5;
                            delay := match options with
                                     | Some o => optDelay o
                                     | None => None
                                     end |} in
           log info "Workflow queued for execution" ;;
           ret {| jobIdOf := if isSet (jobId job) then interpolate (jobId job) else "unknown";
                  queued := true |}) w
      end.

Definition getWorkflowQueueStats : M (option Stats) :=
  fun w =>
    match queues w !! WORKFLOW_QUEUE_NAME with
    | None => ret None w
    | Some queue =>
        let waiting := List.length (waiting queue) in
        let active := List.length (active queue) in
        let completed := List.length (completed queue) in
        let failed := List.length (failed queue) in
        let delayed := List.length (delayed queue) in
        ret (Some {| statWaiting := waiting; statActive := active;
                     statCompleted := completed; statFailed := failed;
                     statDelayed := delayed;
                     statTotal := waiting + active + delayed |}) w
    end.

Definition isWorkflowQueueAvailable (w : World) : bool :=
  isSet (REDIS_URL w) &&
  match queues w !! WORKFLOW_QUEUE_NAME with
  | Some _ => true
  | None => false
  end.

(** *** The worker pool at work on the workflow queue *)

(** Modelled from the spec: the worker pool of a queue, "a bounded worker
    pool (parallel execution units, count = concurrency)": its capacity is
    the concurrency of the workers attached to the queue. *)
Definition capacity (name : string) (w : World) : Z :=
  fold_right Z.add 0%Z
    (map (fun nw => concurrency (snd nw))
         (List.filter (fun nw => String.eqb (fst nw) name) (workers w))).

Definition setWorkflowQueue (q : Queue WorkflowJobData) (w : World) : World :=
  setQueues (<[WORKFLOW_QUEUE_NAME := q]> (queues w)) w.

(** Modelled from the spec: a delayed job of the workflow queue becomes
    ready once its delay has passed. *)
Definition promoteJob (id : option string) (w : World) : option World :=
  match queues w !! WORKFLOW_QUEUE_NAME with
  | Some q =>
      match promote id q with
      | Some q' => Some (setWorkflowQueue q' w)
      | None => None
      end
  | None => None
  end.

(** Modelled from the spec: a worker with a free slot takes a waiting job of
    the workflow queue, which becomes active. *)
Definition startJob (id : option string) (w : World)
  : option (Job WorkflowJobData * World) :=
  match queues w !! WORKFLOW_QUEUE_NAME with
  | Some q =>
      match start (capacity WORKFLOW_QUEUE_NAME w) id q with
      | Some (job, q') => Some (job, setWorkflowQueue q' w)
      | None => None
      end
  | None => None
  end.

(** Modelled from the spec: "each worker runs one Job's Step Executor to
    completion": the worker calls the processor on an active job and the
    broker settles the job according to whether the processor threw. *)
Definition runJob (id : option string) (w : World) : option (Settlement * World) :=
  match queues w !! WORKFLOW_QUEUE_NAME with
  | Some q =>
      match takeJob id (active q) with
      | Some (job, _) =>
          let '(outcome, w1) := workflowProcessor job w in
          let succeeded := match outcome with
                           | Normal _ => true
                           | Throw _ => false
                           end in
          match queues w1 !! WORKFLOW_QUEUE_NAME with
          | Some q1 =>
              match settle succeeded id q1 with
              | Some (settlement, q2) => Some (settlement, setWorkflowQueue q2 w1)
              | None => None
              end
          | None => None
          end
      | None => None
      end
  | None => None
  end.

(** Modelled from the spec: what the process can do next, as far as the
    queue is concerned: a trigger asks for a run, a delay passes, a worker
    takes a job, a worker finishes a job. *)
Inductive Step : World -> World -> Prop :=
| StepRequest workflowId userId triggerType triggerData options w outcome w' :
    queueWorkflowExecution workflowId userId triggerType triggerData options w
      = (outcome, w') ->
    Step w w'
| StepPromote id w w' :
    promoteJob id w = Some w' ->
    Step w w'
| StepStart id w job w' :
    startJob id w = Some (job, w') ->
    Step w w'
| StepRun id w settlement w' :
    runJob id w = Some (settlement, w') ->
    Step w w'.

(** Modelled from the spec: the transitions observed of one job. *)
Inductive JobEvent : Type :=
| BecameActive
| AttemptFailed
| Requeued (delayMs : Z)
| BecameCompleted
| FailedTerminally.

(** Modelled from the spec: the life of one queued job when a worker is
    free for it each time it is due: "queued -> active -> {completed |
    failed}", back to queued after a failure while retries remain.  At most
    [fuel] attempts are followed. *)
Fixpoint lifeCycle (fuel : nat) (id : option string) (w : World) : list JobEvent * World :=
  match fuel with
  | 0 => ([], w)
  | S fuel' =>
      let w1 := match promoteJob id w with
                | Some promoted => promoted
                | None => w
                end in
      match startJob id w1 with
      | None => ([], w1)
      | Some (_, w2) =>
          match runJob id w2 with
          | None => ([BecameActive], w2)
          | Some (Completed, w3) => ([BecameActive; BecameCompleted], w3)
          | Some (Retried pause, w3) =>
              let '(events, w4) := lifeCycle fuel' id w3 in
              (BecameActive :: AttemptFailed :: Requeued pause :: events, w4)
          | Some (FailedForGood, w3) =>
              ([BecameActive; AttemptFailed; FailedTerminally], w3)
          end
      end
  end.

End WithExecutor.

Arguments REDIS_URL {ExecutorState} w.
Arguments brokerReachable {ExecutorState} w.
Arguments queues {ExecutorState} w.
Arguments workers {ExecutorState} w.
Arguments executor {ExecutorState} w.
Arguments invocations {ExecutorState} w.
Arguments logged {ExecutorState} w.
Arguments isWorkflowQueueAvailable {ExecutorState} w.
Arguments setQueues {ExecutorState} qs w.
Arguments setWorkflowQueue {ExecutorState} q w.
Arguments capacity {ExecutorState} name w.
Arguments promoteJob {ExecutorState} id w.
Arguments startJob {ExecutorState} id w.
Arguments getWorkflowQueueStats {ExecutorState} w.
Arguments initializeWorkflowQueue {ExecutorState} options w.
Arguments queueWorkflowExecution {ExecutorState} executeWorkflow
  workflowId userId triggerType triggerData options w.
Arguments workflowProcessor {ExecutorState} executeWorkflow job w.
Arguments runJob {ExecutorState} executeWorkflow id w.
Arguments lifeCycle {ExecutorState} executeWorkflow fuel id w.
Arguments Step {ExecutorState} executeWorkflow w w'.

End WorkflowQueue.

(** ** What the route handlers answer with *)
Module Http.
Import Js.

(** [NextResponse.json(body, { status })] *)
Record Response : Type := { status : Z; body : JsValue }.

Definition json (body : JsValue) (status : Z) : Response :=
  {| status := status; body := body |}.

(** A string that may be undefined, as a value. *)
Definition optionalString (x : option string) : JsValue :=
  match x with
  | Some s => JString s
  | None => JUndefined
  end.

(** A value that may be undefined. *)
Definition optionalValue (x : option JsValue) : JsValue :=
  match x with
  | Some v => v
  | None => JUndefined
  end.

(** [error.message] *)
Definition errorMessage (e : JsError) : string :=
  match e with
  | TypeError msg => msg
  | Error msg => msg
  end.

End Http.

(** ** [POST /api/workflows/[id]/run] *)
Module RunRoute.
Import Js Http WorkflowQueue.

Section WithExecutor.
Variable h : Host.
Variable ExecutorState : Type.
Variable executeWorkflow :
  string -> string -> TriggerType -> option JsValue ->
  ExecutorState -> Completion ExecutionResult * ExecutorState.

Notation "'let!' x ':=' m 'in' k" := (bind ExecutorState m (fun x => k))
  (at level 10, x pattern, m at level 100, k at level 200).

(** An expression that may throw, evaluated in the process. *)
Definition evaluate {A : Type} (c : Completion A) : M ExecutorState A :=
  fun w => (c, w).

(** [body.priority as number | undefined] *)
Definition asNumber (v : JsValue) : option Z :=
  match v with
  | JNumber n => Some n
  | _ => None
  end.

(** The handler.  [sessionUserId] is [session?.user?.id]; [parsedBody] is
    what [request.json()] resolves to, [None] when it rejects. *)
Definition POST (sessionUserId : option string) (id : string) (parsedBody : option JsValue)
  : M ExecutorState Response :=
  match sessionUserId with
  | None => ret ExecutorState (json (JObject [("error", JString "Unauthorized")]) 401)
  | Some user =>
      if String.eqb user "" then
        ret ExecutorState (json (JObject [("error", JString "Unauthorized")]) 401)
      else
        tryCatch ExecutorState
          (let body := match parsedBody with
                       | Some parsed => parsed
                       | None => JObject []
                       end in
           let! requested := evaluate (getProperty h body "triggerData") in
           let triggerData := if truthy requested then requested else JObject [] in
           let! priority := evaluate (getProperty h body "priority") in
           fun w =>
             if isWorkflowQueueAvailable w then
               (let! enqueued :=
                  queueWorkflowExecution executeWorkflow id user manual (Some triggerData)
                    (Some {| optPriority := asNumber priority; optDelay := None |}) in
                ret ExecutorState
                  (json (JObject [("success", JBool true);
                                  ("queued", JBool (queued enqueued));
                                  ("jobId", JString (jobIdOf enqueued));
                                  ("message", JString "Workflow queued for execution")])
                        200)) w
             else
               (let! result :=
                  callExecuteWorkflow ExecutorState executeWorkflow id user manual
                    (Some triggerData) in
                if negb (success result) then
                  ret ExecutorState
                    (json (JObject [("success", JBool false);
                                    ("error", optionalString (error result));
                                    ("errorStep", optionalString (errorStep result))])
                          500)
                else
                  ret ExecutorState
                    (json (JObject [("success", JBool true);
                                    ("output", optionalValue (output result));
                                    ("queued", JBool false)])
                          200)) w)
          (fun error =>
             let! _ := log ExecutorState error_ "Failed to execute workflow" in
             ret ExecutorState
               (json (JObject [("success", JBool false);
                               ("error", JString (errorMessage error))])
                     500))
  end.

End WithExecutor.

End RunRoute.

(** ** The external API: keys, the audit log, and
    [POST /api/external/workflows/[id]/execute] *)
Module ExternalApi.
Import Js Http WorkflowQueue.

(** A row of [api_keys]; timestamps are in milliseconds. *)
Record ApiKeyRow : Type := {
  keyId : string;
  keyName : string;
  keyHash : string;
  keyPrefix : string;
  keyUserId : string;
  keyPermissions : JsValue;
  lastUsedAt : option Z;
  expiresAt : option Z;
  isActive : bool;
  createdAt : Z;
  revokedAt : option Z
}.

(** The columns of the workflows table that the route selects. *)
Record WorkflowRow : Type := {
  workflowRowId : string;
  workflowRowUserId : string
}.

(** The values inserted into [api_audit_log]. *)
Record AuditRow : Type := {
  auditId : string;
  auditApiKeyId : string;
  auditUserId : string;
  auditAction : string;
  auditResource : option string;
  auditRequestMethod : option string;
  auditRequestPath : option string;
  auditResponseStatus : option string;
  auditMetadata : option JsValue;
  auditIpAddress : option string
}.

Record AuditEventParams : Type := {
  apiKeyId : string;
  auditedUserId : string;
  action : string;
  resource : option string;
  requestMethod : option string;
  requestPath : option string;
  responseStatus : option string;
  metadata : option JsValue;
  ipAddress : option string
}.

(** The database: its tables, and for the operations to come whether each
    one fails ([true]) or not; an operation beyond the list succeeds. *)
Record Database : Type := {
  apiKeys : list ApiKeyRow;
  workflows : list WorkflowRow;
  apiAuditLog : list AuditRow;
  faults : list bool
}.

(** [ApiKeyAuthResult] *)
Inductive AuthResult : Type :=
| AuthError (message : string) (status : Z)
| AuthOk (apiKey : ApiKeyRow) (userId : string) (permissions : JsValue).

(** The [result] of the execute route. *)
Record RouteResult : Type := {
  resultSuccess : bool;
  resultJobId : option string;
  resultQueued : option bool;
  resultOutput : option JsValue;
  resultError : option string;
  resultErrorStep : option string
}.

(** What [generateApiKey] returns: [{ key, hash, prefix }]. *)
Record GeneratedKey : Type := {
  generatedKey : string;
  generatedHash : string;
  generatedPrefix : string
}.

(** [s] without its first [n] characters. *)
Fixpoint dropChars (n : nat) (s : string) : string :=
  match n, s with
  | S n', String _ rest => dropChars n' rest
  | _, _ => s
  end.

(** [s.replace(pattern, replacement)] for a string pattern: the first
    occurrence is replaced. *)
Fixpoint replaceFirst (pattern replacement s : string) : string :=
  if String.prefix pattern s then replacement +:+ dropChars (String.length pattern) s
  else
    match s with
    | EmptyString => EmptyString
    | String c rest => String c (replaceFirst pattern replacement rest)
    end.

(** [v === true] *)
Definition isTrue (v : JsValue) : bool :=
  match v with
  | JBool true => true
  | _ => false
  end.

(** [v == null]: the test behind [??]. *)
Definition isNullish (v : JsValue) : bool :=
  match v with
  | JUndefined | JNull => true
  | _ => false
  end.

(** [checkPermission(permissions, resource, action)] *)
Definition checkPermission (h : Host) (permissions : JsValue) (resource action : string)
  : Completion bool :=
  match getProperty h permissions resource with
  | Throw e => Throw e
  | Normal resourcePerms =>
      if negb (truthy resourcePerms) then Normal false
      else
        match getProperty h resourcePerms action with
        | Throw e => Throw e
        | Normal granted => Normal (isTrue granted)
        end
  end.

Section WithServer.
Variable h : Host.
Variable ExecutorState : Type.
Variable executeWorkflow :
  string -> string -> TriggerType -> option JsValue ->
  ExecutorState -> Completion ExecutionResult * ExecutorState.

(** [createHash('sha256').update(key).digest('hex')], and the ids that
    [nanoid()] draws, by the number of earlier draws. *)
Variable sha256hex : string -> string.
Variable nanoid : nat -> string.

(** The server: the process of the workflow queue, the database, the time
    [new Date()] gives, and the number of ids drawn. *)
Record Server : Type := {
  process : World ExecutorState;
  database : Database;
  clock : Z;
  idsDrawn : nat
}.

Definition Handler (A : Type) : Type := Server -> Completion A * Server.

Definition pure {A : Type} (a : A) : Handler A := fun s => (Normal a, s).

Definition andThen {A B : Type} (m : Handler A) (k : A -> Handler B) : Handler B :=
  fun s =>
    match m s with
    | (Normal a, s') => k a s'
    | (Throw e, s') => (Throw e, s')
    end.

Definition catching {A : Type} (body : Handler A) (handler : JsError -> Handler A) : Handler A :=
  fun s =>
    match body s with
    | (Normal a, s') => (Normal a, s')
    | (Throw e, s') => handler e s'
    end.

Notation "'do!' x ':=' m 'in' k" := (andThen m (fun x => k))
  (at level 10, x pattern, m at level 100, k at level 200).

(** A computation of the workflow queue's process, run in the server. *)
Definition inProcess {A : Type} (m : M ExecutorState A) : Handler A :=
  fun s =>
    let '(outcome, w') := m (process s) in
    (outcome,
     {| process := w'; database := database s; clock := clock s; idsDrawn := idsDrawn s |}).

(** An expression that may throw. *)
Definition evaluating {A : Type} (c : Completion A) : Handler A := fun s => (c, s).

(** One database operation: it rejects when the database fails it. *)
Definition query {A : Type} (run : Database -> A * Database) : Handler A :=
  fun s =>
    let db := database s in
    match faults db with
    | true :: later =>
        (Throw (Error "database error"),
         {| process := process s;
            database := {| apiKeys := apiKeys db; workflows := workflows db;
                           apiAuditLog := apiAuditLog db; faults := later |};
            clock := clock s; idsDrawn := idsDrawn s |})
    | upcoming =>
        let '(a, db') := run {| apiKeys := apiKeys db; workflows := workflows db;
                                apiAuditLog := apiAuditLog db; faults := tl upcoming |} in
        (Normal a,
         {| process := process s; database := db'; clock := clock s;
            idsDrawn := idsDrawn s |})
    end.

(** [hashApiKey(key)] *)
Definition hashApiKey (key : string) : string := sha256hex key.

Definition API_KEY_PREFIX : string := "b0t_".

(** [generateApiKey()]; [rawKey] is what
    [randomBytes(32).toString('base64url')] gives. *)
Definition generateApiKey (rawKey : string) : GeneratedKey :=
  let key := API_KEY_PREFIX +:+ rawKey in
  {| generatedKey := key;
     generatedHash := sha256hex key;
     generatedPrefix := String.substring 0 12 key |}.

(** The [where] clause of the key lookup. *)
Definition usableKey (hash : string) (row : ApiKeyRow) : bool :=
  String.eqb (keyHash row) hash && Bool.eqb (isActive row) true &&
  match revokedAt row with
  | None => true
  | Some _ => false
  end.

(** [db.select().from(apiKeysTable).where(...).limit(1)] *)
Definition selectApiKey (hash : string) : Handler (list ApiKeyRow) :=
  query (fun db => (firstn 1 (List.filter (usableKey hash) (apiKeys db)), db)).

(** [db.update(apiKeysTable).set({ lastUsedAt: new Date() }).where(eq(id))] *)
Definition touchApiKey (id : string) (at_ : Z) : Handler unit :=
  query (fun db =>
    (tt,
     {| apiKeys := map (fun row =>
                          if String.eqb (keyId row) id
                          then {| keyId := keyId row; keyName := keyName row;
                                  keyHash := keyHash row; keyPrefix := keyPrefix row;
                                  keyUserId := keyUserId row;
                                  keyPermissions := keyPermissions row;
                                  lastUsedAt := Some at_; expiresAt := expiresAt row;
                                  isActive := isActive row; createdAt := createdAt row;
                                  revokedAt := revokedAt row |}
                          else row) (apiKeys db);
        workflows := workflows db; apiAuditLog := apiAuditLog db;
        faults := faults db |})).

(** [validateApiKey(request)], from the request's authorization header.
    The update of [lastUsedAt] is not awaited and its failure is dropped;
    it is taken to happen at once. *)
Definition validateApiKey (authorization : option string) : Handler AuthResult :=
  match authorization with
  | None => pure (AuthError "Missing or invalid API key" 401)
  | Some authHeader =>
      if negb (String.prefix "Bearer b0t_" authHeader) then
        pure (AuthError "Missing or invalid API key" 401)
      else
        let key := replaceFirst "Bearer " "" authHeader in
        let hash := hashApiKey key in
        do! found := selectApiKey hash in
        match found with
        | [] => pure (AuthError "Invalid or revoked API key" 401)
        | apiKey :: _ =>
            fun s =>
              if match expiresAt apiKey with
                 | Some expiry => Z.ltb expiry (clock s)
                 | None => false
                 end
              then pure (AuthError "API key has expired" 401) s
              else
                (do! _ := catching (touchApiKey (keyId apiKey) (clock s))
                                   (fun _ => pure tt) in
                 pure (AuthOk apiKey (keyUserId apiKey) (keyPermissions apiKey))) s
        end
  end.

(** [logAuditEvent(params)] *)
Definition logAuditEvent (params : AuditEventParams) : Handler unit :=
  catching
    (fun s =>
       let row := {| auditId := nanoid (idsDrawn s);
                     auditApiKeyId := apiKeyId params;
                     auditUserId := auditedUserId params;
                     auditAction := action params;
                     auditResource := resource params;
                     auditRequestMethod := requestMethod params;
                     auditRequestPath := requestPath params;
                     auditResponseStatus := responseStatus params;
                     auditMetadata := metadata params;
                     auditIpAddress := ipAddress params |} in
       query (fun db =>
                (tt,
                 {| apiKeys := apiKeys db; workflows := workflows db;
                    apiAuditLog := apiAuditLog db ++ [row]; faults := faults db |}))
             {| process := process s; database := database s; clock := clock s;
                idsDrawn := S (idsDrawn s) |})
    (fun _ => inProcess (log ExecutorState error_ "Failed to write audit log entry")).

(** The lookup of the workflow by id and owner, [limit(1)]. *)
Definition selectWorkflow (id userId : string) : Handler (list WorkflowRow) :=
  query (fun db =>
           (firstn 1 (List.filter
                        (fun row => String.eqb (workflowRowId row) id &&
                                    String.eqb (workflowRowUserId row) userId)
                        (workflows db)),
            db)).

(** [body.triggerData ?? body.params ?? {}] *)
Definition requestedTriggerData (body : JsValue) : Completion JsValue :=
  match getProperty h body "triggerData" with
  | Throw e => Throw e
  | Normal given =>
      if isNullish given then
        match getProperty h body "params" with
        | Throw e => Throw e
        | Normal params => Normal (if isNullish params then JObject [] else params)
        end
      else Normal given
  end.

(** The [result] of the route: the job queued when the workflow queue is
    available, the outcome of the direct run otherwise. *)
Definition dispatch (id userId : string) (triggerData : JsValue) : M ExecutorState RouteResult :=
  fun w =>
    if isWorkflowQueueAvailable w then
      bind ExecutorState
           (queueWorkflowExecution executeWorkflow id userId manual (Some triggerData) None)
           (fun enqueued =>
              ret ExecutorState
                  {| resultSuccess := true;
                     resultJobId := Some (jobIdOf enqueued);
                     resultQueued := Some (queued enqueued);
                     resultOutput := None; resultError := None;
                     resultErrorStep := None |}) w
    else
      bind ExecutorState
           (callExecuteWorkflow ExecutorState executeWorkflow id userId manual
              (Some triggerData))
           (fun ran =>
              ret ExecutorState
                  {| resultSuccess := success ran;
                     resultJobId := None; resultQueued := None;
                     resultOutput := output ran; resultError := error ran;
                     resultErrorStep := errorStep ran |}) w.

(** The audit event of the route. *)
Definition executeEvent (apiKey : ApiKeyRow) (userId id : string)
    (forwardedFor : option string) (result : RouteResult) : AuditEventParams :=
  {| apiKeyId := keyId apiKey; auditedUserId := userId;
     action := "workflows.execute"; resource := Some id;
     requestMethod := Some "POST";
     requestPath := Some ("/api/external/workflows/" +:+ id +:+ "/execute");
     responseStatus := Some (if resultSuccess result then "200" else "500");
     metadata := None; ipAddress := forwardedFor |}.

(** The response for a [result]. *)
Definition answer (result : RouteResult) : Response :=
  if negb (resultSuccess result) then
    json (JObject [("success", JBool false);
                   ("error", optionalString (resultError result));
                   ("errorStep", optionalString (resultErrorStep result))])
         500
  else
    json (JObject [("success", JBool true);
                   ("output", optionalValue (resultOutput result));
                   ("jobId", optionalString (resultJobId result));
                   ("queued", match resultQueued result with
                              | Some flag => JBool flag
                              | None => JUndefined
                              end)])
         200.

(** The [try] block of the route, for an authenticated key. *)
Definition tryBlock (apiKey : ApiKeyRow) (userId : string) (forwardedFor : option string)
    (id : string) (parsedBody : option JsValue) : Handler Response :=
  do! found := selectWorkflow id userId in
  match found with
  | [] => pure (json (JObject [("error", JString "Workflow not found")]) 404)
  | _ :: _ =>
      let body := match parsedBody with
                  | Some parsed => parsed
                  | None => JObject []
                  end in
      do! triggerData := evaluating (requestedTriggerData body) in
      do! result := inProcess (dispatch id userId triggerData) in
      do! _ := logAuditEvent (executeEvent apiKey userId id forwardedFor result) in
      pure (answer result)
  end.

(** The handler of [POST /api/external/workflows/[id]/execute].
    [authorization] and [forwardedFor] are the request's headers of that
    name; [parsedBody] is what [request.json()] resolves to, [None] when it
    rejects. *)
Definition POST (authorization forwardedFor : option string) (id : string)
    (parsedBody : option JsValue) : Handler Response :=
  do! auth := validateApiKey authorization in
  match auth with
  | AuthError message status => pure (json (JObject [("error", JString message)]) status)
  | AuthOk apiKey userId permissions =>
      do! allowed := evaluating (checkPermission h permissions "workflows" "execute") in
      if negb allowed then
        pure (json (JObject [("error", JString "Insufficient permissions")]) 403)
      else
        catching
          (tryBlock apiKey userId forwardedFor id parsedBody)
          (fun _ =>
             do! _ := inProcess (log ExecutorState error_
                                   "External API: Failed to execute workflow") in
             pure (json (JObject [("error", JString "Failed to execute workflow")]) 500))
  end.

(** The lookup of the key by id and owner, [limit(1)]. *)
Definition selectOwnKey (id userId : string) : Handler (list string) :=
  query (fun db =>
           (firstn 1 (map keyId
                        (List.filter
                           (fun row => String.eqb (keyId row) id &&
                                       String.eqb (keyUserId row) userId)
                           (apiKeys db))),
            db)).

(** [db.update(apiKeysTable).set({ isActive: false, revokedAt: new Date() })]
    for the key of that id and owner. *)
Definition revokeOwnKey (id userId : string) (at_ : Z) : Handler unit :=
  query (fun db =>
    (tt,
     {| apiKeys := map (fun row =>
                          if String.eqb (keyId row) id && String.eqb (keyUserId row) userId
                          then {| keyId := keyId row; keyName := keyName row;
                                  keyHash := keyHash row; keyPrefix := keyPrefix row;
                                  keyUserId := keyUserId row;
                                  keyPermissions := keyPermissions row;
                                  lastUsedAt := lastUsedAt row;
                                  expiresAt := expiresAt row;
                                  isActive := false; createdAt := createdAt row;
                                  revokedAt := Some at_ |}
                          else row) (apiKeys db);
        workflows := workflows db; apiAuditLog := apiAuditLog db;
        faults := faults db |})).

(** The handler of [DELETE /api/api-keys/[id]].  [sessionUserId] is
    [session?.user?.id]. *)
Definition DELETE (sessionUserId : option string) (id : string) : Handler Response :=
  catching
    (match sessionUserId with
     | None => pure (json (JObject [("error", JString "Unauthorized")]) 401)
     | Some user =>
         if String.eqb user "" then
           pure (json (JObject [("error", JString "Unauthorized")]) 401)
         else
           do! found := selectOwnKey id user in
           match found with
           | [] => pure (json (JObject [("error", JString "API key not found")]) 404)
           | _ :: _ =>
               fun s =>
                 (do! _ := revokeOwnKey id user (clock s) in
                  do! _ := inProcess (log ExecutorState info "API key revoked") in
                  pure (json (JObject [("success", JBool true)]) 200)) s
           end
     end)
    (fun _ =>
       do! _ := inProcess (log ExecutorState error_ "Failed to revoke API key") in
       pure (json (JObject [("error", JString "Failed to revoke API key")]) 500)).

End WithServer.

Arguments process {ExecutorState} s.
Arguments database {ExecutorState} s.
Arguments clock {ExecutorState} s.
Arguments idsDrawn {ExecutorState} s.
Arguments pure {ExecutorState A} a s.
Arguments andThen {ExecutorState A B} m k s.
Arguments catching {ExecutorState A} body handler s.
Arguments inProcess {ExecutorState A} m s.
Arguments evaluating {ExecutorState A} c s.
Arguments query {ExecutorState A} run s.
Arguments selectApiKey {ExecutorState} hash s.
Arguments touchApiKey {ExecutorState} id at_ s.
Arguments selectWorkflow {ExecutorState} id userId s.
Arguments validateApiKey {ExecutorState} sha256hex authorization s.
Arguments logAuditEvent {ExecutorState} nanoid params s.
Arguments dispatch {ExecutorState} executeWorkflow id userId triggerData w.
Arguments tryBlock h {ExecutorState} executeWorkflow nanoid
  apiKey userId forwardedFor id parsedBody s.
Arguments POST h {ExecutorState} executeWorkflow sha256hex nanoid
  authorization forwardedFor id parsedBody s.
Arguments selectOwnKey {ExecutorState} id userId s.
Arguments revokeOwnKey {ExecutorState} id userId at_ s.
Arguments DELETE {ExecutorState} sessionUserId id s.

End ExternalApi.

(** ** Properties of the output post-processing *)
Module RunOutputModalFacts.
Import Js RunOutputModal.

(** A host with the members every engine gives ordinary objects and arrays;
    used to evaluate the code on concrete inputs. *)
Definition sampleHost : Host :=
  {| objectProto := fun key =>
       if arrayIncludes ["constructor"; "hasOwnProperty"; "isPrototypeOf";
                         "propertyIsEnumerable"; "toLocaleString"; "toString";
                         "valueOf"] key
       then Some (JFunction key) else None;
     arrayProto := fun key =>
       if arrayIncludes ["constructor"; "hasOwnProperty"; "isPrototypeOf";
                         "propertyIsEnumerable"; "toLocaleString"; "toString";
                         "valueOf"; "concat"; "filter"; "forEach"; "includes";
                         "indexOf"; "join"; "map"; "pop"; "push"; "slice"] key
       then Some (JFunction key) else None;
     otherProto := fun _ _ => None |}.

(** An output with a nested object, an array and a null member. *)
Definition sampleOutput : JsValue :=
  JObject [("result", JObject [("rows", JArray [JNumber 10; JNumber 20])]);
           ("user", JNull)].

(** [sub] occurs in [s]. *)
Definition Substring (sub s : string) : Prop :=
  exists before after, s = before +:+ sub +:+ after.

(** The keys the auto-filter is documented to drop. *)
Definition Removable (key : string) : Prop :=
  key = "user" \/ key = "trigger" \/
  Substring "_apikey" key \/ Substring "_api_key" key \/
  In key ["openai"; "anthropic"; "youtube"; "slack"; "twitter"; "github"; "reddit"].

(** One step of a path: [v] is an object or an array that has [key], with
    value [next]. *)
Definition Descends (h : Host) (v : JsValue) (key : string) (next : JsValue) : Prop :=
  ((exists props, v = JObject props) \/ (exists items, v = JArray items) \/
   (exists proto props, v = JDerived proto props)) /\
  lookupProperty h v key = Some next.

(** Every segment of the path is found, one after the other. *)
Inductive Resolves (h : Host) : JsValue -> list string -> JsValue -> Prop :=
| Resolves_done v : Resolves h v [] v
| Resolves_step v key rest next result :
    Descends h v key next ->
    Resolves h next rest result ->
    Resolves h v (key :: rest) result.

(** The resolution as the specification words it, for comparison with the
    code: the captured text is split on [.] as it stands and every segment
    descends into a nested mapping; a segment that is not found gives the
    whole context. *)
Fixpoint statedDescent (context : JsValue) (keys : list string) (value : JsValue) : JsValue :=
  match keys with
  | [] => value
  | key :: rest =>
      match value with
      | JObject props =>
          match ownProperty props key with
          | Some next => statedDescent context rest next
          | None => context
          end
      | _ => context
      end
  end.

Definition statedResolution (template : string) (context : JsValue) : JsValue :=
  match matchTemplate template with
  | Some captured => statedDescent context (split "." captured) context
  | None => context
  end.

(** The characters of a string. *)
Fixpoint chars (s : string) : list ascii :=
  match s with
  | EmptyString => []
  | String c rest => c :: chars rest
  end.

(** The entries the loop does not skip. *)
Definition kept (entries : list (string * JsValue)) : list (string * JsValue) :=
  List.filter (fun kv => negb (skipped (fst kv))) entries.

(** A value that the setter of [__proto__] ignores. *)
Definition keepsPrototype (v : JsValue) : bool :=
  match v with
  | JNull | JArray _ | JObject _ | JFunction _ | JDerived _ _ => false
  | _ => true
  end.

(** An object, not an array: what goes through the template and through the
    auto-filter. *)
Definition objectShaped (v : JsValue) : bool :=
  truthy v && String.eqb (typeof v) "object" && negb (isArray v).

(** One step of a path through what a value holds itself: [key] is an own
    property of the object, or an index or [length] of the array. *)
Definition OwnStep (v : JsValue) (key : string) (next : JsValue) : Prop :=
  match v with
  | JObject props | JDerived _ props => ownProperty props key = Some next
  | JArray items => arrayOwnProperty items key = Some next
  | _ => False
  end.

(** Every segment of the path names something the value reached holds
    itself. *)
Inductive OwnPath : JsValue -> list string -> JsValue -> Prop :=
| OwnPath_done v : OwnPath v [] v
| OwnPath_step v key rest next result :
    OwnStep v key next ->
    OwnPath next rest result ->
    OwnPath v (key :: rest) result.

(** The path leaves the output: after segments that are held, the value
    reached is no object or array, or the next segment names nothing in it,
    held or inherited. *)
Inductive Misses (h : Host) : JsValue -> list string -> Prop :=
| Misses_here v key rest :
    truthy v && String.eqb (typeof v) "object" = false \/ lookupProperty h v key = None ->
    Misses h v (key :: rest)
| Misses_later v key rest next :
    OwnStep v key next ->
    Misses h next rest ->
    Misses h v (key :: rest).

Lemma prefix_spec (a b : string) :
  String.prefix a b = true <-> exists after, b = a +:+ after.
Proof.
  revert b. induction a as [|c a IH]; intros b; simpl.
  - split; [intros _; exists b; reflexivity | intros _; destruct b; reflexivity].
  - destruct b as [|d b]; simpl.
    + split; [discriminate | intros [after H]; discriminate].
    + destruct (ascii_dec c d) as [->|Hne].
      * rewrite IH. split; intros [after H]; exists after.
        -- now rewrite H.
        -- now injection H.
      * split; [discriminate | intros [after H]; injection H; congruence].
Qed.

Lemma stringIncludes_spec (s sub : string) :
  stringIncludes s sub = true <-> Substring sub s.
Proof.
  induction s as [|c s IH]; cbn [stringIncludes]; rewrite orb_true_iff, prefix_spec.
  - split.
    + intros [[after H]|H]; [|discriminate]. exists "", after. exact H.
    + intros [before [after H]]. left.
      destruct before; [exists after; exact H | discriminate].
  - rewrite IH. split.
    + intros [[after H]|[before [after H]]].
      * exists "", after. exact H.
      * exists (String c before), after. simpl. now rewrite H.
    + intros [before [after H]]. destruct before as [|d before]; simpl in H.
      * left. exists after. exact H.
      * right. injection H as _ H. exists before, after. exact H.
Qed.

Lemma arrayIncludes_spec (arr : list string) (key : string) :
  arrayIncludes arr key = true <-> In key arr.
Proof.
  unfold arrayIncludes. rewrite existsb_exists. split.
  - intros [x [Hin Heq]]. apply String.eqb_eq in Heq. now subst.
  - intros Hin. exists key. split; [exact Hin | apply String.eqb_refl].
Qed.

Lemma skipped_spec (key : string) : skipped key = true <-> Removable key.
Proof.
  unfold skipped, Removable.
  rewrite !orb_true_iff, !arrayIncludes_spec, !stringIncludes_spec.
  unfold internalKeys, credentialPlatforms. simpl. intuition (subst; auto).
Qed.

Lemma skipped_false_spec (key : string) : skipped key = false <-> ~ Removable key.
Proof.
  rewrite <- skipped_spec. destruct (skipped key); split; congruence.
Qed.

Lemma kept_In (entries : list (string * JsValue)) (k : string) (v : JsValue) :
  In (k, v) (kept entries) <-> In (k, v) entries /\ ~ Removable k.
Proof.
  unfold kept. rewrite filter_In. simpl.
  rewrite negb_true_iff, skipped_false_spec. reflexivity.
Qed.

Lemma kept_all_removed (entries : list (string * JsValue)) :
  (forall k v, In (k, v) entries -> Removable k) -> kept entries = [].
Proof.
  intros Hall. destruct (kept entries) as [|[k v] rest] eqn:E; [reflexivity|].
  assert (Hin : In (k, v) (kept entries)) by (rewrite E; left; reflexivity).
  apply kept_In in Hin. destruct Hin as [Hin Hkeep].
  exfalso. apply Hkeep. eapply Hall; eauto.
Qed.

Lemma kept_some (entries : list (string * JsValue)) :
  (exists k v, In (k, v) entries /\ ~ Removable k) -> kept entries <> [].
Proof.
  intros [k [v [Hin Hkeep]]] E.
  assert (H : In (k, v) (kept entries)) by (apply kept_In; auto).
  rewrite E in H. destruct H.
Qed.

Lemma ownProperty_absent (props : list (string * JsValue)) (key : string) :
  ~ In key (objectKeys props) -> ownProperty props key = None.
Proof.
  induction props as [|[k v] rest IH]; [reflexivity|]. cbn. intros Hno.
  destruct (String.eqb_spec k key) as [->|_]; [exfalso; apply Hno; now left|].
  apply IH. intros Hin. apply Hno. now right.
Qed.

Lemma objectKeys_app (a b : list (string * JsValue)) :
  objectKeys (a ++ b) = (objectKeys a ++ objectKeys b)%list.
Proof. apply map_app. Qed.

(** The keys of an object are distinct: the first key of the entries to come
    is not among the properties built so far, nor among the later entries. *)
Lemma distinct_head (acc rest : list (string * JsValue)) (k : string) (v : JsValue) :
  List.NoDup (objectKeys (acc ++ (k, v) :: rest)) ->
  ~ In k (objectKeys acc) /\ ~ In k (objectKeys rest) /\
  List.NoDup (objectKeys (acc ++ rest)) /\
  List.NoDup (objectKeys ((acc ++ [(k, v)]) ++ rest)).
Proof.
  intros Hdistinct.
  assert (Hsame : ((acc ++ [(k, v)]) ++ rest = acc ++ (k, v) :: rest)%list)
    by (rewrite <- app_assoc; reflexivity).
  rewrite Hsame. split; [|split; [|split; [|exact Hdistinct]]];
    unfold objectKeys in *; rewrite map_app in Hdistinct; cbn [map fst] in Hdistinct;
    apply List.NoDup_remove in Hdistinct; destruct Hdistinct as [Hrest Hk].
  - intros Hin. apply Hk. apply in_or_app. now left.
  - intros Hin. apply Hk. apply in_or_app. now right.
  - rewrite map_app. exact Hrest.
Qed.

(** The loop on entries without a key [__proto__]: every entry that is not
    skipped becomes an own property, in order. *)
Lemma assignKept_plain (h : Host) (acc entries : list (string * JsValue)) :
  List.NoDup (objectKeys (acc ++ entries)) ->
  ~ In "__proto__" (objectKeys entries) ->
  assignKept h {| builtProto := None; builtProps := acc |} entries
  = Normal {| builtProto := None; builtProps := acc ++ kept entries |}.
Proof.
  revert acc. induction entries as [|[k v] rest IH]; intros acc Hdistinct Hplain.
  - cbn. now rewrite app_nil_r.
  - destruct (distinct_head acc rest k v Hdistinct) as (Hnew & _ & Hskip & Hnext).
    assert (Hrest : ~ In "__proto__" (objectKeys rest))
      by (intros Hin; apply Hplain; now right).
    cbn [assignKept kept List.filter fst]. destruct (skipped k) eqn:Hskipped; cbn [negb].
    + now apply IH.
    + unfold assign. cbn [builtProps builtProto].
      rewrite (ownProperty_absent acc k Hnew).
      destruct (String.eqb_spec k "__proto__") as [->|_];
        [exfalso; apply Hplain; now left|].
      rewrite (IH (acc ++ [(k, v)])%list Hnext Hrest).
      unfold kept. rewrite <- app_assoc. reflexivity.
Qed.

(** Where the post-processing goes for an object without a returnValue:
    through the auto-filter, and an empty result is replaced by the object
    itself. *)
Lemma processOutput_unconfigured (h : Host) (returnValue : option string)
    (output : JsValue) :
  configured returnValue = false ->
  objectShaped output = true ->
  processOutput h returnValue output =
    match autoFilter h (objectEntries output) with
    | Throw e => Throw e
    | Normal filteredOutput =>
        match builtProps filteredOutput with
        | [] => Normal output
        | _ :: _ => Normal (builtValue filteredOutput)
        end
    end.
Proof.
  intros Hrv Hshape. unfold processOutput. unfold objectShaped in Hshape.
  apply andb_true_iff in Hshape. destruct Hshape as [Hshape Hobject].
  apply andb_true_iff in Hshape. destruct Hshape as [Htruthy Htype].
  rewrite Hrv, Htruthy, Htype, Hobject. cbn [andb negb].
  destruct (autoFilter h (objectEntries output)) as [filteredOutput|e]; [|reflexivity].
  destruct (builtProps filteredOutput); reflexivity.
Qed.

(** Without a returnValue, an object without a key [__proto__] keeps the
    entries that are not skipped, and an empty result is replaced by the
    object itself. *)
Lemma processOutput_unconfigured_object (h : Host) (returnValue : option string)
    (props : list (string * JsValue)) :
  configured returnValue = false ->
  List.NoDup (objectKeys props) ->
  ~ In "__proto__" (objectKeys props) ->
  processOutput h returnValue (JObject props) =
    Normal (match kept props with
            | [] => JObject props
            | remaining => JObject remaining
            end).
Proof.
  intros Hrv Hdistinct Hplain.
  rewrite (processOutput_unconfigured h returnValue (JObject props) Hrv eq_refl).
  unfold autoFilter, emptyObject. cbn [objectEntries].
  rewrite (assignKept_plain h [] props Hdistinct Hplain). cbn [app builtProps].
  destruct (kept props); reflexivity.
Qed.

Lemma Resolves_functional (h : Host) (v : JsValue) (keys : list string) (r1 r2 : JsValue) :
  Resolves h v keys r1 -> Resolves h v keys r2 -> r1 = r2.
Proof.
  intros H1. revert r2. induction H1 as [v|v key rest next result [_ Hlook] _ IH];
    intros r2 H2; inversion H2 as [|? ? ? next' ? [_ Hlook'] Hrest]; subst.
  - reflexivity.
  - rewrite Hlook in Hlook'. injection Hlook' as <-. now apply IH.
Qed.

(** The loop agrees with [Resolves]: it returns the value the path leads to,
    or the whole output when some segment is not found; it never throws. *)
Lemma traverse_spec (h : Host) (output : JsValue) (keys : list string) (v : JsValue) :
  (exists r, Resolves h v keys r /\ traverse h output keys v = Normal r) \/
  ((forall r, ~ Resolves h v keys r) /\ traverse h output keys v = Normal output).
Proof.
  revert v. induction keys as [|key rest IH]; intros v.
  - left. exists v. split; [constructor | reflexivity].
  - assert (Hprim : (forall props, v <> JObject props) -> (forall items, v <> JArray items) ->
                    (forall proto props, v <> JDerived proto props) ->
                    forall r, ~ Resolves h v (key :: rest) r).
    { intros Hobj Harr Hder r Hres. inversion Hres as [|? ? ? ? ? Hd _]; subst.
      destruct Hd as [[[props Hv]|[[items Hv]|[proto [props Hv]]]] _].
      - now apply (Hobj props).
      - now apply (Harr items).
      - now apply (Hder proto props). }
    assert (Hmiss : lookupProperty h v key = None -> forall r, ~ Resolves h v (key :: rest) r).
    { intros Hnone r Hres. inversion Hres as [|? ? ? ? ? [_ Hlook] _]; subst. congruence. }
    assert (Hhit : forall next,
               ((exists props, v = JObject props) \/ (exists items, v = JArray items) \/
                (exists proto props, v = JDerived proto props)) ->
               lookupProperty h v key = Some next ->
               traverse h output rest next = traverse h output (key :: rest) v ->
               (exists r, Resolves h v (key :: rest) r /\
                          traverse h output (key :: rest) v = Normal r) \/
               ((forall r, ~ Resolves h v (key :: rest) r) /\
                traverse h output (key :: rest) v = Normal output)).
    { intros next Hshape Hlook Heq. rewrite <- Heq.
      destruct (IH next) as [[r [Hres Hrun]]|[Hnone Hrun]].
      - left. exists r. split; [|exact Hrun]. econstructor; [split|]; eauto.
      - right. split; [|exact Hrun]. intros r Hres.
        inversion Hres as [|? ? ? next' ? [_ Hlook'] Hrest]; subst.
        rewrite Hlook in Hlook'. injection Hlook' as <-. now apply (Hnone r). }
    assert (Hcase : (exists next, lookupProperty h v key = Some next) \/
                    lookupProperty h v key = None)
      by (destruct (lookupProperty h v key); eauto).
    destruct v as [| |b|n|s|items|props|name|proto props];
      try (right; split;
           [apply Hprim; intros; discriminate
           | simpl; rewrite ?andb_false_r; reflexivity]);
      (destruct Hcase as [[next Hlook]|Hlook];
       [ apply (Hhit next); [eauto 6 | exact Hlook |]
       | right; split; [now apply Hmiss|] ]);
      cbn [traverse truthy typeof andb hasProperty getProperty];
      simpl String.eqb; cbv iota; now rewrite Hlook.
Qed.

Lemma matchCapture_spec (s captured : string) :
  matchCapture s = Some captured <->
  s = captured +:+ "}}" /\ ~ In "}"%char (chars captured).
Proof.
  revert captured. induction s as [|c s IH]; intros captured; simpl.
  - split; [discriminate|]. intros [H _]. destruct captured; discriminate.
  - destruct (Ascii.eqb_spec c "}") as [->|Hc].
    + destruct (String.eqb_spec s "}") as [->|Hs].
      * split.
        -- intros H. injection H as <-. split; [reflexivity | intros []].
        -- intros [H Hno]. destruct captured as [|d captured]; [reflexivity|].
           simpl in H. injection H as <- _. exfalso. apply Hno. now left.
      * split; [discriminate|]. intros [H Hno].
        destruct captured as [|d captured]; simpl in H.
        -- injection H as ->. now contradiction Hs.
        -- injection H as <- _. exfalso. apply Hno. now left.
    + destruct (matchCapture s) as [captured'|] eqn:E.
      * destruct (proj1 (IH captured') eq_refl) as [-> Hno]. split.
        -- intros H. injection H as <-. split; [reflexivity|].
           simpl. intros [Heq|Hin]; [congruence | contradiction].
        -- intros [H Hno']. destruct captured as [|d captured]; simpl in H.
           ++ injection H as -> _. now contradiction Hc.
           ++ injection H as <- H. f_equal. f_equal.
              assert (Hm : Some captured' = Some captured).
              { apply IH. split; [exact H|]. intros Hin. apply Hno'. now right. }
              now injection Hm.
      * split; [discriminate|]. intros [H Hno].
        destruct captured as [|d captured]; simpl in H.
        -- injection H as -> _. now contradiction Hc.
        -- injection H as <- H.
           assert (Hm : None = Some captured).
           { apply IH. split; [exact H|]. intros Hin. apply Hno. now right. }
           discriminate.
Qed.

(** The regular expression, spelled out: two opening braces, a non-empty
    capture free of closing braces, two closing braces, and nothing else. *)
Lemma matchTemplate_spec (s captured : string) :
  matchTemplate s = Some captured <->
  s = "{{" +:+ captured +:+ "}}" /\ captured <> "" /\ ~ In "}"%char (chars captured).
Proof.
  unfold matchTemplate. split.
  - intros H.
    destruct s as [|c1 [|c2 rest]]; [discriminate| |].
    { destruct c1 as [[] [] [] [] [] [] [] []]; discriminate. }
    assert (Hbraces : c1 = "{"%char /\ c2 = "{"%char).
    { destruct c1 as [[] [] [] [] [] [] [] []]; try discriminate;
        destruct c2 as [[] [] [] [] [] [] [] []]; try discriminate.
      split; reflexivity. }
    destruct Hbraces as [-> ->].
    destruct (matchCapture rest) as [[|d cap]|] eqn:E; try discriminate.
    injection H as <-. apply matchCapture_spec in E. destruct E as [-> Hno].
    split; [reflexivity|]. split; [discriminate | exact Hno].
  - intros [-> [Hne Hno]].
    assert (E : matchCapture (captured +:+ "}}") = Some captured)
      by (apply matchCapture_spec; auto).
    change ("{{" +:+ captured +:+ "}}") with (String "{" (String "{" (captured +:+ "}}"))).
    cbv beta iota. rewrite E. destruct captured; [contradiction | reflexivity].
Qed.

(** With a returnValue that matches, an object goes through the loop over
    the segments of the trimmed capture. *)
Lemma processOutput_template_object (h : Host) (template captured : string)
    (output : JsValue) :
  matchTemplate template = Some captured ->
  objectShaped output = true ->
  processOutput h (Some template) output =
    traverse h output (split "." (trim captured)) output.
Proof.
  intros Hm Hshape. unfold processOutput. unfold objectShaped in Hshape.
  apply andb_true_iff in Hshape. destruct Hshape as [Hshape Hobject].
  apply andb_true_iff in Hshape. destruct Hshape as [Htruthy Htype].
  assert (Hc : configured (Some template) = true).
  { destruct template; [discriminate Hm | reflexivity]. }
  rewrite Hc, Hm, Htruthy, Htype, Hobject. reflexivity.
Qed.

Lemma OwnStep_Descends (h : Host) (v : JsValue) (key : string) (next : JsValue) :
  OwnStep v key next -> Descends h v key next.
Proof.
  destruct v as [| |b|n|s|items|props|name|proto props]; cbn [OwnStep];
    try contradiction; intros Hown; (split; [eauto 6|]);
    cbn [lookupProperty]; now rewrite Hown.
Qed.

Lemma OwnPath_Resolves (h : Host) (v : JsValue) (keys : list string) (r : JsValue) :
  OwnPath v keys r -> Resolves h v keys r.
Proof.
  induction 1 as [v|v key rest next result Hstep _ IH]; [constructor|].
  econstructor; [apply OwnStep_Descends|]; eauto.
Qed.

Lemma Misses_unresolved (h : Host) (v : JsValue) (keys : list string) :
  Misses h v keys -> forall r, ~ Resolves h v keys r.
Proof.
  induction 1 as [v key rest Hhere|v key rest next Hstep _ IH]; intros r Hres;
    inversion Hres as [|? ? ? next' ? Hd Hrest]; subst.
  - destruct Hd as [Hshape Hlook]. destruct Hhere as [Hprim|Hnone]; [|congruence].
    destruct Hshape as [[props ->]|[[items ->]|[proto [props ->]]]]; discriminate Hprim.
  - apply (OwnStep_Descends h) in Hstep. destruct Hstep as [_ Hlook].
    destruct Hd as [_ Hlook']. rewrite Hlook in Hlook'. injection Hlook' as <-.
    now apply (IH r).
Qed.

(** C5.  With no returnValue configured, an object-shaped output is to be
    shown without the keys [user] and [trigger], without the keys that
    contain [_apikey] or [_api_key] and without the credential platform
    names, and as it is only when nothing else would remain.  On the output
    [{"__proto__": 5, "user": "u1"}] the code does not do so: the key
    [__proto__] is not one of the keys to remove, yet the assignment
    [filteredOutput[key] = value] stores nothing for it, the result is taken
    to be empty, and the output is shown as it is, [user] included.  On every
    object that has no key [__proto__] the code does what is stated: it
    keeps exactly the entries whose key is not to be removed, in their
    order, and returns the output as it is when none remains. *)
Theorem auto_filter_misses_own_proto_key :
  ~ Removable "__proto__" /\
  Removable "user" /\
  (forall (h : Host) (returnValue : option string),
     configured returnValue = false ->
     processOutput h returnValue
       (JObject [("__proto__", JNumber 5); ("user", JString "u1")])
     = Normal (JObject [("__proto__", JNumber 5); ("user", JString "u1")])) /\
  (forall (h : Host) (returnValue : option string) (props : list (string * JsValue)),
     configured returnValue = false ->
     List.NoDup (objectKeys props) ->
     ~ In "__proto__" (objectKeys props) ->
     exists out,
       processOutput h returnValue (JObject props) = Normal out /\
       ((forall k v, In (k, v) props -> Removable k) -> out = JObject props) /\
       ((exists k v, In (k, v) props /\ ~ Removable k) ->
          exists remaining,
            out = JObject remaining /\
            (forall k, In k (objectKeys remaining) -> ~ Removable k) /\
            (forall k v, In (k, v) remaining <-> In (k, v) props /\ ~ Removable k) /\
            sublist remaining props)).
Proof.
  split; [|split; [|split]].
  - apply skipped_false_spec. reflexivity.
  - apply skipped_spec. reflexivity.
  - intros h returnValue Hrv.
    rewrite (processOutput_unconfigured h returnValue
               (JObject [("__proto__", JNumber 5); ("user", JString "u1")]) Hrv eq_refl).
    reflexivity.
  - intros h returnValue props Hrv Hdistinct Hplain.
    rewrite (processOutput_unconfigured_object h _ props Hrv Hdistinct Hplain).
    eexists. split; [reflexivity|]. split.
    + intros Hall. now rewrite (kept_all_removed props Hall).
    + intros Hsome. pose proof (kept_some props Hsome) as Hne.
      exists (kept props). split; [|split; [|split]].
      * destruct (kept props); [contradiction | reflexivity].
      * intros k Hk. unfold objectKeys in Hk. apply in_map_iff in Hk.
        destruct Hk as [[k' v] [Hfst Hin]]. simpl in Hfst. subst k'.
        now apply kept_In in Hin.
      * intros k v. apply kept_In.
      * unfold kept. clear. induction props as [|kv props IH]; simpl.
        -- constructor.
        -- destruct (negb (skipped (fst kv))); now constructor.
Qed.

(** C8.  An output that is already a sequence is returned unchanged whether
    or not a returnValue is configured, so post-processing it again gives
    the same sequence. *)
Theorem sequence_output_passes_through
    (h : Host) (returnValue returnValue' : option string) (items : list JsValue) :
  processOutput h returnValue (JArray items) = Normal (JArray items) /\
  (forall out,
     processOutput h returnValue (JArray items) = Normal out ->
     processOutput h returnValue' out = Normal (JArray items)).
Proof.
  assert (Hpass : forall rv, processOutput h rv (JArray items) = Normal (JArray items)).
  { intros rv. unfold processOutput. simpl.
    rewrite !andb_false_r. simpl. rewrite andb_true_r.
    destruct (configured rv); reflexivity. }
  split; [apply Hpass|].
  intros out Hout. rewrite Hpass in Hout. injection Hout as <-. apply Hpass.
Qed.

(** With a non-empty returnValue, anything but a resolved template path
    leaves the output as it is. *)
Lemma processOutput_configured_unresolved (h : Host) (template : string) (output : JsValue) :
  template <> "" ->
  matchTemplate template = None \/
  ((forall props, output <> JObject props) /\
   (forall proto props, output <> JDerived proto props)) ->
  processOutput h (Some template) output = Normal output.
Proof.
  intros Hne Hcase. unfold processOutput.
  assert (Hc : configured (Some template) = true).
  { destruct template; [contradiction | reflexivity]. }
  rewrite Hc.
  destruct output as [| |b|n|s|items|props|name|proto props]; simpl;
    rewrite ?andb_false_r; try reflexivity;
    (destruct Hcase as [Hm|[Hobj Hder]];
     [now rewrite Hm | (now contradiction (Hobj props)) || now contradiction (Hder proto props)]).
Qed.

(** A template path that is found gives its value; one that is not gives
    the whole output. *)
Lemma template_path_found_or_missing
    (h : Host) (template captured : string) (output : JsValue) :
  matchTemplate template = Some captured ->
  objectShaped output = true ->
  (forall v,
     Resolves h output (split "." (trim captured)) v ->
     processOutput h (Some template) output = Normal v) /\
  ((forall v, ~ Resolves h output (split "." (trim captured)) v) ->
     processOutput h (Some template) output = Normal output).
Proof.
  intros Hm Hshape. rewrite (processOutput_template_object h template captured output Hm Hshape).
  destruct (traverse_spec h output (split "." (trim captured)) output)
    as [[r [Hres Hrun]]|[Hnone Hrun]]; rewrite Hrun.
  - split.
    + intros v Hv. f_equal. eapply Resolves_functional; eauto.
    + intros Hno. now contradiction (Hno r).
  - split.
    + intros v Hv. now contradiction (Hnone v).
    + reflexivity.
Qed.

(** The template path is not resolved as stated.  The stated resolution
    descends into nested mappings only; the code also descends into
    sequences, by index: for [{{rows.1}}] on [{rows: [10, 20]}] it yields
    [20], not the whole output.  And a segment that the output does not
    hold is still found when every object inherits a member of that name:
    for [{{toString}}] on [{a: 1}] the code yields the built-in function,
    not the whole output. *)
Lemma template_path_is_not_resolved_as_stated :
  processOutput sampleHost (Some "{{rows.1}}")
    (JObject [("rows", JArray [JNumber 10; JNumber 20])])
  = Normal (JNumber 20) /\
  statedResolution "{{rows.1}}" (JObject [("rows", JArray [JNumber 10; JNumber 20])])
  = JObject [("rows", JArray [JNumber 10; JNumber 20])] /\
  processOutput sampleHost (Some "{{toString}}") (JObject [("a", JNumber 1)])
  = Normal (JFunction "toString") /\
  statedResolution "{{toString}}" (JObject [("a", JNumber 1)])
  = JObject [("a", JNumber 1)] /\
  ~ (forall (template : string) (output : JsValue),
       objectShaped output = true ->
       processOutput sampleHost (Some template) output
       = Normal (statedResolution template output)).
Proof.
  repeat split; try reflexivity.
  intros Hall.
  specialize (Hall "{{rows.1}}" (JObject [("rows", JArray [JNumber 10; JNumber 20])]) eq_refl).
  vm_compute in Hall. discriminate Hall.
Qed.

(** C6, as the code has it.  For a returnValue that is a template and an
    object-shaped output, the captured path is trimmed, split on dots and
    followed through the output, into nested objects and into arrays.  When
    every segment names something the value reached holds itself, the value
    at the end of the path becomes the output.  When the value reached is no
    object or array, or the segment names nothing in it, the whole output is
    used instead.  In every case the post-processing returns normally. *)
Theorem return_value_template_follows_own_path_or_falls_back
    (h : Host) (template captured : string) (output : JsValue) :
  matchTemplate template = Some captured ->
  objectShaped output = true ->
  (forall v,
     OwnPath output (split "." (trim captured)) v ->
     processOutput h (Some template) output = Normal v) /\
  (Misses h output (split "." (trim captured)) ->
     processOutput h (Some template) output = Normal output) /\
  (exists out, processOutput h (Some template) output = Normal out).
Proof.
  intros Hm Hshape.
  destruct (template_path_found_or_missing h template captured output Hm Hshape)
    as [Hfound Hmissing].
  split; [|split].
  - intros v Hpath. apply Hfound. now apply OwnPath_Resolves.
  - intros Hmiss. apply Hmissing. now apply Misses_unresolved.
  - rewrite (processOutput_template_object h template captured output Hm Hshape).
    destruct (traverse_spec h output (split "." (trim captured)) output)
      as [[r [_ Hrun]]|[_ Hrun]]; rewrite Hrun; eauto.
Qed.

Lemma return_value_template_follows_own_path_or_falls_back_witness :
  processOutput sampleHost (Some "{{ result.rows.1 }}") sampleOutput = Normal (JNumber 20) /\
  processOutput sampleHost (Some "{{result.missing}}") sampleOutput = Normal sampleOutput /\
  processOutput sampleHost (Some "{{user.name}}") sampleOutput = Normal sampleOutput.
Proof.
  split; [|split].
  - apply (return_value_template_follows_own_path_or_falls_back sampleHost
             "{{ result.rows.1 }}" " result.rows.1 " sampleOutput eq_refl eq_refl).
    apply (OwnPath_step _ _ _ (JObject [("rows", JArray [JNumber 10; JNumber 20])]));
      [reflexivity|].
    apply (OwnPath_step _ _ _ (JArray [JNumber 10; JNumber 20])); [reflexivity|].
    apply (OwnPath_step _ _ _ (JNumber 20)); [reflexivity|].
    apply OwnPath_done.
  - apply (return_value_template_follows_own_path_or_falls_back sampleHost
             "{{result.missing}}" "result.missing" sampleOutput eq_refl eq_refl).
    apply (Misses_later _ _ _ _ (JObject [("rows", JArray [JNumber 10; JNumber 20])]));
      [reflexivity|].
    apply Misses_here. right. reflexivity.
  - apply (return_value_template_follows_own_path_or_falls_back sampleHost
             "{{user.name}}" "user.name" sampleOutput eq_refl eq_refl).
    apply (Misses_later _ _ _ _ JNull); [reflexivity|].
    apply Misses_here. left. reflexivity.
Defined.

(** C7, as the code has it.  A returnValue is resolved only when the whole
    string is two opening braces, a non-empty capture without a closing
    brace, and two closing braces.  The capture is then trimmed of
    surrounding white space and split on dots, and an object-shaped output
    is traversed one segment at a time through nested objects and arrays.
    Any other non-empty string, and any output that is not object-shaped,
    leaves the output as it is: nothing is interpolated. *)
Theorem template_resolved_only_for_whole_string_expression
    (h : Host) (template : string) (output : JsValue) :
  (forall captured,
     matchTemplate template = Some captured <->
     template = "{{" +:+ captured +:+ "}}" /\ captured <> "" /\
     ~ In "}"%char (chars captured)) /\
  (forall captured props,
     matchTemplate template = Some captured -> output = JObject props ->
     processOutput h (Some template) output
       = traverse h output (split "." (trim captured)) output /\
     (forall v,
        Resolves h output (split "." (trim captured)) v ->
        processOutput h (Some template) output = Normal v) /\
     ((forall v, ~ Resolves h output (split "." (trim captured)) v) ->
        processOutput h (Some template) output = Normal output)) /\
  (template <> "" ->
   matchTemplate template = None \/
   ((forall props, output <> JObject props) /\
    (forall proto props, output <> JDerived proto props)) ->
   processOutput h (Some template) output = Normal output).
Proof.
  split; [|split].
  - intros captured. apply matchTemplate_spec.
  - intros captured props Hm ->. split.
    + now apply processOutput_template_object.
    + destruct (template_path_found_or_missing h template captured (JObject props)
                  Hm eq_refl) as [Hfound Hmissing].
      split; assumption.
  - apply processOutput_configured_unresolved.
Qed.

(** The code on two inputs, next to the resolution as stated: the capture
    is trimmed before it is split, and arrays are traversed by index. *)
Example trimmed_capture_and_array_index :
  matchTemplate "{{ a }}" = Some " a " /\
  split "." " a " = [" a "] /\
  processOutput sampleHost (Some "{{ a }}") (JObject [("a", JNumber 1)])
    = Normal (JNumber 1) /\
  statedResolution "{{ a }}" (JObject [("a", JNumber 1)]) = JObject [("a", JNumber 1)] /\
  processOutput sampleHost (Some "{{items.0}}") (JObject [("items", JArray [JNumber 5])])
    = Normal (JNumber 5) /\
  statedResolution "{{items.0}}" (JObject [("items", JArray [JNumber 5])])
    = JObject [("items", JArray [JNumber 5])].
Proof. repeat split; reflexivity. Qed.

(** The post-processing is not the resolution as stated: on the template
    [{{ a }}] and the output [{a: 1}] the code yields [1], where splitting
    the untrimmed capture finds no segment and yields the whole output. *)
Lemma stated_resolution_is_not_what_the_code_computes :
  ~ (forall (h : Host) (template : string) (props : list (string * JsValue)),
       processOutput h (Some template) (JObject props)
       = Normal (statedResolution template (JObject props))).
Proof.
  intros Hall.
  specialize (Hall sampleHost "{{ a }}" [("a", JNumber 1)]).
  vm_compute in Hall. discriminate Hall.
Qed.

End RunOutputModalFacts.

(** ** Properties of the workflow queue *)
Module WorkflowQueueFacts.
Import Js Broker WorkflowQueue.

(** A stand-in for the Step Executor, to evaluate the code on concrete
    inputs: its state counts the runs, and the workflow named [failing]
    reports a failed step. *)
Definition sampleExecutor (workflowId userId : string) (triggerType : TriggerType)
    (triggerData : option JsValue) (runs : nat) : Completion ExecutionResult * nat :=
  (Normal
     (if String.eqb workflowId "failing"
      then {| success := false; output := None;
              error := Some "boom"; errorStep := Some "s1" |}
      else {| success := true; output := Some (JObject [("now", JNumber 5)]);
              error := None; errorStep := None |}),
   S runs).

(** A process without REDIS_URL. *)
Definition bareWorld : World nat :=
  {| REDIS_URL := None; brokerReachable := false; queues := ∅; workers := [];
     executor := 0; invocations := []; logged := [] |}.

(** A process with REDIS_URL set, before [initializeWorkflowQueue] ran. *)
Definition startupWorld (reachable : bool) : World nat :=
  {| REDIS_URL := Some "redis://localhost:6379"; brokerReachable := reachable;
     queues := ∅; workers := []; executor := 0; invocations := []; logged := [] |}.

(** Start-up with concurrency 1 ... *)
Definition startedUp : World nat :=
  snd (initializeWorkflowQueue
         (Some {| optConcurrency := Some 1%Z; optMaxJobsPerMinute := None |})
         (startupWorld true)).

(** ... then a request by alice and one by bob ... *)
Definition oneRequest : World nat :=
  snd (queueWorkflowExecution sampleExecutor "wf-a" "alice" manual None None startedUp).

Definition twoRequests : World nat :=
  snd (queueWorkflowExecution sampleExecutor "wf-b" "bob" manual None None oneRequest).

(** ... and a worker has taken alice's job. *)
Definition oneActive : World nat :=
  match startJob (Some "1") twoRequests with
  | Some (_, w) => w
  | None => twoRequests
  end.

(** Start-up with the default concurrency, a request for a workflow that
    succeeds, a request for the workflow that fails, and a worker that has
    taken the first of the two jobs. *)
Definition besideAnother : World nat :=
  let started := snd (initializeWorkflowQueue None (startupWorld true)) in
  let first := snd (queueWorkflowExecution sampleExecutor "wf-a" "alice" manual None None
                      started) in
  let second := snd (queueWorkflowExecution sampleExecutor "failing" "bob" manual None None
                       first) in
  match startJob (Some "1") second with
  | Some (_, w) => w
  | None => second
  end.

(** The job of the second request. *)
Definition failingJob : Job WorkflowJobData :=
  {| jobId := Some "2"; jobName := "workflow-failing";
     jobData := {| workflowId := "failing"; userId := "bob";
                   triggerType := manual; triggerData := None |};
     jobOptions := {| priority := 5; delay := None |};
     attemptsMade := 0 |}.

Definition directExecution : Enqueued :=
  {| jobIdOf := "direct-execution"; queued := false |}.

(** Reads the fields of an updated world. *)
Ltac world_fields :=
  unfold setWorkflowQueue, setQueues in *;
  cbn [REDIS_URL brokerReachable queues workers executor invocations logged fst snd] in *.

Section WithExecutor.
Variable ExecutorState : Type.
Variable executeWorkflow :
  string -> string -> TriggerType -> option JsValue ->
  ExecutorState -> Completion ExecutionResult * ExecutorState.

(** The bound a worker of concurrency [n] puts on the workflow queue. *)
Definition Bounded (n : Z) (w : World ExecutorState) : Prop :=
  (capacity WORKFLOW_QUEUE_NAME w <= Z.max 0 n)%Z /\
  forall q,
    queues w !! WORKFLOW_QUEUE_NAME = Some q ->
    (Z.of_nat (List.length (active q)) <= Z.max 0 n)%Z.

(** The executor fails on the data of this job, in whatever state it is
    run: it reports a failed run, or rejects. *)
Definition FailsOn (data : WorkflowJobData) : Prop :=
  forall state result,
    fst (executeWorkflow (workflowId data) (userId data) (triggerType data)
           (triggerData data) state) = Normal result ->
    success result = false.

(** Where a queued job sits: ready to run, at a position among the waiting
    jobs, or delayed, at a position among the delayed ones. *)
Inductive Place : Type := Ready (position : nat) | Later (position : nat) (pause : Z).

(** The job after [made] attempts. *)
Definition attempted (job : Job WorkflowJobData) (made : nat) : Job WorkflowJobData :=
  {| jobId := jobId job; jobName := jobName job; jobData := jobData job;
     jobOptions := jobOptions job; attemptsMade := made |}.

(** The queue [rest] and one more job, queued at [place]. *)
Definition hold (rest : Queue WorkflowJobData) (job : Job WorkflowJobData) (place : Place)
  : Queue WorkflowJobData :=
  {| defaultJobOptions := defaultJobOptions rest;
     waiting := match place with
                | Ready position =>
                    take position (waiting rest) ++ job :: drop position (waiting rest)
                | Later _ _ => waiting rest
                end;
     active := active rest; completed := completed rest; failed := failed rest;
     delayed := match place with
                | Ready _ => delayed rest
                | Later position pause =>
                    take position (delayed rest) ++ (job, pause) :: drop position (delayed rest)
                end;
     issued := issued rest |}.

(** The queue [rest] and one more job, failed for good. *)
Definition holdFailed (rest : Queue WorkflowJobData) (job : Job WorkflowJobData)
  : Queue WorkflowJobData :=
  {| defaultJobOptions := defaultJobOptions rest;
     waiting := waiting rest; active := active rest; completed := completed rest;
     failed := failed rest ++ [job]; delayed := delayed rest;
     issued := issued rest |}.

(** No job of [jobs] goes by [id]. *)
Definition Absent (id : option string) (jobs : list (Job WorkflowJobData)) : Prop :=
  forall j, In j jobs -> sameJob id j = false.

(** No job that is waiting, active or delayed in the queue goes by [id]. *)
Definition Clear (id : option string) (rest : Queue WorkflowJobData) : Prop :=
  Absent id (waiting rest) /\ Absent id (active rest) /\ Absent id (map fst (delayed rest)).

(** The workflow queue is [rest] and the job at [place], and a worker is
    free. *)
Definition Held (rest : Queue WorkflowJobData) (job : Job WorkflowJobData) (place : Place)
    (w : World ExecutorState) : Prop :=
  queues w !! WORKFLOW_QUEUE_NAME = Some (hold rest job place) /\
  (Z.of_nat (List.length (active rest)) < capacity WORKFLOW_QUEUE_NAME w)%Z.

(** The ids of the jobs that are waiting, active or delayed. *)
Definition liveIds (q : Queue WorkflowJobData) : list (option string) :=
  map jobId (waiting q ++ active q ++ map fst (delayed q)).

(** The queue as start-up and the broker keep it: with the options given
    at start-up, and every live job under an id of its own, one of those
    handed out so far. *)
Definition WellFormed (q : Queue WorkflowJobData) : Prop :=
  defaultJobOptions q = queueDefaults /\
  List.NoDup (liveIds q) /\
  forall id, In id (liveIds q) -> exists k, id = Some (indexKey k) /\ k <= issued q.

Lemma callExecuteWorkflow_eq (workflowId userId : string) (triggerType : TriggerType)
    (triggerData : option JsValue) (w : World ExecutorState) :
  callExecuteWorkflow ExecutorState executeWorkflow workflowId userId triggerType triggerData w
  = (fst (executeWorkflow workflowId userId triggerType triggerData (executor w)),
     {| REDIS_URL := REDIS_URL w; brokerReachable := brokerReachable w;
        queues := queues w; workers := workers w;
        executor := snd (executeWorkflow workflowId userId triggerType triggerData (executor w));
        invocations := invocations w ++
          [{| workflowId := workflowId; userId := userId;
              triggerType := triggerType; triggerData := triggerData |}];
        logged := logged w |}).
Proof.
  unfold callExecuteWorkflow.
  destruct (executeWorkflow workflowId userId triggerType triggerData (executor w));
    reflexivity.
Qed.

(** Without REDIS_URL the request is the direct call followed by the
    sentinel. *)
Lemma queueWorkflowExecution_direct (workflowId userId : string) (triggerType : TriggerType)
    (triggerData : option JsValue) (options : option EnqueueOptions) (w : World ExecutorState) :
  isSet (REDIS_URL w) = false ->
  queueWorkflowExecution executeWorkflow workflowId userId triggerType triggerData options w
  = (match fst (executeWorkflow workflowId userId triggerType triggerData (executor w)) with
     | Normal _ => Normal directExecution
     | Throw e => Throw e
     end,
     {| REDIS_URL := REDIS_URL w; brokerReachable := brokerReachable w;
        queues := queues w; workers := workers w;
        executor := snd (executeWorkflow workflowId userId triggerType triggerData (executor w));
        invocations := invocations w ++
          [{| workflowId := workflowId; userId := userId;
              triggerType := triggerType; triggerData := triggerData |}];
        logged := logged w ++
          [(info, "No Redis - executing workflow directly (not queued)")] |}).
Proof.
  intros Hunset. unfold queueWorkflowExecution. rewrite Hunset. cbn [negb].
  unfold bind at 1. cbn [log]. unfold bind at 1.
  rewrite callExecuteWorkflow_eq. cbn.
  destruct (fst (executeWorkflow workflowId userId triggerType triggerData (executor w)));
    reflexivity.
Qed.

(** With REDIS_URL set and no queue registered the request throws and
    changes nothing. *)
Lemma queueWorkflowExecution_uninitialized (workflowId userId : string)
    (triggerType : TriggerType) (triggerData : option JsValue)
    (options : option EnqueueOptions) (w : World ExecutorState) :
  isSet (REDIS_URL w) = true ->
  queues w !! WORKFLOW_QUEUE_NAME = None ->
  queueWorkflowExecution executeWorkflow workflowId userId triggerType triggerData options w
  = (Throw (Error "Workflow queue not initialized. Call initializeWorkflowQueue() first."), w).
Proof.
  intros Hset Hnone. unfold queueWorkflowExecution. rewrite Hset, Hnone. reflexivity.
Qed.

(** C1.  With REDIS_URL unset, a request runs the Step Executor in the
    calling process, once, on the workflowId, userId, triggerType and
    triggerData it was given: the executor ends in the state a direct call
    leaves it in, the queue and the workers are untouched, and whatever
    result the executor resolves to, the request resolves to queued=false
    with the job id [direct-execution] (a rejection of the executor is
    passed on). *)
Theorem direct_execution_when_redis_url_unset
    (workflowId userId : string) (triggerType : TriggerType)
    (triggerData : option JsValue) (options : option EnqueueOptions) (w : World ExecutorState) :
  isSet (REDIS_URL w) = false ->
  executor (snd (queueWorkflowExecution executeWorkflow workflowId userId triggerType
                   triggerData options w))
    = snd (executeWorkflow workflowId userId triggerType triggerData (executor w)) /\
  invocations (snd (queueWorkflowExecution executeWorkflow workflowId userId triggerType
                      triggerData options w))
    = (invocations w ++ [{| workflowId := workflowId; userId := userId;
                            triggerType := triggerType; triggerData := triggerData |}])%list /\
  queues (snd (queueWorkflowExecution executeWorkflow workflowId userId triggerType
                 triggerData options w)) = queues w /\
  workers (snd (queueWorkflowExecution executeWorkflow workflowId userId triggerType
                  triggerData options w)) = workers w /\
  fst (queueWorkflowExecution executeWorkflow workflowId userId triggerType
         triggerData options w)
    = match fst (executeWorkflow workflowId userId triggerType triggerData (executor w)) with
      | Normal _ => Normal {| jobIdOf := "direct-execution"; queued := false |}
      | Throw e => Throw e
      end.
Proof.
  intros Hunset.
  rewrite (queueWorkflowExecution_direct workflowId userId triggerType triggerData
             options w Hunset).
  repeat split; reflexivity.
Qed.

(** The processor is the executor's run on the job's data, with a failed
    run turned into an error. *)
Lemma workflowProcessor_eq (job : Job WorkflowJobData) (w : World ExecutorState) :
  workflowProcessor executeWorkflow job w
  = (match fst (executeWorkflow (workflowId (jobData job)) (userId (jobData job))
                  (triggerType (jobData job)) (triggerData (jobData job)) (executor w)) with
     | Normal result =>
         if success result then Normal result else Throw (Error (failureMessage result))
     | Throw e => Throw e
     end,
     {| REDIS_URL := REDIS_URL w; brokerReachable := brokerReachable w;
        queues := queues w; workers := workers w;
        executor := snd (executeWorkflow (workflowId (jobData job)) (userId (jobData job))
                           (triggerType (jobData job)) (triggerData (jobData job))
                           (executor w));
        invocations := invocations w ++ [jobData job];
        logged := logged w ++ [(info, "Executing workflow from queue")] |}).
Proof.
  unfold workflowProcessor. unfold bind at 1. cbn [log]. unfold bind at 1.
  rewrite callExecuteWorkflow_eq. cbn [executor invocations fst snd].
  destruct (jobData job) as [wid uid tt td]. cbn [workflowId userId triggerType triggerData].
  destruct (fst (executeWorkflow wid uid tt td (executor w))) as [result|e]; [|reflexivity].
  destruct (success result); reflexivity.
Qed.

(** C3, as the code has it.  When the queue is unavailable because
    REDIS_URL is unset, a request falls back to the direct run and resolves
    to queued=false whatever result the run reports; when it is unavailable
    although REDIS_URL is set (the queue was never registered), the request
    throws "Workflow queue not initialized" and runs nothing. *)
Theorem unavailable_queue_falls_back_only_without_redis_url
    (workflowId userId : string) (triggerType : TriggerType)
    (triggerData : option JsValue) (options : option EnqueueOptions)
    (w : World ExecutorState) :
  isWorkflowQueueAvailable w = false ->
  (isSet (REDIS_URL w) = false ->
   fst (queueWorkflowExecution executeWorkflow workflowId userId triggerType
          triggerData options w)
     = match fst (executeWorkflow workflowId userId triggerType triggerData (executor w)) with
       | Normal _ => Normal {| jobIdOf := "direct-execution"; queued := false |}
       | Throw e => Throw e
       end /\
   executor (snd (queueWorkflowExecution executeWorkflow workflowId userId triggerType
                    triggerData options w))
     = snd (executeWorkflow workflowId userId triggerType triggerData (executor w))) /\
  (isSet (REDIS_URL w) = true ->
   queueWorkflowExecution executeWorkflow workflowId userId triggerType triggerData options w
     = (Throw (Error "Workflow queue not initialized. Call initializeWorkflowQueue() first."),
        w)).
Proof.
  intros Hunavailable. split.
  - intros Hunset.
    rewrite (queueWorkflowExecution_direct workflowId userId triggerType triggerData
               options w Hunset).
    split; reflexivity.
  - intros Hset. apply queueWorkflowExecution_uninitialized; [exact Hset|].
    unfold isWorkflowQueueAvailable in Hunavailable. rewrite Hset in Hunavailable.
    destruct (queues w !! WORKFLOW_QUEUE_NAME); [discriminate | reflexivity].
Qed.

(** C9.  Each time the worker's processor is called on a job it runs the
    Step Executor once on the job's workflowId, userId, triggerType and
    triggerData and on nothing else of the job, so a retry is the same call
    again; a run that reports success=false makes the processor throw, and
    the broker then takes the job out of the active ones and queues it
    again, with one more attempt made, or fails it for good. *)
Theorem every_attempt_runs_the_whole_workflow
    (job : Job WorkflowJobData) (w : World ExecutorState) :
  executor (snd (workflowProcessor executeWorkflow job w))
    = snd (executeWorkflow (workflowId (jobData job)) (userId (jobData job))
             (triggerType (jobData job)) (triggerData (jobData job)) (executor w)) /\
  invocations (snd (workflowProcessor executeWorkflow job w))
    = (invocations w ++ [jobData job])%list /\
  (forall result,
     fst (executeWorkflow (workflowId (jobData job)) (userId (jobData job))
            (triggerType (jobData job)) (triggerData (jobData job)) (executor w))
       = Normal result ->
     fst (workflowProcessor executeWorkflow job w)
       = if success result then Normal result
         else Throw (Error (failureMessage result))) /\
  (forall retried,
     jobData retried = jobData job ->
     workflowProcessor executeWorkflow retried w = workflowProcessor executeWorkflow job w) /\
  (forall id q others result,
     queues w !! WORKFLOW_QUEUE_NAME = Some q ->
     takeJob id (active q) = Some (job, others) ->
     fst (executeWorkflow (workflowId (jobData job)) (userId (jobData job))
            (triggerType (jobData job)) (triggerData (jobData job)) (executor w))
       = Normal result ->
     success result = false ->
     exists settlement w' q',
       runJob executeWorkflow id w = Some (settlement, w') /\
       invocations w' = (invocations w ++ [jobData job])%list /\
       queues w' !! WORKFLOW_QUEUE_NAME = Some q' /\
       active q' = others /\
       ((exists pause,
           settlement = Retried pause /\
           delayed q' = (delayed q ++
                         [({| jobId := jobId job; jobName := jobName job;
                              jobData := jobData job; jobOptions := jobOptions job;
                              attemptsMade := S (attemptsMade job) |}, pause)])%list) \/
        (settlement = FailedForGood /\
         failed q' = (failed q ++
                      [{| jobId := jobId job; jobName := jobName job;
                          jobData := jobData job; jobOptions := jobOptions job;
                          attemptsMade := S (attemptsMade job) |}])%list))).
Proof.
  split; [|split; [|split; [|split]]].
  - rewrite workflowProcessor_eq. reflexivity.
  - rewrite workflowProcessor_eq. reflexivity.
  - intros result Hrun. rewrite workflowProcessor_eq. cbn [fst]. rewrite Hrun. reflexivity.
  - intros retried Hdata. rewrite !workflowProcessor_eq, Hdata. reflexivity.
  - intros id q others result Hq Htake Hrun Hfailed.
    unfold runJob. rewrite Hq, Htake, workflowProcessor_eq, Hrun, Hfailed.
    cbn [queues]. rewrite Hq. unfold settle. rewrite Htake.
    destruct (Nat.ltb (attemptsMade job) (attempts (defaultJobOptions q))).
    + do 3 eexists. split; [reflexivity|]. split; [reflexivity|].
      unfold setWorkflowQueue, setQueues. cbn [queues]. rewrite lookup_insert_eq.
      split; [reflexivity|]. split; [reflexivity|]. left. eexists. split; reflexivity.
    + do 3 eexists. split; [reflexivity|]. split; [reflexivity|].
      unfold setWorkflowQueue, setQueues. cbn [queues]. rewrite lookup_insert_eq.
      split; [reflexivity|]. split; [reflexivity|]. right. split; reflexivity.
Qed.

(** C10.  The statistics are null exactly when no workflow queue is
    registered; otherwise they are the five counts of the queue, and total
    is waiting + active + delayed, without completed and failed. *)
Theorem stats_null_or_counts_with_pending_total (w : World ExecutorState) :
  (queues w !! WORKFLOW_QUEUE_NAME = None <->
   fst (getWorkflowQueueStats w) = Normal None) /\
  (forall q,
     queues w !! WORKFLOW_QUEUE_NAME = Some q ->
     getWorkflowQueueStats w
     = (Normal (Some {| statWaiting := List.length (waiting q);
                        statActive := List.length (active q);
                        statCompleted := List.length (completed q);
                        statFailed := List.length (failed q);
                        statDelayed := List.length (delayed q);
                        statTotal := List.length (waiting q) + List.length (active q)
                                     + List.length (delayed q) |}), w)) /\
  (forall stats,
     fst (getWorkflowQueueStats w) = Normal (Some stats) ->
     statTotal stats = statWaiting stats + statActive stats + statDelayed stats).
Proof.
  unfold getWorkflowQueueStats.
  destruct (queues w !! WORKFLOW_QUEUE_NAME) as [q|]; cbn [ret fst].
  - split; [split; discriminate|]. split.
    + intros q' Hq. injection Hq as <-. reflexivity.
    + intros stats Hstats. injection Hstats as <-. reflexivity.
  - split; [split; reflexivity|]. split; intros ? H; discriminate H.
Qed.

(** *** The concurrency bound *)

Lemma takeJob_length {T : Type} (id : option string) (jobs others : list (Job T)) (job : Job T) :
  takeJob id jobs = Some (job, others) -> List.length jobs = S (List.length others).
Proof.
  revert others. induction jobs as [|j rest IH]; intros others; simpl; [discriminate|].
  destruct (sameJob id j).
  - intros H. injection H as _ <-. reflexivity.
  - destruct (takeJob id rest) as [[found kept]|]; [|discriminate].
    intros H. injection H as -> <-. simpl. f_equal. now apply IH.
Qed.

(** With REDIS_URL set and the queue registered, a request adds a job to
    the workflow queue. *)
Lemma queueWorkflowExecution_queued (workflowId userId : string) (triggerType : TriggerType)
    (triggerData : option JsValue) (options : option EnqueueOptions)
    (w : World ExecutorState) (q : Queue WorkflowJobData) :
  isSet (REDIS_URL w) = true ->
  queues w !! WORKFLOW_QUEUE_NAME = Some q ->
  exists job q',
    addToQueue ("workflow-" +:+ workflowId)
      {| workflowId := workflowId; userId := userId;
         triggerType := triggerType; triggerData := triggerData |}
      {| priority := orDefault (match options with
                                | Some o => optPriority o
                                | None => None
                                end) 5;
         delay := match options with
                  | Some o => optDelay o
                  | None => None
                  end |} q = (job, q') /\
    queueWorkflowExecution executeWorkflow workflowId userId triggerType triggerData options w
    = (Normal {| jobIdOf := if isSet (jobId job) then interpolate (jobId job) else "unknown";
                 queued := true |},
       {| REDIS_URL := REDIS_URL w; brokerReachable := brokerReachable w;
          queues := <[WORKFLOW_QUEUE_NAME := q']> (queues w); workers := workers w;
          executor := executor w; invocations := invocations w;
          logged := logged w ++ [(info, "Workflow queued for execution")] |}).
Proof.
  intros Hset Hq. unfold queueWorkflowExecution. rewrite Hset, Hq. cbn [negb].
  unfold bind at 1. unfold addJob. rewrite Hq.
  destruct (addToQueue _ _ _ q) as [job q'] eqn:Hadd.
  exists job, q'. split; [reflexivity|]. reflexivity.
Qed.

Lemma Bounded_after_initialize (options : option InitOptions) (w0 : World ExecutorState) :
  workers w0 = [] ->
  queues w0 !! WORKFLOW_QUEUE_NAME = None ->
  Bounded (orDefault (match options with
                      | Some o => optConcurrency o
                      | None => None
                      end) 10)
          (snd (initializeWorkflowQueue options w0)).
Proof.
  intros Hworkers Hqueue. unfold initializeWorkflowQueue.
  assert (Hidle : forall (ws : list (string * WorkerOptions)) n,
             ws = [] \/ ws = [(WORKFLOW_QUEUE_NAME,
                                {| concurrency := n; limiterMax :=
                                     orDefault (match options with
                                                | Some o => optMaxJobsPerMinute o
                                                | None => None
                                                end) 100;
                                   limiterDuration := 60000 |})] ->
             (fold_right Z.add 0
                (map (fun nw => concurrency (snd nw))
                   (List.filter (fun nw => String.eqb (fst nw) WORKFLOW_QUEUE_NAME) ws))
              <= Z.max 0 n)%Z).
  { intros ws n [->| ->]; cbn; lia. }
  destruct (isSet (REDIS_URL w0)); cbn [negb].
  - unfold tryCatch, bind, createQueue, createWorker.
    destruct (brokerReachable w0) eqn:Hreach; world_fields.
    + rewrite Hreach. unfold ret. world_fields. split.
      * unfold capacity. world_fields. rewrite Hworkers. apply Hidle. now right.
      * intros q. world_fields. rewrite lookup_insert_eq, Hqueue.
        intros Hq. injection Hq as <-. cbn. lia.
    + unfold log, ret. world_fields. split.
      * unfold capacity. world_fields. rewrite Hworkers. apply Hidle. now left.
      * intros q. world_fields. rewrite Hqueue. discriminate.
  - unfold bind, log, ret. world_fields. split.
    + unfold capacity. world_fields. rewrite Hworkers. apply Hidle. now left.
    + intros q. world_fields. rewrite Hqueue. discriminate.
Qed.

Lemma Bounded_step (n : Z) (w w' : World ExecutorState) :
  Step executeWorkflow w w' -> Bounded n w -> Bounded n w'.
Proof.
  intros Hstep [Hcap Hactive].
  destruct Hstep as [wid uid tt td options w outcome w' Hrun
                    |id w w' Hpromote
                    |id w job w' Hstart
                    |id w settlement w' Hrun].
  - destruct (isSet (REDIS_URL w)) eqn:Hset.
    + destruct (queues w !! WORKFLOW_QUEUE_NAME) as [q|] eqn:Hq.
      * destruct (queueWorkflowExecution_queued wid uid tt td options w q Hset Hq)
          as [job [q' [Hadd Heq]]].
        rewrite Heq in Hrun. injection Hrun as _ <-. split; [exact Hcap|].
        intros q''. cbn [queues]. rewrite lookup_insert_eq. intros H. injection H as <-.
        unfold addToQueue in Hadd. injection Hadd as _ <-. cbn [active].
        now apply Hactive.
      * rewrite (queueWorkflowExecution_uninitialized wid uid tt td options w Hset Hq)
          in Hrun.
        injection Hrun as _ <-. split; [exact Hcap|]. intros q. rewrite Hq. discriminate.
    + rewrite (queueWorkflowExecution_direct wid uid tt td options w Hset) in Hrun.
      injection Hrun as _ <-. split; [exact Hcap|]. exact Hactive.
  - unfold promoteJob in Hpromote.
    destruct (queues w !! WORKFLOW_QUEUE_NAME) as [q|] eqn:Hq; [|discriminate].
    unfold promote in Hpromote.
    destruct (takeDelayed id (delayed q)) as [[job others]|]; [|discriminate].
    injection Hpromote as <-. split; [exact Hcap|].
    intros q'. unfold setWorkflowQueue, setQueues. cbn [queues].
    rewrite lookup_insert_eq. intros H. injection H as <-. cbn [active].
    now apply Hactive.
  - unfold startJob in Hstart.
    destruct (queues w !! WORKFLOW_QUEUE_NAME) as [q|] eqn:Hq; [|discriminate].
    unfold start in Hstart.
    destruct (Z.ltb_spec (Z.of_nat (List.length (active q)))
                (capacity WORKFLOW_QUEUE_NAME w)) as [Hfree|Hfull]; [|discriminate].
    destruct (takeJob id (waiting q)) as [[taken others]|]; [|discriminate].
    injection Hstart as _ <-. split; [exact Hcap|].
    intros q'. unfold setWorkflowQueue, setQueues. cbn [queues].
    rewrite lookup_insert_eq. intros H. injection H as <-. cbn [active].
    rewrite length_app. cbn [List.length]. lia.
  - unfold runJob in Hrun.
    destruct (queues w !! WORKFLOW_QUEUE_NAME) as [q|] eqn:Hq; [|discriminate].
    destruct (takeJob id (active q)) as [[job others]|] eqn:Htake; [|discriminate].
    rewrite workflowProcessor_eq in Hrun. cbn [queues] in Hrun. rewrite Hq in Hrun.
    unfold settle in Hrun. rewrite Htake in Hrun.
    apply takeJob_length in Htake. specialize (Hactive q eq_refl).
    match type of Hrun with
    | context [if ?b then _ else _] => destruct b
    end;
      [|destruct (Nat.ltb (attemptsMade job) (attempts (defaultJobOptions q)))];
      injection Hrun as _ <-; (split; [exact Hcap|]);
      intros q'; unfold setWorkflowQueue, setQueues; cbn [queues];
      rewrite lookup_insert_eq; intros H; injection H as <-; cbn [active]; lia.
Qed.

Lemma Bounded_steps (n : Z) (w w' : World ExecutorState) :
  rtc (Step executeWorkflow) w w' -> Bounded n w -> Bounded n w'.
Proof.
  induction 1 as [|w w1 w2 Hstep _ IH]; [trivial|].
  intros Hb. apply IH. eapply Bounded_step; eauto.
Qed.

(** C4.  After [initializeWorkflowQueue] with concurrency N (10 when none
    is given), however many runs are requested and by whomever, the
    workflow queue never has more than N active jobs; while N are active no
    worker takes another job, whoever it belongs to. *)
Theorem active_jobs_never_exceed_concurrency
    (options : option InitOptions) (w0 w : World ExecutorState)
    (q : Queue WorkflowJobData) :
  workers w0 = [] ->
  queues w0 !! WORKFLOW_QUEUE_NAME = None ->
  (0 <= orDefault (match options with
                   | Some o => optConcurrency o
                   | None => None
                   end) 10)%Z ->
  rtc (Step executeWorkflow) (snd (initializeWorkflowQueue options w0)) w ->
  queues w !! WORKFLOW_QUEUE_NAME = Some q ->
  (Z.of_nat (List.length (active q))
   <= orDefault (match options with
                 | Some o => optConcurrency o
                 | None => None
                 end) 10)%Z /\
  ((orDefault (match options with
               | Some o => optConcurrency o
               | None => None
               end) 10 <= Z.of_nat (List.length (active q)))%Z ->
   forall id, startJob id w = None) /\
  orDefault None 10 = 10%Z.
Proof.
  intros Hworkers Hqueue Hn Hsteps Hq.
  pose proof (Bounded_steps _ _ _ Hsteps
                (Bounded_after_initialize options w0 Hworkers Hqueue)) as [Hcap Hactive].
  split; [|split; [|reflexivity]].
  - specialize (Hactive q Hq). lia.
  - intros Hfull id. unfold startJob. rewrite Hq. unfold start.
    destruct (Z.ltb_spec (Z.of_nat (List.length (active q)))
                (capacity WORKFLOW_QUEUE_NAME w)) as [Hfree|_]; [lia | reflexivity].
Qed.

(** *** Retries *)

(** When the run fails, the job is settled as failed. *)
Lemma runJob_failing (id : option string) (w : World ExecutorState)
    (q : Queue WorkflowJobData) (job : Job WorkflowJobData)
    (others : list (Job WorkflowJobData)) :
  FailsOn (jobData job) ->
  queues w !! WORKFLOW_QUEUE_NAME = Some q ->
  takeJob id (active q) = Some (job, others) ->
  runJob executeWorkflow id w
  = match settle false id q with
    | Some (settlement, q') =>
        Some (settlement, setWorkflowQueue q' (snd (workflowProcessor executeWorkflow job w)))
    | None => None
    end.
Proof.
  intros Hfail Hq Htake. unfold runJob. rewrite Hq, Htake, workflowProcessor_eq.
  cbn [queues snd]. rewrite Hq.
  destruct (fst (executeWorkflow _ _ _ _ (executor w))) as [result|e] eqn:Hrun.
  - rewrite (Hfail _ _ Hrun). reflexivity.
  - reflexivity.
Qed.

Lemma takeJob_absent (id : option string) (jobs : list (Job WorkflowJobData)) :
  Absent id jobs -> takeJob id jobs = None.
Proof.
  induction jobs as [|j rest IH]; intros Habsent; [reflexivity|]. cbn [takeJob].
  rewrite (Habsent j (or_introl eq_refl)), IH; [reflexivity|].
  intros j' Hin. apply Habsent. now right.
Qed.

Lemma takeJob_found (id : option string) (before after : list (Job WorkflowJobData))
    (job : Job WorkflowJobData) :
  Absent id before ->
  sameJob id job = true ->
  takeJob id (before ++ job :: after) = Some (job, (before ++ after)%list).
Proof.
  intros Habsent Hsame. induction before as [|j rest IH]; cbn [takeJob app].
  - now rewrite Hsame.
  - rewrite (Habsent j (or_introl eq_refl)), IH; [reflexivity|].
    intros j' Hin. apply Habsent. now right.
Qed.

Lemma takeDelayed_absent (id : option string) (jobs : list (Job WorkflowJobData * Z)) :
  Absent id (map fst jobs) -> takeDelayed id jobs = None.
Proof.
  induction jobs as [|[j d] rest IH]; intros Habsent; [reflexivity|]. cbn [takeDelayed].
  rewrite (Habsent j (or_introl eq_refl)), IH; [reflexivity|].
  intros j' Hin. apply Habsent. now right.
Qed.

Lemma takeDelayed_found (id : option string) (before after : list (Job WorkflowJobData * Z))
    (job : Job WorkflowJobData) (pause : Z) :
  Absent id (map fst before) ->
  sameJob id job = true ->
  takeDelayed id (before ++ (job, pause) :: after) = Some (job, (before ++ after)%list).
Proof.
  intros Habsent Hsame. induction before as [|[j d] rest IH]; cbn [takeDelayed app].
  - now rewrite Hsame.
  - rewrite (Habsent j (or_introl eq_refl)), IH; [reflexivity|].
    intros j' Hin. apply Habsent. now right.
Qed.

Lemma Absent_take (id : option string) (jobs : list (Job WorkflowJobData)) (n : nat) :
  Absent id jobs -> Absent id (take n jobs).
Proof.
  intros Habsent j Hin. apply Habsent. rewrite <- (take_drop n jobs).
  apply in_or_app. now left.
Qed.

Lemma Absent_take_delayed (id : option string) (jobs : list (Job WorkflowJobData * Z))
    (n : nat) :
  Absent id (map fst jobs) -> Absent id (map fst (take n jobs)).
Proof.
  intros Habsent j Hin. apply Habsent. rewrite <- (take_drop n jobs), map_app.
  apply in_or_app. now left.
Qed.

Lemma hold_ready_last (rest : Queue WorkflowJobData) (job : Job WorkflowJobData) :
  hold rest job (Ready (List.length (waiting rest)))
  = {| defaultJobOptions := defaultJobOptions rest;
       waiting := waiting rest ++ [job];
       active := active rest; completed := completed rest; failed := failed rest;
       delayed := delayed rest; issued := issued rest |}.
Proof. unfold hold. now rewrite firstn_all, skipn_all. Qed.

Lemma hold_later_last (rest : Queue WorkflowJobData) (job : Job WorkflowJobData)
    (pause : Z) :
  hold rest job (Later (List.length (delayed rest)) pause)
  = {| defaultJobOptions := defaultJobOptions rest;
       waiting := waiting rest;
       active := active rest; completed := completed rest; failed := failed rest;
       delayed := delayed rest ++ [(job, pause)]; issued := issued rest |}.
Proof. unfold hold. now rewrite firstn_all, skipn_all. Qed.

(** A delayed job runs as if it were ready: it is first moved to the end of
    the waiting jobs. *)
Lemma lifeCycle_of_delayed (rest : Queue WorkflowJobData) (job : Job WorkflowJobData)
    (position : nat) (pause : Z) (w : World ExecutorState) :
  Clear (jobId job) rest ->
  sameJob (jobId job) job = true ->
  Held rest job (Later position pause) w ->
  Held rest job (Ready (List.length (waiting rest)))
       (setWorkflowQueue (hold rest job (Ready (List.length (waiting rest)))) w) /\
  forall fuel,
    lifeCycle executeWorkflow (S fuel) (jobId job) w
    = lifeCycle executeWorkflow (S fuel) (jobId job)
        (setWorkflowQueue (hold rest job (Ready (List.length (waiting rest)))) w).
Proof.
  intros (Hwaiting & Hactive & Hdelayed) Hsame [Hq Hcap]. split.
  - split; [|exact Hcap]. world_fields. apply lookup_insert_eq.
  - intros fuel. cbn [lifeCycle].
    assert (Hp : promoteJob (jobId job) w
                 = Some (setWorkflowQueue
                           (hold rest job (Ready (List.length (waiting rest)))) w)).
    { unfold promoteJob. rewrite Hq. unfold promote. cbn [hold delayed].
      rewrite (takeDelayed_found (jobId job) _ _ job pause
                 (Absent_take_delayed _ _ position Hdelayed) Hsame).
      rewrite take_drop, hold_ready_last. reflexivity. }
    assert (Hp' : promoteJob (jobId job)
                    (setWorkflowQueue
                       (hold rest job (Ready (List.length (waiting rest)))) w)
                  = None).
    { unfold promoteJob. world_fields. rewrite lookup_insert_eq. unfold promote.
      cbn [hold delayed]. now rewrite (takeDelayed_absent _ _ Hdelayed). }
    rewrite Hp, Hp'. reflexivity.
Qed.

(** One failed attempt of a job that is ready. *)
Lemma attempt_of_ready (rest : Queue WorkflowJobData) (job : Job WorkflowJobData)
    (made position : nat) (w : World ExecutorState) :
  FailsOn (jobData job) ->
  defaultJobOptions rest = queueDefaults ->
  Clear (jobId job) rest ->
  sameJob (jobId job) job = true ->
  Held rest (attempted job made) (Ready position) w ->
  exists w',
    invocations w' = (invocations w ++ [jobData job])%list /\
    if Nat.ltb made 3
    then
      Held rest (attempted job (S made))
           (Later (List.length (delayed rest)) (10000 * 2 ^ Z.of_nat made)) w' /\
      forall fuel,
        lifeCycle executeWorkflow (S fuel) (jobId job) w
        = (BecameActive :: AttemptFailed :: Requeued (10000 * 2 ^ Z.of_nat made)
             :: fst (lifeCycle executeWorkflow fuel (jobId job) w'),
           snd (lifeCycle executeWorkflow fuel (jobId job) w'))
    else
      queues w' !! WORKFLOW_QUEUE_NAME
        = Some (holdFailed rest (attempted job (S made))) /\
      forall fuel,
        lifeCycle executeWorkflow (S fuel) (jobId job) w
        = ([BecameActive; AttemptFailed; FailedTerminally], w').
Proof.
  intros Hfail Hdefaults (Hwaiting & Hactive & Hdelayed) Hsame [Hq Hcap].
  set (current := attempted job made).
  set (running := {| defaultJobOptions := defaultJobOptions rest;
                     waiting := waiting rest; active := active rest ++ [current];
                     completed := completed rest; failed := failed rest;
                     delayed := delayed rest; issued := issued rest |}).
  assert (Hcurrent : sameJob (jobId job) current = true) by exact Hsame.
  assert (Hp : promoteJob (jobId job) w = None).
  { unfold promoteJob. rewrite Hq. unfold promote. cbn [hold delayed].
    now rewrite (takeDelayed_absent _ _ Hdelayed). }
  assert (Hs : startJob (jobId job) w = Some (current, setWorkflowQueue running w)).
  { unfold startJob. rewrite Hq. unfold start. cbn [hold active waiting].
    rewrite (proj2 (Z.ltb_lt _ _) Hcap).
    rewrite (takeJob_found (jobId job) _ _ current (Absent_take _ _ position Hwaiting)
               Hcurrent).
    cbn [hold defaultJobOptions completed failed delayed issued].
    rewrite take_drop. reflexivity. }
  assert (Htake : takeJob (jobId job) (active running) = Some (current, active rest)).
  { cbn [active running].
    rewrite (takeJob_found (jobId job) (active rest) [] current Hactive Hcurrent).
    now rewrite app_nil_r. }
  assert (Hr : runJob executeWorkflow (jobId job) (setWorkflowQueue running w)
               = match settle false (jobId job) running with
                 | Some (settlement, q') =>
                     Some (settlement,
                           setWorkflowQueue q'
                             (snd (workflowProcessor executeWorkflow current
                                     (setWorkflowQueue running w))))
                 | None => None
                 end).
  { apply (runJob_failing _ _ running current (active rest)); [exact Hfail| |exact Htake].
    world_fields. apply lookup_insert_eq. }
  unfold settle in Hr. rewrite Htake in Hr.
  cbn [defaultJobOptions running attemptsMade current attempted jobId jobName jobData
       jobOptions waiting completed failed delayed issued] in Hr.
  rewrite Hdefaults in Hr.
  cbn [attempts queueDefaults backoff backoffFor backoffType backoffDelay] in Hr.
  rewrite <- Hdefaults in Hr.
  destruct (Nat.ltb made 3) eqn:Hmade.
  - exists (setWorkflowQueue
              (hold rest (attempted job (S made))
                 (Later (List.length (delayed rest)) (10000 * 2 ^ Z.of_nat made)))
              (snd (workflowProcessor executeWorkflow current (setWorkflowQueue running w)))).
    split; [|split; [split|]].
    + rewrite workflowProcessor_eq. world_fields. reflexivity.
    + world_fields. apply lookup_insert_eq.
    + rewrite workflowProcessor_eq. unfold capacity in *. world_fields. exact Hcap.
    + intros fuel. cbn [lifeCycle]. rewrite Hp, Hs, Hr, hold_later_last.
      unfold attempted.
      destruct (lifeCycle executeWorkflow fuel (jobId job) _); reflexivity.
  - exists (setWorkflowQueue
              (holdFailed rest (attempted job (S made)))
              (snd (workflowProcessor executeWorkflow current (setWorkflowQueue running w)))).
    split; [|split].
    + rewrite workflowProcessor_eq. world_fields. reflexivity.
    + world_fields. apply lookup_insert_eq.
    + intros fuel. cbn [lifeCycle]. rewrite Hp, Hs, Hr. reflexivity.
Qed.

(** One failed attempt of a queued job, wherever it sits. *)
Lemma attempt_of_queued (rest : Queue WorkflowJobData) (job : Job WorkflowJobData)
    (made : nat) (place : Place) (w : World ExecutorState) :
  FailsOn (jobData job) ->
  defaultJobOptions rest = queueDefaults ->
  Clear (jobId job) rest ->
  sameJob (jobId job) job = true ->
  Held rest (attempted job made) place w ->
  exists w',
    invocations w' = (invocations w ++ [jobData job])%list /\
    if Nat.ltb made 3
    then
      Held rest (attempted job (S made))
           (Later (List.length (delayed rest)) (10000 * 2 ^ Z.of_nat made)) w' /\
      forall fuel,
        lifeCycle executeWorkflow (S fuel) (jobId job) w
        = (BecameActive :: AttemptFailed :: Requeued (10000 * 2 ^ Z.of_nat made)
             :: fst (lifeCycle executeWorkflow fuel (jobId job) w'),
           snd (lifeCycle executeWorkflow fuel (jobId job) w'))
    else
      queues w' !! WORKFLOW_QUEUE_NAME
        = Some (holdFailed rest (attempted job (S made))) /\
      forall fuel,
        lifeCycle executeWorkflow (S fuel) (jobId job) w
        = ([BecameActive; AttemptFailed; FailedTerminally], w').
Proof.
  intros Hfail Hdefaults Hclear Hsame Hheld. destruct place as [position|position pause].
  - now apply (attempt_of_ready rest job made position).
  - destruct (lifeCycle_of_delayed rest (attempted job made) position pause w
                Hclear Hsame Hheld) as [Hready Hlife].
    destruct (attempt_of_ready rest job made _ _ Hfail Hdefaults Hclear Hsame Hready)
      as [w' [Hinv Hrest]].
    exists w'. split; [exact Hinv|].
    destruct (Nat.ltb made 3); destruct Hrest as [Hnext Hafter];
      (split; [exact Hnext|]); intros fuel;
      change (jobId job) with (jobId (attempted job made)); rewrite Hlife; apply Hafter.
Qed.

(** The four attempts of a job that always fails. *)
Lemma four_attempts_of_queued (rest : Queue WorkflowJobData) (job : Job WorkflowJobData)
    (place : Place) (w : World ExecutorState) :
  FailsOn (jobData job) ->
  defaultJobOptions rest = queueDefaults ->
  Clear (jobId job) rest ->
  sameJob (jobId job) job = true ->
  Held rest (attempted job 0) place w ->
  forall fuel,
    4 <= fuel ->
    fst (lifeCycle executeWorkflow fuel (jobId job) w)
    = [BecameActive; AttemptFailed; Requeued 10000;
       BecameActive; AttemptFailed; Requeued 20000;
       BecameActive; AttemptFailed; Requeued 40000;
       BecameActive; AttemptFailed; FailedTerminally] /\
    queues (snd (lifeCycle executeWorkflow fuel (jobId job) w)) !! WORKFLOW_QUEUE_NAME
    = Some (holdFailed rest (attempted job 4)) /\
    invocations (snd (lifeCycle executeWorkflow fuel (jobId job) w))
    = (invocations w ++ repeat (jobData job) 4)%list.
Proof.
  intros Hfail Hdefaults Hclear Hsame Hheld0 fuel Hfuel.
  destruct fuel as [|[|[|[|fuel]]]]; try lia.
  destruct (attempt_of_queued rest job 0 _ _ Hfail Hdefaults Hclear Hsame Hheld0)
    as [w1 [Hinv1 [Hheld1 Hlife1]]].
  destruct (attempt_of_queued rest job 1 _ _ Hfail Hdefaults Hclear Hsame Hheld1)
    as [w2 [Hinv2 [Hheld2 Hlife2]]].
  destruct (attempt_of_queued rest job 2 _ _ Hfail Hdefaults Hclear Hsame Hheld2)
    as [w3 [Hinv3 [Hheld3 Hlife3]]].
  destruct (attempt_of_queued rest job 3 _ _ Hfail Hdefaults Hclear Hsame Hheld3)
    as [w4 [Hinv4 [Hdone Hlife4]]].
  rewrite Hlife1, Hlife2, Hlife3, Hlife4. cbn [fst snd].
  split; [reflexivity|]. split; [exact Hdone|].
  rewrite Hinv4, Hinv3, Hinv2, Hinv1. cbn [repeat].
  rewrite <- !app_assoc. reflexivity.
Qed.

(** *** The jobs of a queue have ids of their own *)

Lemma indexKey_inj (a b : nat) : indexKey a = indexKey b -> a = b.
Proof.
  unfold indexKey. intros Hsame. apply DecimalNat.Unsigned.to_uint_inj.
  assert (Hread : Some (Nat.to_uint a) = Some (Nat.to_uint b))
    by (rewrite <- !NilEmpty.usu, Hsame; reflexivity).
  now injection Hread.
Qed.

Lemma takeJob_moved (id : option string) (jobs others : list (Job WorkflowJobData))
    (job : Job WorkflowJobData) :
  takeJob id jobs = Some (job, others) -> Permutation jobs (job :: others).
Proof.
  revert others. induction jobs as [|j rest IH]; intros others; cbn [takeJob];
    [discriminate|].
  destruct (sameJob id j).
  - intros H. injection H as <- <-. reflexivity.
  - destruct (takeJob id rest) as [[found kept]|]; [|discriminate].
    intros H. injection H as <- <-. rewrite (IH kept eq_refl). apply perm_swap.
Qed.

Lemma takeDelayed_moved (id : option string) (jobs others : list (Job WorkflowJobData * Z))
    (job : Job WorkflowJobData) :
  takeDelayed id jobs = Some (job, others) ->
  Permutation (map fst jobs) (job :: map fst others).
Proof.
  revert others. induction jobs as [|[j d] rest IH]; intros others; cbn [takeDelayed];
    [discriminate|].
  destruct (sameJob id j).
  - intros H. injection H as <- <-. reflexivity.
  - destruct (takeDelayed id rest) as [[found kept]|]; [|discriminate].
    intros H. injection H as <- <-. cbn [map fst]. rewrite (IH kept eq_refl).
    apply perm_swap.
Qed.

(** A queue stays well formed when its live jobs are moved about or leave,
    with their ids. *)
Lemma WellFormed_moved (q q' : Queue WorkflowJobData) (left : list (option string)) :
  defaultJobOptions q' = defaultJobOptions q ->
  issued q' = issued q ->
  Permutation (liveIds q) (left ++ liveIds q') ->
  WellFormed q -> WellFormed q'.
Proof.
  intros Hoptions Hissued Hmoved (Hdefaults & Hdistinct & Hknown).
  split; [congruence | split].
  - apply (Permutation_NoDup Hmoved) in Hdistinct.
    now apply NoDup_app_remove_l in Hdistinct.
  - intros id Hin. rewrite Hissued. apply Hknown.
    apply (Permutation_in _ (Permutation_sym Hmoved)). apply in_or_app. now right.
Qed.

Lemma addToQueue_WellFormed (name : string) (data : WorkflowJobData) (options : JobOptions)
    (q : Queue WorkflowJobData) :
  WellFormed q -> WellFormed (snd (addToQueue name data options q)).
Proof.
  intros (Hdefaults & Hdistinct & Hknown). unfold addToQueue. cbn [snd].
  set (job := {| jobId := Some (indexKey (S (issued q))); jobName := name;
                 jobData := data; jobOptions := options; attemptsMade := 0 |}).
  assert (Hnew : ~ In (Some (indexKey (S (issued q)))) (liveIds q)).
  { intros Hin. destruct (Hknown _ Hin) as [k [Hk Hle]]. injection Hk as Hk.
    apply indexKey_inj in Hk. lia. }
  match goal with
  | |- WellFormed ?q' =>
      assert (Hadded : Permutation (liveIds q') (Some (indexKey (S (issued q))) :: liveIds q))
  end.
  { unfold liveIds. cbn [waiting active delayed].
    change (Some (indexKey (S (issued q))) :: map jobId (waiting q ++ active q ++ map fst (delayed q)))
      with (map jobId (job :: waiting q ++ active q ++ map fst (delayed q))).
    apply Permutation_map.
    destruct (match delay options with Some d => Z.ltb 0 d | None => false end).
    - rewrite map_app. cbn [map fst]. rewrite !app_assoc.
      symmetry. apply Permutation_cons_append.
    - rewrite <- app_assoc. cbn [app]. symmetry. apply Permutation_middle. }
  split; [exact Hdefaults | split].
  - apply (Permutation_NoDup (Permutation_sym Hadded)). now constructor.
  - intros id Hin. apply (Permutation_in _ Hadded) in Hin. cbn [issued].
    destruct Hin as [<-|Hin]; [eauto|].
    destruct (Hknown id Hin) as [k [Hk Hle]]. eauto.
Qed.

Lemma promote_WellFormed (id : option string) (q q' : Queue WorkflowJobData) :
  promote id q = Some q' -> WellFormed q -> WellFormed q'.
Proof.
  unfold promote. destruct (takeDelayed id (delayed q)) as [[job others]|] eqn:Htake;
    [|discriminate].
  intros H. injection H as <-. apply (WellFormed_moved q _ []); [reflexivity..|].
  unfold liveIds. cbn [waiting active delayed app]. apply Permutation_map.
  rewrite (takeDelayed_moved _ _ _ _ Htake), <- app_assoc. cbn [app].
  apply Permutation_app_head. symmetry. apply Permutation_middle.
Qed.

Lemma start_WellFormed (capacity : Z) (id : option string) (q q' : Queue WorkflowJobData)
    (job : Job WorkflowJobData) :
  start capacity id q = Some (job, q') -> WellFormed q -> WellFormed q'.
Proof.
  unfold start. destruct (Z.ltb _ capacity); [|discriminate].
  destruct (takeJob id (waiting q)) as [[taken others]|] eqn:Htake; [|discriminate].
  intros H. injection H as _ <-. apply (WellFormed_moved q _ []); [reflexivity..|].
  unfold liveIds. cbn [waiting active delayed app]. apply Permutation_map.
  rewrite (takeJob_moved _ _ _ _ Htake), <- app_assoc. cbn [app].
  rewrite Permutation_middle. apply Permutation_app_head.
  rewrite <- Permutation_middle. reflexivity.
Qed.

Lemma settle_WellFormed (succeeded : bool) (id : option string)
    (q q' : Queue WorkflowJobData) (settlement : Settlement) :
  settle succeeded id q = Some (settlement, q') -> WellFormed q -> WellFormed q'.
Proof.
  unfold settle. destruct (takeJob id (active q)) as [[job others]|] eqn:Htake;
    [|discriminate].
  assert (Hleft : Permutation (liveIds q)
                    ([jobId job] ++ map jobId (waiting q ++ others ++ map fst (delayed q)))).
  { unfold liveIds. rewrite (takeJob_moved _ _ _ _ Htake). cbn [app].
    change (jobId job :: map jobId (waiting q ++ others ++ map fst (delayed q)))
      with (map jobId (job :: waiting q ++ others ++ map fst (delayed q))).
    apply Permutation_map. symmetry. apply Permutation_middle. }
  destruct succeeded; [|destruct (Nat.ltb _ _)]; intros H; injection H as _ <-.
  - apply (WellFormed_moved q _ [jobId job]); [reflexivity..|exact Hleft].
  - apply (WellFormed_moved q _ []); [reflexivity..|]. rewrite Hleft.
    unfold liveIds. cbn [waiting active delayed app].
    rewrite !map_app. cbn [map fst jobId].
    rewrite !app_assoc. apply Permutation_cons_append.
  - apply (WellFormed_moved q _ [jobId job]); [reflexivity..|exact Hleft].
Qed.

(** The workflow queue of the process, when there is one, is well formed. *)
Definition Sound (w : World ExecutorState) : Prop :=
  forall q, queues w !! WORKFLOW_QUEUE_NAME = Some q -> WellFormed q.

Lemma Sound_step (w w' : World ExecutorState) :
  Step executeWorkflow w w' -> Sound w -> Sound w'.
Proof.
  intros Hstep Hsound.
  destruct Hstep as [wid uid tt td options w outcome w' Hrun
                    |id w w' Hpromote
                    |id w job w' Hstart
                    |id w settlement w' Hrun].
  - destruct (isSet (REDIS_URL w)) eqn:Hset.
    + destruct (queues w !! WORKFLOW_QUEUE_NAME) as [q|] eqn:Hq.
      * destruct (queueWorkflowExecution_queued wid uid tt td options w q Hset Hq)
          as [job [q' [Hadd Heq]]].
        rewrite Heq in Hrun. injection Hrun as _ <-.
        intros q''. cbn [queues]. rewrite lookup_insert_eq. intros H. injection H as <-.
        change q' with (snd (job, q')). rewrite <- Hadd.
        apply addToQueue_WellFormed. now apply Hsound.
      * rewrite (queueWorkflowExecution_uninitialized wid uid tt td options w Hset Hq)
          in Hrun.
        injection Hrun as _ <-. exact Hsound.
    + rewrite (queueWorkflowExecution_direct wid uid tt td options w Hset) in Hrun.
      injection Hrun as _ <-. exact Hsound.
  - unfold promoteJob in Hpromote.
    destruct (queues w !! WORKFLOW_QUEUE_NAME) as [q|] eqn:Hq; [|discriminate].
    destruct (promote id q) as [q1|] eqn:Hmoved; [|discriminate].
    injection Hpromote as <-. intros q'. world_fields. rewrite lookup_insert_eq.
    intros H. injection H as <-. apply (promote_WellFormed id q q1 Hmoved). now apply Hsound.
  - unfold startJob in Hstart.
    destruct (queues w !! WORKFLOW_QUEUE_NAME) as [q|] eqn:Hq; [|discriminate].
    destruct (start _ id q) as [[taken q1]|] eqn:Hmoved; [|discriminate].
    injection Hstart as _ <-. intros q'. world_fields. rewrite lookup_insert_eq.
    intros H. injection H as <-. apply (start_WellFormed _ id q q1 taken Hmoved).
    now apply Hsound.
  - unfold runJob in Hrun.
    destruct (queues w !! WORKFLOW_QUEUE_NAME) as [q|] eqn:Hq; [|discriminate].
    destruct (takeJob id (active q)) as [[job others]|] eqn:Htake; [|discriminate].
    rewrite workflowProcessor_eq in Hrun. cbn [queues] in Hrun. rewrite Hq in Hrun.
    destruct (settle _ id q) as [[settled q1]|] eqn:Hmoved; [|discriminate].
    injection Hrun as _ <-. intros q'. world_fields. rewrite lookup_insert_eq.
    intros H. injection H as <-. apply (settle_WellFormed _ id q q1 settled Hmoved).
    now apply Hsound.
Qed.

Lemma Sound_steps (w w' : World ExecutorState) :
  rtc (Step executeWorkflow) w w' -> Sound w -> Sound w'.
Proof.
  induction 1 as [|w w1 w2 Hstep _ IH]; [trivial|].
  intros Hsound. apply IH. eapply Sound_step; eauto.
Qed.

Lemma sameJob_other (id : string) (j : Job WorkflowJobData) :
  jobId j <> Some id -> sameJob (Some id) j = false.
Proof.
  unfold sameJob. destruct (jobId j) as [other|]; [|reflexivity].
  intros Hother. destruct (String.eqb_spec id other); [congruence | reflexivity].
Qed.

(** In a list of jobs with ids of their own, no job before or after a job
    goes by its id. *)
Lemma distinct_ids_absent (before after : list (Job WorkflowJobData))
    (job : Job WorkflowJobData) (id : string) :
  jobId job = Some id ->
  List.NoDup (map jobId (before ++ job :: after)) ->
  Absent (Some id) (before ++ after).
Proof.
  intros Hid Hdistinct j Hin. apply sameJob_other. intros Hsame.
  rewrite map_app in Hdistinct. cbn [map] in Hdistinct.
  apply List.NoDup_remove_2 in Hdistinct. apply Hdistinct.
  rewrite <- map_app, Hid, <- Hsame. now apply in_map.
Qed.

(** A job that is waiting or delayed in a well-formed queue is held by the
    rest of the queue, in which no job goes by its id. *)
Lemma queued_job_is_held (q : Queue WorkflowJobData) (job : Job WorkflowJobData) :
  WellFormed q ->
  In job (waiting q) \/ (exists pause, In (job, pause) (delayed q)) ->
  exists rest place,
    q = hold rest job place /\
    defaultJobOptions rest = queueDefaults /\
    active rest = active q /\
    Clear (jobId job) rest /\
    sameJob (jobId job) job = true.
Proof.
  intros (Hdefaults & Hdistinct & Hknown) Hqueued.
  assert (Hlive : In (jobId job) (liveIds q)).
  { unfold liveIds. apply in_map. apply in_or_app.
    destruct Hqueued as [Hin|[pause Hin]]; [now left | right].
    apply in_or_app. right. change job with (fst (job, pause)). now apply in_map. }
  destruct (Hknown _ Hlive) as [k [Hid _]].
  assert (Hsame : sameJob (jobId job) job = true).
  { unfold sameJob. rewrite Hid. apply String.eqb_refl. }
  destruct q as [options ready running done lost later count].
  cbn [defaultJobOptions waiting active delayed issued] in *. unfold liveIds in Hdistinct.
  cbn [waiting active delayed] in Hdistinct.
  destruct Hqueued as [Hin|[pause Hin]].
  - apply in_split in Hin. destruct Hin as [before [after ->]].
    exists {| defaultJobOptions := options; waiting := before ++ after; active := running;
              completed := done; failed := lost; delayed := later; issued := count |},
           (Ready (List.length before)).
    rewrite <- app_assoc in Hdistinct. cbn [app] in Hdistinct.
    pose proof (distinct_ids_absent _ _ job _ Hid Hdistinct) as Habsent.
    rewrite Hid. split; [|split; [exact Hdefaults | split; [reflexivity | split]]].
    + unfold hold. cbn [defaultJobOptions waiting active completed failed delayed issued].
      now rewrite take_app_length, drop_app_length.
    + unfold Clear. cbn [waiting active delayed].
      split; [|split]; intros j Hj; apply Habsent;
        rewrite ?in_app_iff in *; tauto.
    + now rewrite <- Hid.
  - apply in_split in Hin. destruct Hin as [before [after ->]].
    exists {| defaultJobOptions := options; waiting := ready; active := running;
              completed := done; failed := lost; delayed := before ++ after;
              issued := count |},
           (Later (List.length before) pause).
    rewrite (map_app fst) in Hdistinct. cbn [map fst] in Hdistinct.
    rewrite !app_assoc in Hdistinct.
    pose proof (distinct_ids_absent _ _ job _ Hid Hdistinct) as Habsent.
    rewrite Hid. split; [|split; [exact Hdefaults | split; [reflexivity | split]]].
    + unfold hold. cbn [defaultJobOptions waiting active completed failed delayed issued].
      now rewrite take_app_length, drop_app_length.
    + unfold Clear. cbn [waiting active delayed]. rewrite map_app.
      split; [|split]; intros j Hj; apply Habsent;
        rewrite ?in_app_iff in *; tauto.
    + now rewrite <- Hid.
Qed.

(** A successful initialisation registers the queue, empty, and one worker. *)
Lemma initializeWorkflowQueue_ok (options : option InitOptions) (w0 : World ExecutorState) :
  isSet (REDIS_URL w0) = true ->
  brokerReachable w0 = true ->
  queues w0 !! WORKFLOW_QUEUE_NAME = None ->
  initializeWorkflowQueue options w0
  = (Normal true,
     {| REDIS_URL := REDIS_URL w0; brokerReachable := brokerReachable w0;
        queues := <[WORKFLOW_QUEUE_NAME := newQueue queueDefaults]> (queues w0);
        workers := workers w0 ++
          [(WORKFLOW_QUEUE_NAME,
            {| concurrency := orDefault (match options with
                                         | Some o => optConcurrency o
                                         | None => None
                                         end) 10;
               limiterMax := orDefault (match options with
                                        | Some o => optMaxJobsPerMinute o
                                        | None => None
                                        end) 100;
               limiterDuration := 60000 |})];
        executor := executor w0; invocations := invocations w0; logged := logged w0 |}).
Proof.
  intros Hset Hreach Hqueue. unfold initializeWorkflowQueue. rewrite Hset. cbn [negb].
  unfold tryCatch, bind, createQueue, createWorker. rewrite Hreach. world_fields.
  rewrite Hreach, Hqueue. reflexivity.
Qed.

(** C2.  After start-up, whatever else was requested, promoted, started
    and run since, a queued job on whose data the executor always fails
    goes queued -> active -> failed -> queued three times, waiting 10 s,
    20 s and 40 s before the retries, each time a worker is free for it,
    and its fourth failure is final: the executor has then been run four
    times on the job's data, the job is among the failed ones with four
    attempts made, and the rest of the queue is as it was.  The delay never
    shrinks from one retry to the next. *)
Theorem failing_job_is_retried_three_times_then_fails
    (initOptions : option InitOptions) (w0 w : World ExecutorState)
    (q : Queue WorkflowJobData) (job : Job WorkflowJobData) :
  isSet (REDIS_URL w0) = true ->
  brokerReachable w0 = true ->
  queues w0 !! WORKFLOW_QUEUE_NAME = None ->
  rtc (Step executeWorkflow) (snd (initializeWorkflowQueue initOptions w0)) w ->
  queues w !! WORKFLOW_QUEUE_NAME = Some q ->
  In job (waiting q) \/ (exists pause, In (job, pause) (delayed q)) ->
  attemptsMade job = 0 ->
  FailsOn (jobData job) ->
  (Z.of_nat (List.length (active q)) < capacity WORKFLOW_QUEUE_NAME w)%Z ->
  (exists rest place,
     q = hold rest job place /\
     forall fuel,
       4 <= fuel ->
       fst (lifeCycle executeWorkflow fuel (jobId job) w)
       = [BecameActive; AttemptFailed; Requeued 10000;
          BecameActive; AttemptFailed; Requeued 20000;
          BecameActive; AttemptFailed; Requeued 40000;
          BecameActive; AttemptFailed; FailedTerminally] /\
       queues (snd (lifeCycle executeWorkflow fuel (jobId job) w)) !! WORKFLOW_QUEUE_NAME
       = Some (holdFailed rest (attempted job 4)) /\
       invocations (snd (lifeCycle executeWorkflow fuel (jobId job) w))
       = (invocations w ++ repeat (jobData job) 4)%list) /\
  attempts queueDefaults = 3 /\
  (forall retry,
     (backoffFor (backoff queueDefaults) retry
      <= backoffFor (backoff queueDefaults) (S retry))%Z).
Proof.
  intros Hset Hreach Hqueue Hsteps Hq Hqueued Hfresh Hfail Hfree.
  split; [|split; [reflexivity|]].
  - assert (Hsound : Sound w).
    { apply (Sound_steps _ _ Hsteps).
      rewrite (initializeWorkflowQueue_ok initOptions w0 Hset Hreach Hqueue).
      intros q0. cbn [snd queues]. rewrite lookup_insert_eq. intros H. injection H as <-.
      split; [reflexivity | split; [constructor | intros id []]]. }
    destruct (queued_job_is_held q job (Hsound q Hq) Hqueued)
      as (rest & place & Hheld & Hdefaults & Hactive & Hclear & Hsame).
    exists rest, place. split; [exact Hheld|].
    apply (four_attempts_of_queued rest job place); try assumption.
    split; [|now rewrite Hactive].
    rewrite Hq, Hheld. do 2 f_equal. destruct job. cbn in Hfresh. now subst.
  - intros retry. unfold backoffFor. cbn [backoffType backoff queueDefaults backoffDelay].
    rewrite Nat2Z.inj_succ, Z.pow_succ_r by lia.
    assert (0 < 2 ^ Z.of_nat retry)%Z by (apply Z.pow_pos_nonneg; lia). lia.
Qed.

End WithExecutor.

(** The sentinel for a run that succeeds and for one that fails. *)
Lemma direct_execution_when_redis_url_unset_witness :
  fst (queueWorkflowExecution sampleExecutor "wf-1" "user-1" manual None None bareWorld)
    = Normal {| jobIdOf := "direct-execution"; queued := false |} /\
  executor (snd (queueWorkflowExecution sampleExecutor "failing" "user-1" cron None None
                   bareWorld)) = 1.
Proof.
  split.
  - exact (proj2 (proj2 (proj2 (proj2
      (direct_execution_when_redis_url_unset nat sampleExecutor "wf-1" "user-1" manual
         None None bareWorld eq_refl))))).
  - exact (proj1
      (direct_execution_when_redis_url_unset nat sampleExecutor "failing" "user-1" cron
         None None bareWorld eq_refl)).
Defined.

Lemma unavailable_queue_falls_back_only_without_redis_url_witness :
  fst (queueWorkflowExecution sampleExecutor "failing" "user-1" webhook None None bareWorld)
    = Normal {| jobIdOf := "direct-execution"; queued := false |} /\
  queueWorkflowExecution sampleExecutor "wf-1" "user-1" manual None None (startupWorld true)
    = (Throw (Error "Workflow queue not initialized. Call initializeWorkflowQueue() first."),
       startupWorld true).
Proof.
  split.
  - exact (proj1 (proj1
      (unavailable_queue_falls_back_only_without_redis_url nat sampleExecutor
         "failing" "user-1" webhook None None bareWorld eq_refl) eq_refl)).
  - exact (proj2
      (unavailable_queue_falls_back_only_without_redis_url nat sampleExecutor
         "wf-1" "user-1" manual None None (startupWorld true) eq_refl) eq_refl).
Defined.

(** The queue is unavailable after an initialisation that could not reach
    the broker, and also before any initialisation; with REDIS_URL set, a
    request then throws instead of falling back. *)
Lemma request_throws_when_queue_unavailable_with_redis_url :
  fst (initializeWorkflowQueue None (startupWorld false)) = Normal false /\
  isWorkflowQueueAvailable (snd (initializeWorkflowQueue None (startupWorld false))) = false /\
  fst (queueWorkflowExecution sampleExecutor "wf-1" "user-1" manual None None
         (snd (initializeWorkflowQueue None (startupWorld false))))
    = Throw (Error "Workflow queue not initialized. Call initializeWorkflowQueue() first.") /\
  isWorkflowQueueAvailable (startupWorld true) = false /\
  fst (queueWorkflowExecution sampleExecutor "wf-1" "user-1" manual None None
         (startupWorld true))
    = Throw (Error "Workflow queue not initialized. Call initializeWorkflowQueue() first.").
Proof. repeat split; reflexivity. Qed.

Lemma besideAnother_reached :
  rtc (Step sampleExecutor) (snd (initializeWorkflowQueue None (startupWorld true)))
      besideAnother.
Proof.
  eapply rtc_l.
  { eapply StepRequest with (workflowId := "wf-a") (userId := "alice")
      (triggerType := manual) (triggerData := None) (options := None).
    apply surjective_pairing. }
  eapply rtc_l.
  { eapply StepRequest with (workflowId := "failing") (userId := "bob")
      (triggerType := manual) (triggerData := None) (options := None).
    apply surjective_pairing. }
  eapply rtc_l; [|apply rtc_refl].
  eapply StepStart with (id := Some "1"). reflexivity.
Qed.

Lemma failing_job_is_retried_three_times_then_fails_witness :
  (exists q,
     queues besideAnother !! WORKFLOW_QUEUE_NAME = Some q /\
     map (fun job => workflowId (jobData job)) (active q) = ["wf-a"] /\
     waiting q = [failingJob]) /\
  fst (lifeCycle sampleExecutor 4 (Some "2") besideAnother)
  = [BecameActive; AttemptFailed; Requeued 10000;
     BecameActive; AttemptFailed; Requeued 20000;
     BecameActive; AttemptFailed; Requeued 40000;
     BecameActive; AttemptFailed; FailedTerminally] /\
  invocations (snd (lifeCycle sampleExecutor 4 (Some "2") besideAnother))
  = repeat (jobData failingJob) 4.
Proof.
  split; [eexists; repeat split; reflexivity|].
  assert (Hfail : FailsOn nat sampleExecutor (jobData failingJob)).
  { intros runs result H. injection H as <-. reflexivity. }
  pose proof (fun q => failing_job_is_retried_three_times_then_fails nat sampleExecutor
                          None (startupWorld true) besideAnother q failingJob) as Hretried.
  edestruct Hretried as [[rest [place [_ Hlife]]] _];
    [reflexivity | reflexivity | reflexivity | exact besideAnother_reached
    | reflexivity | left; left; reflexivity | reflexivity | exact Hfail
    | vm_compute; reflexivity |].
  destruct (Hlife 4 (le_n 4)) as [Hevents [_ Hinvocations]].
  split; [exact Hevents | exact Hinvocations].
Defined.

Lemma oneActive_reached : rtc (Step sampleExecutor) startedUp oneActive.
Proof.
  apply rtc_l with oneRequest.
  { eapply StepRequest with (workflowId := "wf-a") (userId := "alice")
      (triggerType := manual) (triggerData := None) (options := None).
    apply surjective_pairing. }
  apply rtc_l with twoRequests.
  { eapply StepRequest with (workflowId := "wf-b") (userId := "bob")
      (triggerType := manual) (triggerData := None) (options := None).
    apply surjective_pairing. }
  apply rtc_l with oneActive; [|apply rtc_refl].
  eapply StepStart with (id := Some "1"). reflexivity.
Qed.

Lemma active_jobs_never_exceed_concurrency_witness :
  exists q,
    queues oneActive !! WORKFLOW_QUEUE_NAME = Some q /\
    map (fun job => userId (jobData job)) (active q) = ["alice"] /\
    map (fun job => userId (jobData job)) (waiting q) = ["bob"] /\
    (Z.of_nat (List.length (active q)) <= 1)%Z /\
    forall id, startJob id oneActive = None.
Proof.
  edestruct (active_jobs_never_exceed_concurrency nat sampleExecutor
               (Some {| optConcurrency := Some 1%Z; optMaxJobsPerMinute := None |})
               (startupWorld true) oneActive)
    as [Hbound [Hfull _]];
    [reflexivity | reflexivity | vm_compute; discriminate
    | exact oneActive_reached | reflexivity |].
  eexists. split; [reflexivity|]. split; [reflexivity|]. split; [reflexivity|].
  split; [exact Hbound|]. apply Hfull. vm_compute. discriminate.
Defined.

End WorkflowQueueFacts.

(** ** More on [workflow-queue.ts]: start-up, the queued path, defaults *)
Module WorkflowQueueUse.
Import Js Broker WorkflowQueue WorkflowQueueFacts.

(** [job.id || 'unknown'] is never the empty string. *)
Lemma reported_job_id_not_empty (id : option string) :
  (if isSet id then interpolate id else "unknown") <> "".
Proof.
  destruct id as [s|]; cbn; [|discriminate].
  destruct (String.eqb_spec s ""); cbn; [discriminate | assumption].
Qed.

(** [x || d] is [x] unless [x] is missing or zero, and is never zero for a
    non-zero default. *)
Lemma orDefault_spec (x : option Z) (d : Z) :
  d <> 0%Z ->
  orDefault x d <> 0%Z /\
  (forall n, x = Some n -> n <> 0%Z -> orDefault x d = n) /\
  (x = None \/ x = Some 0%Z -> orDefault x d = d).
Proof.
  intros Hd. unfold orDefault. destruct x as [n|].
  - destruct (Z.eqb_spec n 0) as [->|Hn].
    + split; [exact Hd|]. split; [intros m H; injection H as <-; congruence | reflexivity].
    + split; [exact Hn|]. split.
      * intros m H _. now injection H.
      * intros [H|H]; [discriminate | injection H as ->; congruence].
  - split; [exact Hd|]. split; [discriminate | reflexivity].
Qed.

Section WithExecutor.
Variable ExecutorState : Type.
Variable executeWorkflow :
  string -> string -> TriggerType -> option JsValue ->
  ExecutorState -> Completion ExecutionResult * ExecutorState.

(** What start-up does, case by case. *)
Lemma initializeWorkflowQueue_cases (options : option InitOptions) (w : World ExecutorState) :
  (isSet (REDIS_URL w) = false /\
   initializeWorkflowQueue options w
   = (Normal false,
      {| REDIS_URL := REDIS_URL w; brokerReachable := brokerReachable w;
         queues := queues w; workers := workers w; executor := executor w;
         invocations := invocations w;
         logged := logged w ++
           [(warn, "REDIS_URL not set - workflow queue disabled, falling back to direct execution")] |})) \/
  (isSet (REDIS_URL w) = true /\ brokerReachable w = false /\
   initializeWorkflowQueue options w
   = (Normal false,
      {| REDIS_URL := REDIS_URL w; brokerReachable := brokerReachable w;
         queues := queues w; workers := workers w; executor := executor w;
         invocations := invocations w;
         logged := logged w ++ [(error_, "Failed to initialize workflow queue")] |})) \/
  (isSet (REDIS_URL w) = true /\ brokerReachable w = true /\
   initializeWorkflowQueue options w
   = (Normal true,
      {| REDIS_URL := REDIS_URL w; brokerReachable := brokerReachable w;
         queues := <[WORKFLOW_QUEUE_NAME :=
                       match queues w !! WORKFLOW_QUEUE_NAME with
                       | Some existing => existing
                       | None => newQueue queueDefaults
                       end]> (queues w);
         workers := workers w ++
           [(WORKFLOW_QUEUE_NAME,
             {| concurrency := orDefault (match options with
                                          | Some o => optConcurrency o
                                          | None => None
                                          end) 10;
                limiterMax := orDefault (match options with
                                         | Some o => optMaxJobsPerMinute o
                                         | None => None
                                         end) 100;
                limiterDuration := 60000 |})];
         executor := executor w; invocations := invocations w; logged := logged w |})).
Proof.
  unfold initializeWorkflowQueue.
  destruct (isSet (REDIS_URL w)) eqn:Hset; cbn [negb].
  - right. unfold tryCatch, bind, createQueue, createWorker, log, ret.
    destruct (brokerReachable w) eqn:Hreach; world_fields.
    + right. rewrite Hreach. repeat split; reflexivity.
    + left. rewrite Hreach. repeat split; reflexivity.
  - left. split; reflexivity.
Qed.

(** X1.  Start-up never raises: it resolves to true or to false.  Without
    REDIS_URL it resolves to false and leaves the queues and the workers as
    they were.  Whenever it resolves to false, it has run nothing and has
    logged exactly one line, a warning or an error. *)
Theorem initialize_resolves_and_logs_failure
    (options : option InitOptions) (w : World ExecutorState) :
  exists ok,
    fst (initializeWorkflowQueue options w) = Normal ok /\
    (isSet (REDIS_URL w) = false ->
     ok = false /\
     queues (snd (initializeWorkflowQueue options w)) = queues w /\
     workers (snd (initializeWorkflowQueue options w)) = workers w) /\
    (ok = false ->
     executor (snd (initializeWorkflowQueue options w)) = executor w /\
     invocations (snd (initializeWorkflowQueue options w)) = invocations w /\
     exists line,
       logged (snd (initializeWorkflowQueue options w)) = (logged w ++ [line])%list /\
       fst line <> info).
Proof.
  destruct (initializeWorkflowQueue_cases options w)
    as [[Hset ->]|[[Hset [Hreach ->]]|[Hset [Hreach ->]]]]; cbn [fst snd].
  - exists false. split; [reflexivity|]. split; [intros _; repeat split|]. intros _.
    world_fields. repeat split. eexists. split; [reflexivity | discriminate].
  - exists false. split; [reflexivity|]. split; [congruence|]. intros _.
    world_fields. repeat split. eexists. split; [reflexivity | discriminate].
  - exists true. split; [reflexivity|]. split; [congruence | discriminate].
Qed.

(** X2.  Without REDIS_URL, start-up returns false and the queue stays
    unavailable: every later request runs the executor in the calling
    process and resolves to the direct-execution sentinel. *)
Theorem without_redis_url_every_request_runs_directly
    (options : option InitOptions) (workflowId userId : string)
    (triggerType : TriggerType) (triggerData : option JsValue)
    (requestOptions : option EnqueueOptions) (w : World ExecutorState) :
  isSet (REDIS_URL w) = false ->
  fst (initializeWorkflowQueue options w) = Normal false /\
  isWorkflowQueueAvailable (snd (initializeWorkflowQueue options w)) = false /\
  fst (queueWorkflowExecution executeWorkflow workflowId userId triggerType triggerData
         requestOptions (snd (initializeWorkflowQueue options w)))
    = match fst (executeWorkflow workflowId userId triggerType triggerData (executor w)) with
      | Normal _ => Normal {| jobIdOf := "direct-execution"; queued := false |}
      | Throw e => Throw e
      end /\
  invocations (snd (queueWorkflowExecution executeWorkflow workflowId userId triggerType
                      triggerData requestOptions
                      (snd (initializeWorkflowQueue options w))))
    = (invocations w ++ [{| workflowId := workflowId; userId := userId;
                            triggerType := triggerType; triggerData := triggerData |}])%list.
Proof.
  intros Hunset.
  destruct (initializeWorkflowQueue_cases options w)
    as [[_ ->]|[[Hset _]|[Hset _]]]; try congruence.
  cbn [fst snd]. split; [reflexivity|]. split.
  - unfold isWorkflowQueueAvailable. world_fields. now rewrite Hunset.
  - rewrite queueWorkflowExecution_direct by (world_fields; exact Hunset).
    split; reflexivity.
Qed.

(** X3.  When start-up returns true the queue is available afterwards, its
    statistics are no longer null, and exactly one worker has been attached
    to the workflow queue, with a limiter duration of 60000: its concurrency
    is the given one, or 10 when that is missing or zero; its limiter
    maximum is the given one, or 100 when that is missing or zero; so
    neither is ever zero. *)
Theorem successful_initialize_makes_queue_available
    (options : option InitOptions) (w : World ExecutorState) :
  fst (initializeWorkflowQueue options w) = Normal true ->
  isWorkflowQueueAvailable (snd (initializeWorkflowQueue options w)) = true /\
  fst (getWorkflowQueueStats (snd (initializeWorkflowQueue options w))) <> Normal None /\
  exists worker,
    workers (snd (initializeWorkflowQueue options w))
      = (workers w ++ [(WORKFLOW_QUEUE_NAME, worker)])%list /\
    concurrency worker <> 0%Z /\
    limiterMax worker <> 0%Z /\
    limiterDuration worker = 60000%Z /\
    (forall o n, options = Some o -> optConcurrency o = Some n -> n <> 0%Z ->
                 concurrency worker = n) /\
    ((options = None \/ exists o, options = Some o /\
                                  (optConcurrency o = None \/ optConcurrency o = Some 0%Z)) ->
     concurrency worker = 10%Z) /\
    (forall o n, options = Some o -> optMaxJobsPerMinute o = Some n -> n <> 0%Z ->
                 limiterMax worker = n) /\
    ((options = None \/ exists o, options = Some o /\
                                  (optMaxJobsPerMinute o = None \/
                                   optMaxJobsPerMinute o = Some 0%Z)) ->
     limiterMax worker = 100%Z).
Proof.
  intros Hok.
  destruct (initializeWorkflowQueue_cases options w)
    as [[_ Heq]|[[_ [_ Heq]]|[Hset [_ Heq]]]]; rewrite Heq in Hok |- *;
    try discriminate Hok.
  cbn [fst snd]. split; [|split].
  - unfold isWorkflowQueueAvailable. world_fields. rewrite Hset, lookup_insert_eq. reflexivity.
  - unfold getWorkflowQueueStats. world_fields. rewrite lookup_insert_eq. discriminate.
  - eexists. split; [reflexivity|]. cbn [concurrency limiterMax limiterDuration].
    destruct (orDefault_spec (match options with
                              | Some o => optConcurrency o
                              | None => None
                              end) 10 ltac:(discriminate)) as [Hc [Hgiven Hdefault]].
    destruct (orDefault_spec (match options with
                              | Some o => optMaxJobsPerMinute o
                              | None => None
                              end) 100 ltac:(discriminate)) as [Hm [Hlimit Hhundred]].
    split; [exact Hc|]. split; [exact Hm|]. split; [reflexivity|].
    split; [|split; [|split]].
    + intros o n -> Hn Hnz. now apply Hgiven.
    + intros [->|[o [-> Ho]]]; apply Hdefault; auto.
    + intros o n -> Hn Hnz. now apply Hlimit.
    + intros [->|[o [-> Ho]]]; apply Hhundred; auto.
Qed.

(** An available queue is a registered one, with REDIS_URL set. *)
Lemma available_queue_registered (w : World ExecutorState) :
  isWorkflowQueueAvailable w = true ->
  isSet (REDIS_URL w) = true /\ exists q, queues w !! WORKFLOW_QUEUE_NAME = Some q.
Proof.
  unfold isWorkflowQueueAvailable. intros H. apply andb_true_iff in H. destruct H as [Hset Hq].
  split; [exact Hset|]. destruct (queues w !! WORKFLOW_QUEUE_NAME) as [q|]; [eauto | discriminate].
Qed.

(** X4.  While the queue is available a request is only queued: it resolves
    to queued=true with a non-empty job id, the executor is not run in the
    calling process, and the statistics show one more pending job (total
    grows by one; active, completed and failed are unchanged). *)
Theorem available_queue_enqueues_without_running
    (workflowId userId : string) (triggerType : TriggerType)
    (triggerData : option JsValue) (options : option EnqueueOptions)
    (w : World ExecutorState) :
  isWorkflowQueueAvailable w = true ->
  exists id before after,
    fst (queueWorkflowExecution executeWorkflow workflowId userId triggerType triggerData
           options w) = Normal {| jobIdOf := id; queued := true |} /\
    id <> "" /\
    executor (snd (queueWorkflowExecution executeWorkflow workflowId userId triggerType
                     triggerData options w)) = executor w /\
    invocations (snd (queueWorkflowExecution executeWorkflow workflowId userId triggerType
                        triggerData options w)) = invocations w /\
    fst (getWorkflowQueueStats w) = Normal (Some before) /\
    fst (getWorkflowQueueStats
           (snd (queueWorkflowExecution executeWorkflow workflowId userId triggerType
                   triggerData options w))) = Normal (Some after) /\
    statTotal after = S (statTotal before) /\
    statActive after = statActive before /\
    statCompleted after = statCompleted before /\
    statFailed after = statFailed before.
Proof.
  intros Havailable.
  destruct (available_queue_registered w Havailable) as [Hset [q Hq]].
  destruct (queueWorkflowExecution_queued ExecutorState executeWorkflow workflowId userId
              triggerType triggerData options w q Hset Hq) as [job [q' [Hadd Heq]]].
  rewrite Heq. cbn [fst snd]. unfold getWorkflowQueueStats. world_fields.
  rewrite Hq, lookup_insert_eq. unfold ret. cbn [fst].
  do 3 eexists. split; [reflexivity|]. split; [apply reported_job_id_not_empty|].
  split; [reflexivity|]. split; [reflexivity|]. split; [reflexivity|].
  split; [reflexivity|]. cbn [statTotal statActive statCompleted statFailed].
  unfold addToQueue in Hadd. injection Hadd as _ <-.
  cbn [waiting active completed failed delayed].
  split; [|repeat split].
  match goal with
  | |- context [if ?later then _ else _] => destruct later
  end; rewrite length_app; cbn [List.length]; lia.
Qed.

(** X5.  The job a request adds is named workflow-<workflowId>, carries the
    four arguments as its data, has made no attempt, and has the requested
    priority and delay, with priority 5 in place of a missing or zero one
    (so a queued job never has priority 0); it is put behind the delayed
    jobs when a positive delay is asked for and behind the waiting ones
    otherwise, and no other job of the queue is touched. *)
Theorem queued_job_carries_the_request
    (workflowId userId : string) (triggerType : TriggerType)
    (triggerData : option JsValue) (options : option EnqueueOptions)
    (w : World ExecutorState) :
  isWorkflowQueueAvailable w = true ->
  exists q q' job,
    queues w !! WORKFLOW_QUEUE_NAME = Some q /\
    queues (snd (queueWorkflowExecution executeWorkflow workflowId userId triggerType
                   triggerData options w)) !! WORKFLOW_QUEUE_NAME = Some q' /\
    jobName job = "workflow-" +:+ workflowId /\
    jobData job = {| workflowId := workflowId; userId := userId;
                     triggerType := triggerType; triggerData := triggerData |} /\
    attemptsMade job = 0 /\
    priority (jobOptions job) <> 0%Z /\
    (forall o n, options = Some o -> optPriority o = Some n -> n <> 0%Z ->
                 priority (jobOptions job) = n) /\
    ((options = None \/ exists o, options = Some o /\
                                  (optPriority o = None \/ optPriority o = Some 0%Z)) ->
     priority (jobOptions job) = 5%Z) /\
    delay (jobOptions job) = match options with
                             | Some o => optDelay o
                             | None => None
                             end /\
    ((exists d, delay (jobOptions job) = Some d /\ (0 < d)%Z /\
                delayed q' = (delayed q ++ [(job, d)])%list /\ waiting q' = waiting q) \/
     ((forall d, delay (jobOptions job) = Some d -> (d <= 0)%Z) /\
      waiting q' = (waiting q ++ [job])%list /\ delayed q' = delayed q)) /\
    active q' = active q /\ completed q' = completed q /\ failed q' = failed q.
Proof.
  intros Havailable.
  destruct (available_queue_registered w Havailable) as [Hset [q Hq]].
  destruct (queueWorkflowExecution_queued ExecutorState executeWorkflow workflowId userId
              triggerType triggerData options w q Hset Hq) as [job [q' [Hadd Heq]]].
  rewrite Heq. cbn [snd]. world_fields. rewrite lookup_insert_eq.
  exists q, q', job. split; [exact Hq|]. split; [reflexivity|].
  unfold addToQueue in Hadd. injection Hadd as <- <-.
  cbn [jobName jobData attemptsMade jobOptions priority delay waiting active completed
       failed delayed].
  destruct (orDefault_spec (match options with
                            | Some o => optPriority o
                            | None => None
                            end) 5 ltac:(discriminate)) as [Hp [Hgiven Hdefault]].
  split; [reflexivity|]. split; [reflexivity|]. split; [reflexivity|].
  split; [exact Hp|]. split.
  { intros o n -> Hn Hnz. now apply Hgiven. }
  split.
  { intros [->|[o [-> Ho]]]; apply Hdefault; auto. }
  split; [reflexivity|]. split; [|repeat split].
  destruct (match options with
            | Some o => optDelay o
            | None => None
            end) as [d|].
  - destruct (Z.ltb_spec 0 d) as [Hpos|Hnonpos].
    + left. exists d. repeat split; [exact Hpos].
    + right. split; [|split; reflexivity]. intros d' H. injection H as <-. exact Hnonpos.
  - right. split; [|split; reflexivity]. intros d H. discriminate H.
Qed.

(** X6.  Whenever a request resolves, its queued flag tells whether
    REDIS_URL is set, its job id is not empty, and a request that was not
    queued carries the job id direct-execution. *)
Theorem resolved_request_reports_its_mode
    (workflowId userId : string) (triggerType : TriggerType)
    (triggerData : option JsValue) (options : option EnqueueOptions)
    (w : World ExecutorState) (result : Enqueued) :
  fst (queueWorkflowExecution executeWorkflow workflowId userId triggerType triggerData
         options w) = Normal result ->
  queued result = isSet (REDIS_URL w) /\
  jobIdOf result <> "" /\
  (queued result = false -> jobIdOf result = "direct-execution").
Proof.
  intros Hresult. destruct (isSet (REDIS_URL w)) eqn:Hset.
  - destruct (queues w !! WORKFLOW_QUEUE_NAME) as [q|] eqn:Hq.
    + destruct (queueWorkflowExecution_queued ExecutorState executeWorkflow workflowId
                  userId triggerType triggerData options w q Hset Hq)
        as [job [q' [_ Heq]]].
      rewrite Heq in Hresult. injection Hresult as <-. cbn [queued jobIdOf].
      split; [reflexivity|]. split; [apply reported_job_id_not_empty | discriminate].
    + rewrite (queueWorkflowExecution_uninitialized ExecutorState executeWorkflow
                 workflowId userId triggerType triggerData options w Hset Hq) in Hresult.
      discriminate Hresult.
  - rewrite (queueWorkflowExecution_direct ExecutorState executeWorkflow workflowId userId
               triggerType triggerData options w Hset) in Hresult.
    cbn [fst] in Hresult.
    destruct (fst (executeWorkflow workflowId userId triggerType triggerData (executor w)));
      [|discriminate Hresult].
    injection Hresult as <-. repeat split. discriminate.
Qed.

End WithExecutor.

Lemma without_redis_url_every_request_runs_directly_witness :
  isWorkflowQueueAvailable
    (snd (initializeWorkflowQueue (ExecutorState := nat) None bareWorld)) = false /\
  fst (queueWorkflowExecution sampleExecutor "failing" "user-1" cron None None
         (snd (initializeWorkflowQueue None bareWorld)))
    = Normal {| jobIdOf := "direct-execution"; queued := false |}.
Proof.
  destruct (without_redis_url_every_request_runs_directly nat sampleExecutor None
              "failing" "user-1" cron None None bareWorld eq_refl)
    as [_ [Hunavailable [Hrun _]]].
  split; [exact Hunavailable | exact Hrun].
Defined.

Lemma successful_initialize_makes_queue_available_witness :
  isWorkflowQueueAvailable
    (snd (initializeWorkflowQueue
            (Some {| optConcurrency := Some 0%Z; optMaxJobsPerMinute := None |})
            (startupWorld true))) = true /\
  map (fun nw => concurrency (snd nw))
      (workers (snd (initializeWorkflowQueue
                       (Some {| optConcurrency := Some 0%Z; optMaxJobsPerMinute := None |})
                       (startupWorld true)))) = [10%Z].
Proof.
  destruct (successful_initialize_makes_queue_available nat
              (Some {| optConcurrency := Some 0%Z; optMaxJobsPerMinute := None |})
              (startupWorld true) eq_refl)
    as [Havailable _].
  split; [exact Havailable | reflexivity].
Defined.

Lemma available_queue_enqueues_without_running_witness :
  exists id after,
    fst (queueWorkflowExecution sampleExecutor "failing" "alice" manual None None startedUp)
      = Normal {| jobIdOf := id; queued := true |} /\
    executor (snd (queueWorkflowExecution sampleExecutor "failing" "alice" manual None None
                     startedUp)) = 0 /\
    fst (getWorkflowQueueStats
           (snd (queueWorkflowExecution sampleExecutor "failing" "alice" manual None None
                   startedUp))) = Normal (Some after) /\
    statTotal after = 1.
Proof.
  destruct (available_queue_enqueues_without_running nat sampleExecutor
              "failing" "alice" manual None None startedUp eq_refl)
    as [id [before [after [Hrun [_ [Hexec [_ [Hbefore [Hafter [Htotal _]]]]]]]]]].
  exists id, after. split; [exact Hrun|]. split; [exact Hexec|]. split; [exact Hafter|].
  rewrite Htotal. vm_compute in Hbefore. injection Hbefore as <-. reflexivity.
Defined.

Lemma queued_job_carries_the_request_witness :
  exists q' job,
    queues (snd (queueWorkflowExecution sampleExecutor "wf-9" "alice" webhook None
                   (Some {| optPriority := Some 0%Z; optDelay := Some 1500%Z |})
                   startedUp)) !! WORKFLOW_QUEUE_NAME = Some q' /\
    delayed q' = [(job, 1500%Z)] /\
    jobName job = "workflow-wf-9" /\
    priority (jobOptions job) = 5%Z.
Proof.
  destruct (queued_job_carries_the_request nat sampleExecutor "wf-9" "alice" webhook None
              (Some {| optPriority := Some 0%Z; optDelay := Some 1500%Z |})
              startedUp eq_refl)
    as [q [q' [job [Hq [Hq' [Hname [_ [_ [_ [_ [Hdefault [Hdelay [Hplace _]]]]]]]]]]]]].
  exists q', job. split; [exact Hq'|]. split; [|split; [exact Hname|]].
  - destruct Hplace as [[d [Hd [_ [Hdelayed _]]]]|[Hnone _]].
    + rewrite Hdelay in Hd. injection Hd as <-. rewrite Hdelayed.
      vm_compute in Hq. injection Hq as <-. reflexivity.
    + rewrite Hdelay in Hnone. specialize (Hnone 1500%Z eq_refl). vm_compute in Hnone.
      now contradiction Hnone.
  - apply Hdefault. right. eexists. split; [reflexivity|]. now right.
Defined.

Lemma resolved_request_reports_its_mode_witness :
  queued {| jobIdOf := "direct-execution"; queued := false |}
    = isSet (REDIS_URL bareWorld) /\
  queued {| jobIdOf := "1"; queued := true |} = isSet (REDIS_URL startedUp).
Proof.
  split.
  - exact (proj1 (resolved_request_reports_its_mode nat sampleExecutor
                    "wf-1" "user-1" manual None None bareWorld _ eq_refl)).
  - exact (proj1 (resolved_request_reports_its_mode nat sampleExecutor
                    "wf-1" "user-1" manual None None startedUp _ eq_refl)).
Defined.

End WorkflowQueueUse.

(** ** More on [RunOutputModal]: totality, the filter, the configuration *)
Module RunOutputModalMore.
Import Js RunOutputModal RunOutputModalConfig RunOutputModalFacts.

(** A [JSON.parse] that knows two texts, to evaluate the code on concrete
    inputs. *)
Definition sampleParse (text : string) : Completion JsValue :=
  if String.eqb text "{}" then Normal (JObject [])
  else if String.eqb text "null" then Normal JNull
  else Throw (Error "Unexpected token in JSON").

(** No function on the prototype chain that starts at [v]. *)
Fixpoint plainChain (v : JsValue) : bool :=
  match v with
  | JFunction _ => false
  | JDerived proto _ => plainChain proto
  | _ => true
  end.

(** No function on the prototype chain of the object under construction. *)
Definition PlainBuilt (o : Built) : Prop :=
  match builtProto o with
  | Some proto => plainChain proto = true
  | None => True
  end.

(** The entries that are not skipped and whose key is not [__proto__]. *)
Definition ownKept (entries : list (string * JsValue)) : list (string * JsValue) :=
  List.filter
    (fun kv => negb (skipped (fst kv)) && negb (String.eqb (fst kv) "__proto__"))
    entries.

(** The returnValue read from a configuration object: its own returnValue
    when truthy, the one of its outputDisplay otherwise. *)
Definition returnValueIn (h : Host) (configObj : JsValue) : JsValue :=
  let direct := optionalGet h configObj "returnValue" in
  if truthy direct then direct
  else optionalGet h (optionalGet h configObj "outputDisplay") "returnValue".

(** The host gives objects no member called config, returnValue or
    outputDisplay. *)
Definition NoConfigMembers (h : Host) : Prop :=
  objectProto h "config" = None /\
  objectProto h "returnValue" = None /\
  objectProto h "outputDisplay" = None.

Lemma lookupProperty_object (h : Host) (props : list (string * JsValue)) (key : string) :
  lookupProperty h (JObject props) key
  = match ownProperty props key with
    | Some x => Some x
    | None => objectProto h key
    end.
Proof. reflexivity. Qed.

Lemma traverse_returns (h : Host) (output : JsValue) (keys : list string) (v : JsValue) :
  exists result, traverse h output keys v = Normal result.
Proof.
  destruct (traverse_spec h output keys v) as [[r [_ Hrun]]|[_ Hrun]]; eauto.
Qed.

Lemma assignTarget_setPrototype (h : Host) (link : JsValue) (key : string) :
  assignTarget h link key = SetPrototype -> key = "__proto__".
Proof.
  induction link as [| |b|n|s|items|props|name|proto IH props]; cbn [assignTarget];
    try discriminate.
  - destruct (String.eqb_spec key "__proto__"); [auto | discriminate].
  - destruct (ownProperty props key); [discriminate|].
    destruct (String.eqb_spec key "__proto__"); [auto | discriminate].
  - destruct (arrayIncludes _ key); [discriminate|].
    destruct (String.eqb key "prototype").
    + destruct (otherProto h (JFunction name) key); discriminate.
    + destruct (String.eqb_spec key "__proto__"); [auto | discriminate].
  - destruct (ownProperty props key); [discriminate | exact IH].
Qed.

Lemma assignTarget_plain (h : Host) (link : JsValue) (key : string) :
  plainChain link = true -> assignTarget h link key <> Refused.
Proof.
  induction link as [| |b|n|s|items|props|name|proto IH props];
    cbn [assignTarget plainChain]; try discriminate.
  - intros _. destruct (String.eqb key "__proto__"); discriminate.
  - intros _. destruct (ownProperty props key); [discriminate|].
    destruct (String.eqb key "__proto__"); discriminate.
  - intros Hplain. destruct (ownProperty props key); [discriminate | auto].
Qed.

Lemma setPrototype_plain (o : Built) (v : JsValue) :
  PlainBuilt o -> plainChain v = true -> PlainBuilt (setPrototype o v).
Proof.
  unfold PlainBuilt. intros Ho Hv. destruct v; cbn; auto.
Qed.

(** The loop of the auto-filter ends normally when no function is on the
    prototype chain of the object under construction. *)
Lemma assignKept_returns (h : Host) (o : Built) (entries : list (string * JsValue)) :
  PlainBuilt o ->
  (forall v, In ("__proto__", v) entries -> plainChain v = true) ->
  exists result, assignKept h o entries = Normal result.
Proof.
  revert o. induction entries as [|[k v] rest IH]; intros o Ho Hentries; [cbn; eauto|].
  assert (Hrest : forall v', In ("__proto__", v') rest -> plainChain v' = true)
    by (intros v' Hin; apply Hentries; now right).
  cbn [assignKept]. destruct (skipped k); [now apply IH|].
  assert (Hset : k = "__proto__" -> PlainBuilt (setPrototype o v)).
  { intros ->. apply setPrototype_plain; [exact Ho|]. apply Hentries. now left. }
  unfold assign. destruct (ownProperty (builtProps o) k).
  - apply IH; [exact Ho | exact Hrest].
  - unfold PlainBuilt in Ho. destruct (builtProto o) as [proto|] eqn:Hproto.
    + destruct (assignTarget h proto k) eqn:Htarget.
      * apply IH; [exact Ho | exact Hrest].
      * apply IH; [|exact Hrest]. apply Hset.
        now apply (assignTarget_setPrototype h proto).
      * exfalso. exact (assignTarget_plain h proto k Ho Htarget).
    + destruct (String.eqb_spec k "__proto__") as [Hk|_].
      * apply IH; [|exact Hrest]. now apply Hset.
      * apply IH; [exact I | exact Hrest].
Qed.

(** The post-processing returns normally when every value the output holds
    under [__proto__] has a chain without a function. *)
Lemma processOutput_returns (h : Host) (returnValue : option string) (output : JsValue) :
  (forall v, In ("__proto__", v) (objectEntries output) -> plainChain v = true) ->
  exists result, processOutput h returnValue output = Normal result.
Proof.
  intros Hplain. unfold processOutput.
  destruct (configured returnValue) eqn:Hc; cbn [andb negb].
  - destruct (truthy output && String.eqb (typeof output) "object"
              && negb (isArray output)).
    + destruct returnValue as [template|]; [|discriminate Hc].
      destruct (matchTemplate template); [apply traverse_returns | eauto].
    + destruct (isArray output); eauto.
  - destruct (truthy output && String.eqb (typeof output) "object"
              && negb (isArray output)); [|eauto].
    unfold autoFilter.
    destruct (assignKept_returns h emptyObject (objectEntries output) I Hplain)
      as [result ->].
    destruct (Nat.ltb 0 _); eauto.
Qed.

(** An output that is not an object, or is an array, is returned as it
    is. *)
Lemma processOutput_not_object (h : Host) (returnValue : option string) (output : JsValue) :
  objectShaped output = false ->
  processOutput h returnValue output = Normal output.
Proof.
  intros Hshape. unfold processOutput.
  destruct output as [| |b|n|s|items|props|name|proto props];
    try discriminate Hshape;
    cbn; rewrite ?andb_false_r; destruct (configured returnValue); reflexivity.
Qed.

Lemma ownKept_plain (entries : list (string * JsValue)) :
  ~ In "__proto__" (objectKeys (ownKept entries)).
Proof.
  unfold objectKeys, ownKept. rewrite in_map_iff. intros [[k v] [Hk Hin]].
  apply filter_In in Hin. destruct Hin as [_ Hkeep]. cbn in Hk, Hkeep. subst k.
  apply andb_true_iff in Hkeep. destruct Hkeep as [_ Hkeep]. discriminate Hkeep.
Qed.

Lemma kept_ownKept (entries : list (string * JsValue)) :
  kept (ownKept entries) = ownKept entries.
Proof.
  unfold kept, ownKept. induction entries as [|kv rest IH]; [reflexivity|].
  cbn [List.filter]. destruct (negb (skipped (fst kv))) eqn:Hkeep; cbn [andb]; [|exact IH].
  destruct (negb (String.eqb (fst kv) "__proto__")); [|exact IH].
  cbn [List.filter]. rewrite Hkeep. now f_equal.
Qed.

Lemma ownKept_distinct (entries : list (string * JsValue)) :
  List.NoDup (objectKeys entries) -> List.NoDup (objectKeys (ownKept entries)).
Proof.
  unfold objectKeys, ownKept. induction entries as [|[k v] rest IH]; [auto|].
  cbn [map fst List.filter]. intros Hdistinct. inversion Hdistinct as [|? ? Hnew Hrest]; subst.
  destruct (negb (skipped k) && negb (String.eqb k "__proto__")); [|auto].
  cbn [map fst]. constructor; [|auto].
  rewrite in_map_iff. intros [[k' v'] [Hk Hin]]. cbn in Hk. subst k'.
  apply filter_In in Hin. apply Hnew. apply in_map_iff. exists (k, v'). tauto.
Qed.

(** The loop on the entries of an object: what the result holds itself are
    the entries that are not skipped and whose key is not [__proto__]; its
    prototype changes only when the entry [__proto__] holds an object or
    null. *)
Lemma assignKept_own (h : Host) (o : Built) (entries : list (string * JsValue))
    (result : Built) :
  List.NoDup (objectKeys (builtProps o ++ entries)) ->
  (builtProto o <> None -> ~ In "__proto__" (objectKeys entries)) ->
  assignKept h o entries = Normal result ->
  builtProps result = (builtProps o ++ ownKept entries)%list /\
  ((forall v, In ("__proto__", v) entries -> keepsPrototype v = true) ->
   builtProto result = builtProto o).
Proof.
  revert o. induction entries as [|[k v] rest IH]; intros o Hdistinct Hproto Hrun.
  - cbn in Hrun. injection Hrun as <-. cbn. now rewrite app_nil_r.
  - destruct o as [proto props]. cbn [builtProps builtProto] in *.
    destruct (distinct_head props rest k v Hdistinct) as (Hnew & Hlater & Hskip & Hnext).
    cbn [assignKept] in Hrun. cbn [ownKept List.filter fst].
    destruct (skipped k) eqn:Hskipped; cbn [negb andb].
    + destruct (IH {| builtProto := proto; builtProps := props |} Hskip
                  (fun Hsome Hin => Hproto Hsome (or_intror Hin)) Hrun)
        as [Hprops Hkeeps].
      split; [exact Hprops|]. intros Hvalues. apply Hkeeps.
      intros v' Hin. apply Hvalues. now right.
    + unfold assign in Hrun. cbn [builtProps builtProto] in Hrun.
      rewrite (ownProperty_absent props k Hnew) in Hrun.
      assert (Hcreate :
        k <> "__proto__" ->
        assignKept h {| builtProto := proto; builtProps := props ++ [(k, v)] |} rest
        = Normal result ->
        builtProps result = (props ++ (k, v) :: ownKept rest)%list /\
        ((forall v', In ("__proto__", v') ((k, v) :: rest) -> keepsPrototype v' = true) ->
         builtProto result = proto)).
      { intros Hk Hgo.
        destruct (IH {| builtProto := proto; builtProps := props ++ [(k, v)] |} Hnext
                    (fun Hsome Hin => Hproto Hsome (or_intror Hin)) Hgo)
          as [Hprops Hkeeps]. cbn [builtProps builtProto] in *.
        split; [rewrite Hprops, <- app_assoc; reflexivity|].
        intros Hvalues. apply Hkeeps. intros v' Hin. apply Hvalues. now right. }
      destruct proto as [link|].
      * assert (Hk : k <> "__proto__")
          by (intros ->; apply (Hproto ltac:(discriminate)); now left).
        destruct (String.eqb_spec k "__proto__") as [|_]; [contradiction|]. cbn [negb].
        destruct (assignTarget h link k) eqn:Htarget.
        -- now apply Hcreate.
        -- now contradiction Hk; apply (assignTarget_setPrototype h link).
        -- discriminate Hrun.
      * destruct (String.eqb_spec k "__proto__") as [->|Hk]; cbn [negb].
        -- assert (Hafter : forall o',
                     builtProps o' = props ->
                     assignKept h o' rest = Normal result ->
                     builtProps result = (props ++ ownKept rest)%list /\
                     ((forall v', In ("__proto__", v') rest -> keepsPrototype v' = true) ->
                      builtProto result = builtProto o')).
           { intros o' Hsame Hgo. rewrite <- Hsame in Hskip |- *.
             apply (IH o' Hskip (fun _ => Hlater) Hgo). }
           assert (Hsame : builtProps (setPrototype
                                         {| builtProto := None; builtProps := props |} v)
                           = props) by (destruct v; reflexivity).
           destruct (Hafter _ Hsame Hrun) as [Hprops Hkeeps].
           split; [exact Hprops|]. intros Hvalues.
           rewrite Hkeeps by (intros v' Hin; apply Hvalues; now right).
           specialize (Hvalues v (or_introl eq_refl)).
           destruct v; try discriminate Hvalues; reflexivity.
        -- now apply Hcreate.
Qed.

(** X8.  Without a returnValue the post-processing of an object is
    idempotent on what the object holds: post-processing the result again
    returns normally and gives an object with the same entries, and the
    very same object unless the output had an entry [__proto__] holding an
    object or null, which the first pass takes for the prototype of its
    result and the second pass does not carry over. *)
Theorem auto_filter_is_idempotent_on_entries
    (h : Host) (returnValue returnValue' : option string)
    (props : list (string * JsValue)) (once : JsValue) :
  configured returnValue = false ->
  configured returnValue' = false ->
  List.NoDup (objectKeys props) ->
  processOutput h returnValue (JObject props) = Normal once ->
  exists twice,
    processOutput h returnValue' once = Normal twice /\
    objectEntries twice = objectEntries once /\
    ((forall v, In ("__proto__", v) props -> keepsPrototype v = true) -> twice = once).
Proof.
  intros Hrv Hrv' Hdistinct Honce.
  pose proof Honce as Hfirst.
  rewrite (processOutput_unconfigured h _ (JObject props) Hrv eq_refl) in Hfirst.
  cbn [objectEntries] in Hfirst. unfold autoFilter in Hfirst.
  destruct (assignKept h emptyObject props) as [built|e] eqn:Hloop; [|discriminate Hfirst].
  destruct (assignKept_own h emptyObject props built Hdistinct ltac:(intros H; now contradiction H) Hloop)
    as [Hprops Hproto].
  cbn [emptyObject builtProps builtProto app] in Hprops, Hproto.
  rewrite Hprops in Hfirst.
  destruct (ownKept props) as [|kv remaining] eqn:Hkept.
  - injection Hfirst as <-. exists (JObject props).
    split; [|split; [reflexivity | reflexivity]].
    rewrite <- Honce.
    rewrite !(processOutput_unconfigured h _ (JObject props)) by (assumption || reflexivity).
    reflexivity.
  - injection Hfirst as <-. exists (JObject (kv :: remaining)).
    assert (Hshape : objectShaped (builtValue built) = true)
      by (unfold builtValue; destruct (builtProto built); reflexivity).
    assert (Hentries : objectEntries (builtValue built) = kv :: remaining)
      by (unfold builtValue; destruct (builtProto built); exact Hprops).
    split; [|split].
    + rewrite (processOutput_unconfigured h _ _ Hrv' Hshape), Hentries, <- Hkept.
      unfold autoFilter, emptyObject.
      rewrite (assignKept_plain h [] (ownKept props)
                 (ownKept_distinct props Hdistinct) (ownKept_plain props)).
      cbn [app builtProps]. rewrite kept_ownKept, Hkept. reflexivity.
    + now rewrite Hentries.
    + intros Hvalues. unfold builtValue. rewrite (Hproto Hvalues), Hprops. reflexivity.
Qed.

Lemma auto_filter_is_idempotent_on_entries_witness :
  exists twice,
    processOutput sampleHost None
      (JDerived (JObject [("role", JString "admin")])
         [("now", JNumber 5); ("future", JNumber 9)])
    = Normal twice /\
    objectEntries twice = [("now", JNumber 5); ("future", JNumber 9)].
Proof.
  destruct (auto_filter_is_idempotent_on_entries sampleHost None None
              [("user", JNull); ("now", JNumber 5);
               ("__proto__", JObject [("role", JString "admin")]);
               ("trigger", JNull); ("future", JNumber 9)]
              (JDerived (JObject [("role", JString "admin")])
                 [("now", JNumber 5); ("future", JNumber 9)])
              eq_refl eq_refl) as [twice [Hrun [Hentries _]]].
  - repeat constructor; cbn; intuition discriminate.
  - reflexivity.
  - exists twice. split; [exact Hrun | exact Hentries].
Defined.

Section WithJson.
Variable h : Host.
Variable jsonParse : string -> Completion JsValue.

Lemma returnValueOf_returns (workflowConfig : JsValue) :
  exists value, returnValueOf h jsonParse workflowConfig = Normal value.
Proof.
  unfold returnValueOf, configObject.
  destruct (isDefined (optionalGet h (parseConfig jsonParse workflowConfig) "config"))
    eqn:Hdefined; [|eauto].
  destruct (parseConfig jsonParse workflowConfig); try discriminate Hdefined; cbn; eauto.
Qed.

(** X7.  When the post-processing throws.  An output that is not an object,
    or is an array, is returned unchanged whatever the configuration.  With
    a returnValue that is a string or falsy, the post-processing returns
    normally, provided no value that the output holds under [__proto__] has
    a function on its chain.  With a truthy returnValue that is not a
    string and has no [match] method, an object-shaped output makes it
    throw a TypeError. *)
Theorem post_processing_throws_only_on_ill_typed_return_value
    (workflowConfig output : JsValue) :
  (objectShaped output = false ->
   processedOutput h jsonParse workflowConfig output = Normal output) /\
  (forall returnValue,
     returnValueOf h jsonParse workflowConfig = Normal returnValue ->
     truthy returnValue = false \/ (exists template, returnValue = JString template) ->
     (forall v, In ("__proto__", v) (objectEntries output) -> plainChain v = true) ->
     exists result, processedOutput h jsonParse workflowConfig output = Normal result) /\
  (forall returnValue,
     returnValueOf h jsonParse workflowConfig = Normal returnValue ->
     truthy returnValue = true ->
     (forall template, returnValue <> JString template) ->
     (forall name, lookupProperty h returnValue "match" <> Some (JFunction name)) ->
     objectShaped output = true ->
     processedOutput h jsonParse workflowConfig output
     = Throw (TypeError "returnValue.match is not a function")).
Proof.
  split; [|split].
  - intros Hshape. unfold processedOutput.
    destruct (returnValueOf_returns workflowConfig) as [value ->].
    pose proof Hshape as Hguard. unfold objectShaped in Hguard.
    destruct value; cbn [truthy]; rewrite ?Hguard;
      try apply processOutput_not_object; try reflexivity; try exact Hshape;
      match goal with |- context [if ?c then _ else _] => destruct c end;
      try apply processOutput_not_object; try reflexivity; exact Hshape.
  - intros returnValue Hvalue Hkind Hplain. unfold processedOutput. rewrite Hvalue.
    destruct Hkind as [Hfalsy|[template ->]]; [|now apply processOutput_returns].
    destruct returnValue; try discriminate Hfalsy; cbn [truthy] in *; rewrite ?Hfalsy;
      now apply processOutput_returns.
  - intros returnValue Hvalue Htruthy Hother _ Hshape. unfold processedOutput.
    rewrite Hvalue. unfold objectShaped in Hshape.
    destruct returnValue; try discriminate Htruthy; cbn [truthy] in *;
      rewrite ?Htruthy, ?Hshape; try reflexivity.
    now contradiction (Hother s).
Qed.

(** X9.  Reading the returnValue out of the workflow configuration never
    throws; a configuration that is undefined, null, or a string that does
    not parse gives no returnValue, and the output is then post-processed as
    if none were configured. *)
Theorem return_value_lookup_tolerates_missing_config (workflowConfig : JsValue) :
  (exists value, returnValueOf h jsonParse workflowConfig = Normal value) /\
  ((workflowConfig = JUndefined \/ workflowConfig = JNull \/
    exists text e, workflowConfig = JString text /\ jsonParse text = Throw e) ->
   returnValueOf h jsonParse workflowConfig = Normal JUndefined /\
   forall output,
     processedOutput h jsonParse workflowConfig output = processOutput h None output).
Proof.
  split.
  - unfold returnValueOf, configObject.
    destruct (isDefined (optionalGet h (parseConfig jsonParse workflowConfig) "config"))
      eqn:Hdefined; [|eauto].
    destruct (parseConfig jsonParse workflowConfig); try discriminate Hdefined; cbn; eauto.
  - intros Hbad.
    assert (Hvalue : returnValueOf h jsonParse workflowConfig = Normal JUndefined).
    { destruct Hbad as [->|[->|[text [e [-> Hparse]]]]]; unfold returnValueOf, parseConfig;
        rewrite ?Hparse; reflexivity. }
    split; [exact Hvalue|]. intros output. unfold processedOutput. rewrite Hvalue.
    reflexivity.
Qed.

(** X10.  A configuration nested under a [config] property is the one that
    counts: when the configuration object holds a [config] that is not
    undefined, the returnValue is read from that value alone, so a
    returnValue or outputDisplay at the top level of the wrapper is ignored
    and two wrappers that hold the same [config] give the same returnValue.
    When the nested object has no [config] member itself, this is the
    returnValue of the nested object passed alone. *)
Theorem nested_config_is_the_configuration
    (wrapper : list (string * JsValue)) (inner : JsValue) :
  ownProperty wrapper "config" = Some inner ->
  inner <> JUndefined ->
  returnValueOf h jsonParse (JObject wrapper) = Normal (returnValueIn h inner) /\
  (forall other,
     ownProperty other "config" = Some inner ->
     returnValueOf h jsonParse (JObject other) = returnValueOf h jsonParse (JObject wrapper)) /\
  (forall props,
     inner = JObject props ->
     lookupProperty h inner "config" = None ->
     returnValueOf h jsonParse inner = returnValueOf h jsonParse (JObject wrapper)).
Proof.
  intros Hwrapped Hdefined.
  assert (Hread : forall holder,
            ownProperty holder "config" = Some inner ->
            returnValueOf h jsonParse (JObject holder) = Normal (returnValueIn h inner)).
  { intros holder Hholds.
    unfold returnValueOf, configObject, parseConfig, optionalGet, getProperty.
    rewrite !lookupProperty_object, Hholds.
    destruct inner; try reflexivity. now contradiction Hdefined. }
  split; [now apply Hread | split].
  - intros other Hother. now rewrite (Hread other Hother), (Hread wrapper Hwrapped).
  - intros props -> Hflat. rewrite (Hread wrapper Hwrapped).
    unfold returnValueOf, configObject, parseConfig. unfold optionalGet at 1.
    rewrite Hflat. reflexivity.
Qed.

(** X11.  [config.returnValue] comes first and the legacy
    [outputDisplay.returnValue] second: a truthy returnValue of the
    configuration is the one used, whatever outputDisplay holds; the one of
    outputDisplay is used only when the configuration has none or a falsy
    one (such as the empty string); with neither, there is no returnValue. *)
Theorem return_value_precedes_legacy_location (config : list (string * JsValue)) :
  NoConfigMembers h ->
  ownProperty config "config" = None ->
  (forall value,
     ownProperty config "returnValue" = Some value -> truthy value = true ->
     returnValueOf h jsonParse (JObject config) = Normal value) /\
  (forall display legacy,
     (ownProperty config "returnValue" = None \/
      exists value, ownProperty config "returnValue" = Some value /\ truthy value = false) ->
     ownProperty config "outputDisplay" = Some (JObject display) ->
     ownProperty display "returnValue" = Some legacy ->
     returnValueOf h jsonParse (JObject config) = Normal legacy) /\
  (ownProperty config "returnValue" = None ->
   ownProperty config "outputDisplay" = None ->
   returnValueOf h jsonParse (JObject config) = Normal JUndefined).
Proof.
  intros [Hconfig [Hreturn Hdisplay]] Hflat.
  unfold returnValueOf, configObject, parseConfig, optionalGet.
  rewrite !lookupProperty_object, Hflat, Hconfig. cbn [isDefined].
  split; [|split].
  - intros value Hvalue Htruthy. rewrite !lookupProperty_object, Hvalue, Htruthy.
    reflexivity.
  - intros display legacy Hdirect Hdisp Hlegacy.
    rewrite !lookupProperty_object, Hdisp, !lookupProperty_object, Hlegacy.
    destruct Hdirect as [Hnone|[value [Hvalue Hfalsy]]].
    + rewrite Hnone, Hreturn. reflexivity.
    + rewrite Hvalue, Hfalsy. reflexivity.
  - intros Hnone Hnodisplay.
    rewrite !lookupProperty_object, Hnone, Hnodisplay, Hreturn, Hdisplay. reflexivity.
Qed.

End WithJson.

Lemma sampleHost_no_config_members : NoConfigMembers sampleHost.
Proof. repeat split. Qed.

Lemma post_processing_throws_only_on_ill_typed_return_value_witness :
  processedOutput sampleHost sampleParse
    (JObject [("returnValue", JNumber 5)]) (JObject [("rows", JArray [])])
  = Throw (TypeError "returnValue.match is not a function") /\
  processedOutput sampleHost sampleParse
    (JObject [("returnValue", JNumber 5)]) (JString "done")
  = Normal (JString "done").
Proof.
  destruct (post_processing_throws_only_on_ill_typed_return_value sampleHost sampleParse
              (JObject [("returnValue", JNumber 5)]) (JObject [("rows", JArray [])]))
    as (_ & _ & Hthrows).
  destruct (post_processing_throws_only_on_ill_typed_return_value sampleHost sampleParse
              (JObject [("returnValue", JNumber 5)]) (JString "done"))
    as (Hsame & _ & _).
  split.
  - apply (Hthrows (JNumber 5)); try reflexivity; discriminate.
  - apply Hsame. reflexivity.
Defined.

Lemma nested_config_is_the_configuration_witness :
  returnValueOf sampleHost sampleParse
    (JObject [("returnValue", JString "{{ignored}}");
              ("config", JObject [("returnValue", JString "{{rows}}");
                                  ("config", JObject [("returnValue", JString "{{deeper}}")])])])
  = Normal (JString "{{rows}}").
Proof.
  assert (Hdefined : JObject [("returnValue", JString "{{rows}}");
                             ("config", JObject [("returnValue", JString "{{deeper}}")])]
                     <> JUndefined) by discriminate.
  exact (proj1 (nested_config_is_the_configuration sampleHost sampleParse
           [("returnValue", JString "{{ignored}}");
            ("config", JObject [("returnValue", JString "{{rows}}");
                                ("config", JObject [("returnValue", JString "{{deeper}}")])])]
           (JObject [("returnValue", JString "{{rows}}");
                     ("config", JObject [("returnValue", JString "{{deeper}}")])])
           eq_refl Hdefined)).
Defined.

Lemma return_value_precedes_legacy_location_witness :
  returnValueOf sampleHost sampleParse
    (JObject [("returnValue", JString "");
              ("outputDisplay", JObject [("type", JString "table");
                                         ("returnValue", JString "{{legacy}}")])])
  = Normal (JString "{{legacy}}").
Proof.
  apply (proj1 (proj2
    (return_value_precedes_legacy_location sampleHost sampleParse
       [("returnValue", JString "");
        ("outputDisplay", JObject [("type", JString "table");
                                   ("returnValue", JString "{{legacy}}")])]
       sampleHost_no_config_members eq_refl))
    [("type", JString "table"); ("returnValue", JString "{{legacy}}")]
    (JString "{{legacy}}")).
  - right. exists (JString ""). split; reflexivity.
  - reflexivity.
  - reflexivity.
Defined.

End RunOutputModalMore.

(** ** The run route: it always answers, and falls back by itself *)
Module RunRouteFacts.
Import Js Http Broker WorkflowQueue WorkflowQueueFacts RunOutputModalFacts RunRoute.

(** The body the handler works with. *)
Definition bodyOf (parsedBody : option JsValue) : JsValue :=
  match parsedBody with
  | Some parsed => parsed
  | None => JObject []
  end.

(** [body.triggerData || {}] for a body that is neither null nor undefined. *)
Definition triggerDataOf (h : Host) (body : JsValue) : JsValue :=
  match lookupProperty h body "triggerData" with
  | Some requested => if truthy requested then requested else JObject []
  | None => JObject []
  end.

(** [body.priority], when it is a number. *)
Definition priorityOf (h : Host) (body : JsValue) : option Z :=
  match lookupProperty h body "priority" with
  | Some requested => asNumber requested
  | None => None
  end.

(** The [success] member of a response body. *)
Definition successOf (r : Response) : option JsValue :=
  match body r with
  | JObject props => ownProperty props "success"
  | _ => None
  end.

Section WithExecutor.
Variable h : Host.
Variable ExecutorState : Type.
Variable executeWorkflow :
  string -> string -> TriggerType -> option JsValue ->
  ExecutorState -> Completion ExecutionResult * ExecutorState.

(** The answer to a direct run. *)
Definition directAnswer (outcome : Completion ExecutionResult) : Response :=
  match outcome with
  | Normal result =>
      if success result
      then json (JObject [("success", JBool true);
                          ("output", optionalValue (output result));
                          ("queued", JBool false)]) 200
      else json (JObject [("success", JBool false);
                          ("error", optionalString (error result));
                          ("errorStep", optionalString (errorStep result))]) 500
  | Throw e =>
      json (JObject [("success", JBool false); ("error", JString (errorMessage e))]) 500
  end.

Lemma getProperty_readable (body : JsValue) (key : string) :
  body <> JNull -> body <> JUndefined ->
  getProperty h body key
  = Normal (match lookupProperty h body key with Some x => x | None => JUndefined end).
Proof. intros Hnull Hundef. destruct body; try reflexivity; congruence. Qed.

(** The handler on a request it can read, without the queue. *)
Lemma POST_direct (user id : string) (parsedBody : option JsValue)
    (w : World ExecutorState) :
  user <> "" ->
  bodyOf parsedBody <> JNull -> bodyOf parsedBody <> JUndefined ->
  isWorkflowQueueAvailable w = false ->
  POST h ExecutorState executeWorkflow (Some user) id parsedBody w
  = (Normal (directAnswer
               (fst (executeWorkflow id user manual
                       (Some (triggerDataOf h (bodyOf parsedBody))) (executor w)))),
     {| REDIS_URL := REDIS_URL w; brokerReachable := brokerReachable w;
        queues := queues w; workers := workers w;
        executor := snd (executeWorkflow id user manual
                           (Some (triggerDataOf h (bodyOf parsedBody))) (executor w));
        invocations := invocations w ++
          [{| workflowId := id; userId := user; triggerType := manual;
              triggerData := Some (triggerDataOf h (bodyOf parsedBody)) |}];
        logged := match fst (executeWorkflow id user manual
                               (Some (triggerDataOf h (bodyOf parsedBody)))
                               (executor w)) with
                  | Normal _ => logged w
                  | Throw _ => logged w ++ [(error_, "Failed to execute workflow")]
                  end |}).
Proof.
  intros Huser Hnull Hundef Hqueue. unfold POST.
  destruct (String.eqb_spec user "") as [->|_]; [contradiction|].
  fold (bodyOf parsedBody).
  unfold tryCatch, bind, evaluate.
  rewrite !(getProperty_readable _ _ Hnull Hundef), Hqueue.
  rewrite callExecuteWorkflow_eq. unfold triggerDataOf.
  destruct (lookupProperty h (bodyOf parsedBody) "triggerData") as [requested|];
    cbn [truthy];
    match goal with
    | |- context [executeWorkflow id user manual ?td (executor w)] =>
        destruct (executeWorkflow id user manual td (executor w)) as [[result|e] state']
    end; unfold directAnswer, ret, log; cbn [fst snd negb];
    try (destruct (success result)); reflexivity.
Qed.

(** The handler on a request it can read, with the queue available. *)
Lemma POST_queued (user id : string) (parsedBody : option JsValue)
    (w : World ExecutorState) :
  user <> "" ->
  bodyOf parsedBody <> JNull -> bodyOf parsedBody <> JUndefined ->
  isWorkflowQueueAvailable w = true ->
  exists q job q',
    queues w !! WORKFLOW_QUEUE_NAME = Some q /\
    addToQueue ("workflow-" +:+ id)
      {| workflowId := id; userId := user; triggerType := manual;
         triggerData := Some (triggerDataOf h (bodyOf parsedBody)) |}
      {| priority := orDefault (priorityOf h (bodyOf parsedBody)) 5; delay := None |} q
      = (job, q') /\
    POST h ExecutorState executeWorkflow (Some user) id parsedBody w
    = (Normal (json (JObject
                       [("success", JBool true);
                        ("queued", JBool true);
                        ("jobId", JString (if isSet (jobId job) then interpolate (jobId job)
                                           else "unknown"));
                        ("message", JString "Workflow queued for execution")]) 200),
       {| REDIS_URL := REDIS_URL w; brokerReachable := brokerReachable w;
          queues := <[WORKFLOW_QUEUE_NAME := q']> (queues w); workers := workers w;
          executor := executor w; invocations := invocations w;
          logged := logged w ++ [(info, "Workflow queued for execution")] |}).
Proof.
  intros Huser Hnull Hundef Hqueue. unfold POST.
  destruct (String.eqb_spec user "") as [->|_]; [contradiction|].
  fold (bodyOf parsedBody).
  unfold tryCatch, bind, evaluate.
  rewrite !(getProperty_readable _ _ Hnull Hundef), Hqueue.
  pose proof Hqueue as Hregistered. unfold isWorkflowQueueAvailable in Hregistered.
  apply andb_true_iff in Hregistered. destruct Hregistered as [Hset Hq].
  destruct (queues w !! WORKFLOW_QUEUE_NAME) as [q|] eqn:Hlookup; [|discriminate Hq].
  destruct (queueWorkflowExecution_queued ExecutorState executeWorkflow id user manual
              (Some (triggerDataOf h (bodyOf parsedBody)))
              (Some {| optPriority := priorityOf h (bodyOf parsedBody); optDelay := None |})
              w q Hset Hlookup) as [job [q' [Hadd Heq]]].
  exists q, job, q'. split; [reflexivity|]. split; [exact Hadd|].
  unfold triggerDataOf, priorityOf in Heq |- *.
  destruct (lookupProperty h (bodyOf parsedBody) "triggerData") as [requested|];
    destruct (lookupProperty h (bodyOf parsedBody) "priority") as [wanted|];
    cbn [asNumber truthy] in Heq |- *; rewrite Heq; reflexivity.
Qed.

(** The handler on a body that is null. *)
Lemma POST_unreadable (user id : string) (parsedBody : option JsValue)
    (w : World ExecutorState) :
  user <> "" ->
  bodyOf parsedBody = JNull \/ bodyOf parsedBody = JUndefined ->
  exists message,
    POST h ExecutorState executeWorkflow (Some user) id parsedBody w
    = (Normal (json (JObject [("success", JBool false); ("error", JString message)]) 500),
       {| REDIS_URL := REDIS_URL w; brokerReachable := brokerReachable w;
          queues := queues w; workers := workers w;
          executor := executor w; invocations := invocations w;
          logged := logged w ++ [(error_, "Failed to execute workflow")] |}).
Proof.
  intros Huser Hbody. unfold POST.
  destruct (String.eqb_spec user "") as [->|_]; [contradiction|].
  fold (bodyOf parsedBody). unfold tryCatch, bind, evaluate.
  destruct Hbody as [-> | ->]; eexists; reflexivity.
Qed.

(** X12.  The run route always answers: it never throws, whatever the
    session, the body and the state of the queue; its status is 401, 200 or
    500; it is 401 exactly when there is no session user, and then nothing
    is run, queued or logged; it is 200 exactly when the answer says
    success: true. *)
Theorem run_route_always_answers
    (sessionUserId : option string) (id : string) (parsedBody : option JsValue)
    (w : World ExecutorState) :
  exists response,
    fst (POST h ExecutorState executeWorkflow sessionUserId id parsedBody w)
      = Normal response /\
    (status response = 401%Z \/ status response = 200%Z \/ status response = 500%Z) /\
    (status response = 401%Z <-> isSet sessionUserId = false) /\
    (isSet sessionUserId = false ->
     snd (POST h ExecutorState executeWorkflow sessionUserId id parsedBody w) = w) /\
    (status response = 200%Z <-> successOf response = Some (JBool true)).
Proof.
  destruct sessionUserId as [user|].
  2: { eexists. split; [reflexivity|]. cbn.
       repeat split; auto; try discriminate; intros; discriminate. }
  destruct (String.eqb_spec user "") as [->|Huser].
  { eexists. split; [reflexivity|]. cbn.
    repeat split; auto; try discriminate; intros; discriminate. }
  assert (Hset : isSet (Some user) = true).
  { cbn. destruct (String.eqb_spec user ""); [contradiction | reflexivity]. }
  rewrite Hset.
  destruct (bodyOf parsedBody) as [| |b|n|s|items|props|name|proto props] eqn:Hbody.
  1, 2: destruct (POST_unreadable user id parsedBody w Huser) as [message Heq];
    [rewrite Hbody; auto | rewrite Heq; eexists; split; [reflexivity|]; cbn;
     repeat split; auto; try discriminate; intros; discriminate].
  all: destruct (isWorkflowQueueAvailable w) eqn:Hqueue.
  all: try (destruct (POST_queued user id parsedBody w Huser) as [q [job [q' [_ [_ Heq]]]]];
            [rewrite Hbody; discriminate | rewrite Hbody; discriminate | exact Hqueue|];
            rewrite Heq; eexists; split; [reflexivity|]; cbn;
            repeat split; auto; try discriminate; intros; discriminate).
  all: rewrite POST_direct by (rewrite ?Hbody; auto; discriminate);
    eexists; (split; [reflexivity|]); unfold directAnswer;
    destruct (fst (executeWorkflow _ _ _ _ _)) as [result|e];
    try (destruct (success result)); cbn;
    repeat split; auto; try discriminate; intros; discriminate.
Qed.

(** X13.  When the queue is unavailable -- REDIS_URL unset, or set with no
    queue registered -- the run route runs the workflow itself, once, as a
    manual trigger with [body.triggerData || {}]; it answers 200 with the
    output and queued: false when the run succeeds, 500 with the run's error
    and errorStep when it fails, and 500 with the message when the executor
    rejects.  The queue is not touched. *)
Theorem run_route_falls_back_to_direct_execution
    (user id : string) (parsedBody : option JsValue) (w : World ExecutorState) :
  user <> "" ->
  bodyOf parsedBody <> JNull -> bodyOf parsedBody <> JUndefined ->
  isWorkflowQueueAvailable w = false ->
  fst (POST h ExecutorState executeWorkflow (Some user) id parsedBody w)
    = Normal (directAnswer
                (fst (executeWorkflow id user manual
                        (Some (triggerDataOf h (bodyOf parsedBody))) (executor w)))) /\
  executor (snd (POST h ExecutorState executeWorkflow (Some user) id parsedBody w))
    = snd (executeWorkflow id user manual
             (Some (triggerDataOf h (bodyOf parsedBody))) (executor w)) /\
  invocations (snd (POST h ExecutorState executeWorkflow (Some user) id parsedBody w))
    = (invocations w ++
       [{| workflowId := id; userId := user; triggerType := manual;
           triggerData := Some (triggerDataOf h (bodyOf parsedBody)) |}])%list /\
  queues (snd (POST h ExecutorState executeWorkflow (Some user) id parsedBody w))
    = queues w.
Proof.
  intros Huser Hnull Hundef Hqueue.
  rewrite (POST_direct user id parsedBody w Huser Hnull Hundef Hqueue).
  repeat split; reflexivity.
Qed.

(** X14.  When the queue is available the run route only queues the run: it
    answers 200 with success: true, queued: true and a non-empty job id,
    without running the executor, so the answer says nothing about whether
    the workflow will succeed.  The job is a manual trigger for the session
    user, with [body.triggerData || {}] and priority [body.priority || 5]
    ([body.priority] being a number when it is truthy, as it is declared). *)
Theorem run_route_queues_when_available
    (user id : string) (parsedBody : option JsValue) (w : World ExecutorState) :
  user <> "" ->
  bodyOf parsedBody <> JNull -> bodyOf parsedBody <> JUndefined ->
  (forall wanted,
     lookupProperty h (bodyOf parsedBody) "priority" = Some wanted ->
     truthy wanted = true -> exists n, wanted = JNumber n) ->
  isWorkflowQueueAvailable w = true ->
  exists jobIdText q q' job,
    fst (POST h ExecutorState executeWorkflow (Some user) id parsedBody w)
      = Normal (json (JObject [("success", JBool true);
                               ("queued", JBool true);
                               ("jobId", JString jobIdText);
                               ("message", JString "Workflow queued for execution")]) 200) /\
    jobIdText <> "" /\
    executor (snd (POST h ExecutorState executeWorkflow (Some user) id parsedBody w))
      = executor w /\
    invocations (snd (POST h ExecutorState executeWorkflow (Some user) id parsedBody w))
      = invocations w /\
    queues w !! WORKFLOW_QUEUE_NAME = Some q /\
    queues (snd (POST h ExecutorState executeWorkflow (Some user) id parsedBody w))
      !! WORKFLOW_QUEUE_NAME = Some q' /\
    (waiting q' = (waiting q ++ [job])%list) /\
    jobData job = {| workflowId := id; userId := user; triggerType := manual;
                     triggerData := Some (triggerDataOf h (bodyOf parsedBody)) |} /\
    priority (jobOptions job) = orDefault (priorityOf h (bodyOf parsedBody)) 5.
Proof.
  intros Huser Hnull Hundef _ Hqueue.
  destruct (POST_queued user id parsedBody w Huser Hnull Hundef Hqueue)
    as [q [job [q' [Hq [Hadd Heq]]]]].
  rewrite Heq. cbn [fst snd]. world_fields.
  eexists. exists q, q', job. split; [reflexivity|].
  split; [apply WorkflowQueueUse.reported_job_id_not_empty|].
  split; [reflexivity|]. split; [reflexivity|]. split; [exact Hq|].
  split; [apply lookup_insert_eq|].
  unfold addToQueue in Hadd. injection Hadd as <- <-. repeat split.
Qed.

(** X15.  A request whose body is the JSON value null is answered with 500
    and success: false: reading [body.triggerData] throws, the handler
    catches it, and nothing is run or queued. *)
Theorem run_route_rejects_null_body
    (user id : string) (w : World ExecutorState) :
  user <> "" ->
  exists message,
    fst (POST h ExecutorState executeWorkflow (Some user) id (Some JNull) w)
      = Normal (json (JObject [("success", JBool false); ("error", JString message)]) 500) /\
    executor (snd (POST h ExecutorState executeWorkflow (Some user) id (Some JNull) w))
      = executor w /\
    invocations (snd (POST h ExecutorState executeWorkflow (Some user) id (Some JNull) w))
      = invocations w /\
    queues (snd (POST h ExecutorState executeWorkflow (Some user) id (Some JNull) w))
      = queues w.
Proof.
  intros Huser.
  destruct (POST_unreadable user id (Some JNull) w Huser (or_introl eq_refl))
    as [message Heq].
  exists message. rewrite Heq. repeat split; reflexivity.
Qed.

End WithExecutor.

Lemma run_route_falls_back_to_direct_execution_witness :
  fst (POST sampleHost nat sampleExecutor (Some "user-1") "failing"
         (Some (JObject [("triggerData", JObject [("n", JNumber 1)])])) (startupWorld true))
    = Normal (json (JObject [("success", JBool false);
                             ("error", JString "boom");
                             ("errorStep", JString "s1")]) 500) /\
  fst (POST sampleHost nat sampleExecutor (Some "user-1") "wf-1" None bareWorld)
    = Normal (json (JObject [("success", JBool true);
                             ("output", JObject [("now", JNumber 5)]);
                             ("queued", JBool false)]) 200).
Proof.
  split.
  - apply (run_route_falls_back_to_direct_execution sampleHost nat sampleExecutor
             "user-1" "failing"
             (Some (JObject [("triggerData", JObject [("n", JNumber 1)])]))
             (startupWorld true));
      [discriminate | discriminate | discriminate | reflexivity].
  - apply (run_route_falls_back_to_direct_execution sampleHost nat sampleExecutor
             "user-1" "wf-1" None bareWorld);
      [discriminate | discriminate | discriminate | reflexivity].
Defined.

Lemma run_route_queues_when_available_witness :
  exists jobIdText,
    fst (POST sampleHost nat sampleExecutor (Some "user-1") "failing"
           (Some (JObject [("priority", JNumber 2)])) startedUp)
      = Normal (json (JObject [("success", JBool true);
                               ("queued", JBool true);
                               ("jobId", JString jobIdText);
                               ("message", JString "Workflow queued for execution")]) 200) /\
    executor (snd (POST sampleHost nat sampleExecutor (Some "user-1") "failing"
                     (Some (JObject [("priority", JNumber 2)])) startedUp)) = 0.
Proof.
  destruct (run_route_queues_when_available sampleHost nat sampleExecutor
              "user-1" "failing" (Some (JObject [("priority", JNumber 2)])) startedUp)
    as [jobIdText [q [q' [job [Hanswer [_ [Hexecutor _]]]]]]];
    [discriminate | discriminate | discriminate
    | intros wanted Hwanted _; vm_compute in Hwanted; injection Hwanted as <-; eauto
    | reflexivity |].
  exists jobIdText. split; [exact Hanswer | exact Hexecutor].
Defined.

Lemma run_route_rejects_null_body_witness :
  exists message,
    fst (POST sampleHost nat sampleExecutor (Some "user-1") "wf-1" (Some JNull) startedUp)
      = Normal (json (JObject [("success", JBool false); ("error", JString message)]) 500).
Proof.
  destruct (run_route_rejects_null_body sampleHost nat sampleExecutor "user-1" "wf-1"
              startedUp) as [message [Hanswer _]]; [discriminate|].
  exists message. exact Hanswer.
Defined.

End RunRouteFacts.

(** ** The external API: who is let in, and what is written down *)
Module ExternalApiFacts.
Import Js Http Broker WorkflowQueue WorkflowQueueFacts RunOutputModalFacts ExternalApi.

(** What a value stores under [key]: an own property of the object or of
    the array, or, for an object whose prototype was replaced, an own
    property of an object on its chain.  The built-in members of the host
    are not stored. *)
Fixpoint storedProperty (v : JsValue) (key : string) : option JsValue :=
  match v with
  | JObject props => ownProperty props key
  | JArray items => arrayOwnProperty items key
  | JDerived proto props =>
      match ownProperty props key with
      | Some x => Some x
      | None => storedProperty proto key
      end
  | _ => None
  end.

(** No built-in member of the host is the boolean true, whatever it is (a
    function, or an object as under [__proto__]), and no built-in member of
    ordinary objects stores the boolean true. *)
Definition StandardHost (h : Host) : Prop :=
  (forall key, objectProto h key <> Some (JBool true)) /\
  (forall key, arrayProto h key <> Some (JBool true)) /\
  (forall x key, otherProto h x key <> Some (JBool true)) /\
  (forall key v action,
     objectProto h key = Some v -> storedProperty v action <> Some (JBool true)).

(** A host as an engine has it: besides the functions, ordinary objects
    inherit [__proto__], which reads as the object that holds them. *)
Definition engineHost : Host :=
  {| objectProto := fun key =>
       if String.eqb key "__proto__"
       then Some (JDerived JNull
                    [("constructor", JFunction "Object");
                     ("hasOwnProperty", JFunction "hasOwnProperty");
                     ("toString", JFunction "toString");
                     ("valueOf", JFunction "valueOf")])
       else objectProto sampleHost key;
     arrayProto := arrayProto sampleHost;
     otherProto := fun _ _ => None |}.

(** A key row without its [lastUsedAt]. *)
Definition withoutLastUsed (row : ApiKeyRow) : ApiKeyRow :=
  {| keyId := keyId row; keyName := keyName row; keyHash := keyHash row;
     keyPrefix := keyPrefix row; keyUserId := keyUserId row;
     keyPermissions := keyPermissions row; lastUsedAt := None;
     expiresAt := expiresAt row; isActive := isActive row; createdAt := createdAt row;
     revokedAt := revokedAt row |}.

(** A key row that can be used at time [now]. *)
Definition Usable (now : Z) (row : ApiKeyRow) : Prop :=
  isActive row = true /\ revokedAt row = None /\
  forall expiry, expiresAt row = Some expiry -> (now <= expiry)%Z.

Lemma sampleHost_member (key : string) (v : JsValue) :
  objectProto sampleHost key = Some v \/ arrayProto sampleHost key = Some v ->
  v = JFunction key.
Proof.
  cbn [objectProto arrayProto sampleHost]. intros [H|H];
    match type of H with
    | (if ?known then _ else _) = _ => destruct known
    end; try discriminate; now injection H.
Qed.

Lemma engineHost_standard : StandardHost engineHost.
Proof.
  split; [|split; [|split]].
  - intros key H. cbn [objectProto engineHost] in H.
    destruct (String.eqb key "__proto__"); [discriminate|].
    discriminate (sampleHost_member key _ (or_introl H)).
  - intros key H. cbn [arrayProto engineHost] in H.
    discriminate (sampleHost_member key _ (or_intror H)).
  - intros x key. discriminate.
  - intros key v action H. cbn [objectProto engineHost] in H.
    destruct (String.eqb key "__proto__").
    + injection H as <-. cbn [storedProperty ownProperty].
      repeat match goal with
             | |- context [String.eqb ?k action] => destruct (String.eqb k action)
             end; discriminate.
    + rewrite (sampleHost_member key v (or_introl H)). discriminate.
Qed.

Lemma isTrue_spec (v : JsValue) : isTrue v = true <-> v = JBool true.
Proof.
  split; [|intros ->; reflexivity].
  destruct v as [| |[]| | | | | |]; try discriminate. reflexivity.
Qed.

Lemma getProperty_of_truthy (h : Host) (v : JsValue) (key : string) :
  truthy v = true ->
  getProperty h v key
  = Normal (match lookupProperty h v key with Some x => x | None => JUndefined end).
Proof. destruct v; try discriminate; reflexivity. Qed.

Lemma indexKey_not_proto (i : nat) : indexKey i <> "__proto__".
Proof. unfold indexKey. destruct (Nat.to_uint i); discriminate. Qed.

Lemma arrayOwnProperty_proto (items : list JsValue) :
  arrayOwnProperty items "__proto__" = None.
Proof.
  unfold arrayOwnProperty.
  assert (Helement : forall i, arrayElement items i "__proto__" = None).
  { induction items as [|x rest IH]; intros i; [reflexivity|]. cbn [arrayElement].
    destruct (String.eqb_spec (indexKey i) "__proto__") as [Hkey|_]; [|apply IH].
    now contradiction (indexKey_not_proto i). }
  now rewrite Helement.
Qed.

(** Up the chain, a member other than [__proto__] is the boolean true only
    when an object on the chain stores it. *)
Lemma inheritedProperty_true (h : Host) (link : JsValue) (key : string) :
  StandardHost h ->
  inheritedProperty h link key = Some (JBool true) <->
  storedProperty link key = Some (JBool true).
Proof.
  intros (Hobject & Harray & Hother & _).
  induction link as [| |b|n|s|items|props|name|proto IH props];
    cbn [inheritedProperty storedProperty]; try (split; discriminate).
  - destruct (arrayOwnProperty items key); [reflexivity|].
    split; [intros H; now contradiction (Harray key) | discriminate].
  - destruct (ownProperty props key); [reflexivity|].
    split; [intros H; now contradiction (Hobject key) | discriminate].
  - split; [intros H; now contradiction (Hother (JFunction name) key) | discriminate].
  - destruct (ownProperty props key); [reflexivity | exact IH].
Qed.

(** Up the chain, [__proto__] reads as the prototype, an object or null,
    unless an object on the chain stores a value under that name. *)
Lemma inheritedProto_true (proto link : JsValue) :
  proto <> JBool true ->
  inheritedProto proto link = Some (JBool true) <->
  storedProperty link "__proto__" = Some (JBool true).
Proof.
  intros Hproto.
  induction link as [| |b|n|s|items|props|name|next IH props];
    cbn [inheritedProto storedProperty]; try (split; discriminate).
  - rewrite arrayOwnProperty_proto. split; [congruence | discriminate].
  - destruct (ownProperty props "__proto__"); [reflexivity|].
    split; [congruence | discriminate].
  - split; [congruence | discriminate].
  - destruct (ownProperty props "__proto__"); [reflexivity | exact IH].
Qed.

(** Under a standard host, only a member that the holder stores can be the
    boolean true. *)
Lemma member_is_true (h : Host) (holder : JsValue) (action : string) :
  StandardHost h ->
  isTrue (match lookupProperty h holder action with Some x => x | None => JUndefined end)
    = true <->
  storedProperty holder action = Some (JBool true).
Proof.
  intros Hstandard. pose proof Hstandard as (Hobject & Harray & Hother & _).
  rewrite isTrue_spec.
  assert (Hread : forall found : option JsValue,
             match found with Some x => x | None => JUndefined end = JBool true <->
             found = Some (JBool true)).
  { intros [x|]; split; intros H; try discriminate; congruence. }
  rewrite Hread.
  destruct holder as [| |b|n|s|items|props|name|proto props];
    cbn [lookupProperty storedProperty];
    try (split; [intros H; now contradiction (Hother _ _ H) | discriminate]).
  - destruct (arrayOwnProperty items action); [reflexivity|].
    split; [intros H; now contradiction (Harray action) | discriminate].
  - destruct (ownProperty props action); [reflexivity|].
    split; [intros H; now contradiction (Hobject action) | discriminate].
  - destruct (ownProperty props action); [reflexivity|].
    destruct (String.eqb_spec action "__proto__") as [->|_].
    + destruct proto as [| |[]| | | | | |];
        try (apply inheritedProto_true; discriminate); split; discriminate.
    + now apply inheritedProperty_true.
Qed.

(** X16.  [checkPermission] grants exactly what is stored: on a permissions
    object it returns true if and only if the object itself holds, under the
    resource, a value that stores the boolean true under the action.  A
    missing resource, a missing action, and any other value (false, 1, the
    string true) give false; it throws only when the permissions are null
    or undefined. *)
Theorem check_permission_grants_only_stored_true
    (h : Host) (permissions : JsValue) (resource action : string) :
  StandardHost h ->
  (permissions <> JNull -> permissions <> JUndefined ->
   exists granted, checkPermission h permissions resource action = Normal granted) /\
  (forall perms,
     permissions = JObject perms ->
     (checkPermission h permissions resource action = Normal true <->
      exists holder,
        ownProperty perms resource = Some holder /\
        storedProperty holder action = Some (JBool true))).
Proof.
  intros Hstandard. split.
  - intros Hnull Hundef. unfold checkPermission.
    assert (Hread : getProperty h permissions resource
                    = Normal (match lookupProperty h permissions resource with
                              | Some x => x
                              | None => JUndefined
                              end))
      by (destruct permissions; try reflexivity; congruence).
    rewrite Hread.
    destruct (truthy (match lookupProperty h permissions resource with
                      | Some x => x
                      | None => JUndefined
                      end)) eqn:Htruthy; cbn [negb]; [|eauto].
    rewrite (getProperty_of_truthy h _ action Htruthy). eauto.
  - intros perms ->. unfold checkPermission. cbn [getProperty lookupProperty].
    destruct (ownProperty perms resource) as [holder|] eqn:Hown.
    + destruct (truthy holder) eqn:Htruthy; cbn [negb].
      * rewrite (getProperty_of_truthy h holder action Htruthy). split.
        -- intros H. injection H as H. exists holder. split; [reflexivity|].
           now apply (member_is_true h holder action Hstandard).
        -- intros [x [Hx Hm]]. injection Hx as <-. f_equal.
           now apply (member_is_true h holder action Hstandard).
      * split; [discriminate|]. intros [x [Hx Hm]]. injection Hx as <-.
        destruct holder; discriminate.
    + split; [|intros [x [Hx _]]; discriminate Hx].
      destruct (objectProto h resource) as [v|] eqn:Hp; [|discriminate].
      destruct (truthy v) eqn:Htruthy; cbn [negb]; [|discriminate].
      rewrite (getProperty_of_truthy h v action Htruthy). intros H. injection H as H.
      apply (member_is_true h v action Hstandard) in H.
      destruct Hstandard as (_ & _ & _ & Hmember).
      now contradiction (Hmember resource v action Hp).
Qed.

Lemma check_permission_grants_only_stored_true_witness :
  checkPermission engineHost
    (JObject [("workflows", JObject [("read", JBool true); ("execute", JBool true)]);
              ("modules", JObject [("read", JNumber 1)])])
    "workflows" "execute" = Normal true /\
  checkPermission engineHost
    (JObject [("workflows", JObject [("read", JBool true); ("execute", JBool true)]);
              ("modules", JObject [("read", JNumber 1)])])
    "__proto__" "execute" = Normal false.
Proof.
  split.
  - apply (proj2 (check_permission_grants_only_stored_true engineHost _ "workflows" "execute"
                    engineHost_standard) _ eq_refl).
    eexists. split; reflexivity.
  - destruct (proj1 (check_permission_grants_only_stored_true engineHost
                       (JObject [("workflows",
                                  JObject [("read", JBool true); ("execute", JBool true)]);
                                 ("modules", JObject [("read", JNumber 1)])])
                       "__proto__" "execute" engineHost_standard))
      as [granted Hrun]; try discriminate.
    rewrite Hrun. vm_compute in Hrun. symmetry. exact Hrun.
Defined.

(** Reads the fields of an updated server. *)
Ltac server_fields :=
  cbn [process database clock idsDrawn apiKeys workflows apiAuditLog faults fst snd] in *.

(** What the key lookup finds is a stored row that the [where] clause lets
    through. *)
Lemma found_key_is_usable (hash : string) (rows rest : list ApiKeyRow) (row : ApiKeyRow) :
  firstn 1 (List.filter (usableKey hash) rows) = row :: rest ->
  In row rows /\ keyHash row = hash /\ isActive row = true /\ revokedAt row = None.
Proof.
  intros Hfound.
  assert (Hin : In row (List.filter (usableKey hash) rows)).
  { destruct (List.filter (usableKey hash) rows) as [|first others]; [discriminate|].
    cbn in Hfound. injection Hfound as -> _. now left. }
  apply filter_In in Hin. destruct Hin as [Hin Husable]. split; [exact Hin|].
  unfold usableKey in Husable. apply andb_true_iff in Husable.
  destruct Husable as [Husable Hrevoked]. apply andb_true_iff in Husable.
  destruct Husable as [Hhash Hactive].
  split; [now apply String.eqb_eq|]. split.
  - destruct (isActive row); [reflexivity | discriminate].
  - destruct (revokedAt row); [discriminate | reflexivity].
Qed.

Lemma replaceFirst_unfold (pattern replacement s : string) :
  replaceFirst pattern replacement s =
  if String.prefix pattern s then replacement +:+ dropChars (String.length pattern) s
  else
    match s with
    | EmptyString => EmptyString
    | String c rest => String c (replaceFirst pattern replacement rest)
    end.
Proof. destruct s; reflexivity. Qed.

Lemma dropChars_app (pattern rest : string) :
  dropChars (String.length pattern) (pattern +:+ rest) = rest.
Proof. induction pattern as [|c pattern IH]; [destruct rest; reflexivity | exact IH]. Qed.

(** Replacing a pattern that starts the string removes that start. *)
Lemma replaceFirst_prefix (pattern replacement rest : string) :
  replaceFirst pattern replacement (pattern +:+ rest) = replacement +:+ rest.
Proof.
  rewrite replaceFirst_unfold.
  assert (Hprefix : String.prefix pattern (pattern +:+ rest) = true)
    by (apply prefix_spec; now exists rest).
  rewrite Hprefix, dropChars_app. reflexivity.
Qed.

(** The key that is hashed is the header without its [Bearer ] prefix. *)
Lemma bearer_key (authHeader : string) :
  String.prefix "Bearer b0t_" authHeader = true ->
  authHeader = "Bearer " +:+ replaceFirst "Bearer " "" authHeader /\
  String.prefix "b0t_" (replaceFirst "Bearer " "" authHeader) = true.
Proof.
  intros Hprefix. apply prefix_spec in Hprefix. destruct Hprefix as [rest ->].
  change ("Bearer b0t_" +:+ rest) with ("Bearer " +:+ ("b0t_" +:+ rest)).
  rewrite replaceFirst_prefix. split; [reflexivity|].
  apply prefix_spec. now exists rest.
Qed.

Lemma map_touch_withoutLastUsed (id : string) (at_ : Z) (rows : list ApiKeyRow) :
  map withoutLastUsed
    (map (fun row =>
            if String.eqb (keyId row) id
            then {| keyId := keyId row; keyName := keyName row; keyHash := keyHash row;
                    keyPrefix := keyPrefix row; keyUserId := keyUserId row;
                    keyPermissions := keyPermissions row; lastUsedAt := Some at_;
                    expiresAt := expiresAt row; isActive := isActive row;
                    createdAt := createdAt row; revokedAt := revokedAt row |}
            else row) rows)
  = map withoutLastUsed rows.
Proof.
  rewrite map_map. apply map_ext. intros row.
  destruct (String.eqb (keyId row) id); reflexivity.
Qed.

(** The update that [touchApiKey] makes to one row. *)
Definition touched (id : string) (at_ : Z) (row : ApiKeyRow) : ApiKeyRow :=
  if String.eqb (keyId row) id
  then {| keyId := keyId row; keyName := keyName row; keyHash := keyHash row;
          keyPrefix := keyPrefix row; keyUserId := keyUserId row;
          keyPermissions := keyPermissions row; lastUsedAt := Some at_;
          expiresAt := expiresAt row; isActive := isActive row;
          createdAt := createdAt row; revokedAt := revokedAt row |}
  else row.

(** [expiresAt && expiresAt < now] *)
Definition expiredAt (now : Z) (row : ApiKeyRow) : bool :=
  match expiresAt row with
  | Some expiry => Z.ltb expiry now
  | None => false
  end.

Section WithServer.
Variable ExecutorState : Type.
Variable sha256hex : string -> string.

(** Two servers that differ at most in the faults still to come. *)
Definition SameTables (s s' : Server ExecutorState) : Prop :=
  process s' = process s /\ clock s' = clock s /\ idsDrawn s' = idsDrawn s /\
  apiKeys (database s') = apiKeys (database s) /\
  workflows (database s') = workflows (database s) /\
  apiAuditLog (database s') = apiAuditLog (database s).

(** Two servers that differ at most in the keys table and the faults. *)
Definition SameButKeys (s s' : Server ExecutorState) : Prop :=
  process s' = process s /\ clock s' = clock s /\ idsDrawn s' = idsDrawn s /\
  workflows (database s') = workflows (database s) /\
  apiAuditLog (database s') = apiAuditLog (database s).

Lemma SameTables_refl (s : Server ExecutorState) : SameTables s s.
Proof. repeat split. Qed.

Lemma SameTables_trans (s1 s2 s3 : Server ExecutorState) :
  SameTables s1 s2 -> SameTables s2 s3 -> SameTables s1 s3.
Proof. unfold SameTables. intuition congruence. Qed.

(** A query that reads either rejects or returns what it read; the tables
    stay as they were. *)
Lemma reading_query {A : Type} (read : Database -> A) (s : Server ExecutorState) :
  exists s', SameTables s s' /\ faults (database s') = tl (faults (database s)) /\
    ((hd false (faults (database s)) = true /\
      query (fun db => (read db, db)) s = (Throw (Error "database error"), s')) \/
     (hd false (faults (database s)) = false /\
      exists db, apiKeys db = apiKeys (database s) /\
                 workflows db = workflows (database s) /\
                 apiAuditLog db = apiAuditLog (database s) /\
                 query (fun db => (read db, db)) s = (Normal (read db), s'))).
Proof.
  unfold query. destruct (faults (database s)) as [|[] later].
  - eexists. split; [|split; [|right; split; [reflexivity|];
                               eexists; split; [|split; [|split]]]].
    6: reflexivity. all: try reflexivity. repeat split.
  - eexists. split; [|split; [|left; split; reflexivity]]; [repeat split | reflexivity].
  - eexists. split; [|split; [|right; split; [reflexivity|];
                               eexists; split; [|split; [|split]]]].
    6: reflexivity. all: try reflexivity. repeat split.
Qed.

(** The update of [lastUsedAt], with its failure dropped. *)
Lemma touch_outcome (id : string) (at_ : Z) (s : Server ExecutorState) :
  exists s',
    catching (touchApiKey id at_) (fun _ => pure tt) s = (Normal tt, s') /\
    SameButKeys s s' /\
    faults (database s') = tl (faults (database s)) /\
    ((hd false (faults (database s)) = true /\
      apiKeys (database s') = apiKeys (database s)) \/
     (hd false (faults (database s)) = false /\
      apiKeys (database s') = map (touched id at_) (apiKeys (database s)))).
Proof.
  unfold catching, touchApiKey, query, pure.
  destruct (faults (database s)) as [|[] later]; eexists;
    (split; [reflexivity|]); (split; [repeat split|]); (split; [reflexivity|]);
    first [ left; split; reflexivity | right; split; reflexivity ].
Qed.

(** The outcomes of [validateApiKey]: no key presented; or a key presented
    and the lookup failed, found nothing, found an expired row, or found a
    row that is returned. *)
Lemma validateApiKey_cases (authorization : option string) (s : Server ExecutorState) :
  ((forall key, String.prefix "b0t_" key = true ->
                authorization <> Some ("Bearer " +:+ key)) /\
   validateApiKey sha256hex authorization s
   = (Normal (AuthError "Missing or invalid API key" 401), s))
  \/
  exists key s',
    authorization = Some ("Bearer " +:+ key) /\
    String.prefix "b0t_" key = true /\
    let found := firstn 1 (List.filter (usableKey (sha256hex key)) (apiKeys (database s))) in
    (hd false (faults (database s)) = true /\ SameTables s s' /\
     validateApiKey sha256hex authorization s = (Throw (Error "database error"), s'))
    \/
    (hd false (faults (database s)) = false /\ found = [] /\ SameTables s s' /\
     validateApiKey sha256hex authorization s
     = (Normal (AuthError "Invalid or revoked API key" 401), s'))
    \/
    (hd false (faults (database s)) = false /\
     exists row rest, found = row :: rest /\ expiredAt (clock s) row = true /\
       SameTables s s' /\
       validateApiKey sha256hex authorization s
       = (Normal (AuthError "API key has expired" 401), s'))
    \/
    (hd false (faults (database s)) = false /\
     exists row rest, found = row :: rest /\ expiredAt (clock s) row = false /\
       SameButKeys s s' /\
       validateApiKey sha256hex authorization s
       = (Normal (AuthOk row (keyUserId row) (keyPermissions row)), s') /\
       faults (database s') = tl (tl (faults (database s))) /\
       ((hd false (tl (faults (database s))) = true /\
         apiKeys (database s') = apiKeys (database s)) \/
        (hd false (tl (faults (database s))) = false /\
         apiKeys (database s')
         = map (touched (keyId row) (clock s)) (apiKeys (database s))))).
Proof.
  unfold validateApiKey.
  destruct authorization as [authHeader|].
  2: { left. split; [intros key _; discriminate | reflexivity]. }
  destruct (String.prefix "Bearer b0t_" authHeader) eqn:Hprefix; cbn [negb].
  2: { left. split; [|reflexivity]. intros key Hkey Heq. injection Heq as ->.
       apply prefix_spec in Hkey. destruct Hkey as [rest ->].
       assert (Hyes : String.prefix "Bearer b0t_" ("Bearer " +:+ ("b0t_" +:+ rest)) = true)
         by (apply prefix_spec; now exists rest).
       congruence. }
  right. destruct (bearer_key authHeader Hprefix) as [Hheader Hkey].
  exists (replaceFirst "Bearer " "" authHeader).
  set (key := replaceFirst "Bearer " "" authHeader) in *.
  destruct (reading_query
              (fun db => firstn 1 (List.filter (usableKey (sha256hex key)) (apiKeys db))) s)
    as [s1 [Hsame [Hfaults [[Hfault Hq] | [Hfault [db [Hkeys [_ [_ Hq]]]]]]]]];
    cbv beta in Hq; unfold andThen, selectApiKey, hashApiKey; rewrite Hq.
  - exists s1. split; [now f_equal|]. split; [exact Hkey|]. left. auto.
  - rewrite Hkeys.
    destruct (firstn 1 (List.filter (usableKey (sha256hex key)) (apiKeys (database s))))
      as [|row rest] eqn:Hfound.
    + exists s1. split; [now f_equal|]. split; [exact Hkey|]. right; left. auto.
    + assert (Hclock : clock s1 = clock s) by apply Hsame.
      fold (expiredAt (clock s1) row). rewrite Hclock.
      destruct (expiredAt (clock s) row) eqn:Hexpired.
      * exists s1. split; [now f_equal|]. split; [exact Hkey|]. right; right; left.
        split; [exact Hfault|]. exists row, rest. auto.
      * destruct (touch_outcome (keyId row) (clock s) s1)
          as [s2 [Htouch [Hframe [Hlater Hrows]]]].
        rewrite Htouch. unfold pure.
        exists s2. split; [now f_equal|]. split; [exact Hkey|]. right; right; right.
        split; [exact Hfault|]. exists row, rest.
        split; [reflexivity|]. split; [exact Hexpired|].
        destruct Hsame as [Hp [Hc [Hi [Hk [Hw Ha]]]]].
        destruct Hframe as [Hp' [Hc' [Hi' [Hw' Ha']]]].
        split; [repeat split; congruence|]. split; [reflexivity|].
        split; [congruence|].
        rewrite <- Hfaults, <- Hk. exact Hrows.
Qed.

(** With unique hashes, the lookup finds the stored row of a hash. *)
Lemma unique_hash_found (hash : string) (row : ApiKeyRow) (rows : list ApiKeyRow) :
  In row rows ->
  usableKey hash row = true ->
  (forall other, In other rows -> keyHash other = hash -> other = row) ->
  firstn 1 (List.filter (usableKey hash) rows) = [row].
Proof.
  intros Hin Husable Hunique. induction rows as [|first rows IH]; [contradiction|].
  cbn [List.filter]. destruct (usableKey hash first) eqn:Hfirst.
  - assert (Hsame : first = row).
    { apply Hunique; [now left|]. unfold usableKey in Hfirst.
      apply andb_true_iff in Hfirst. destruct Hfirst as [Hfirst _].
      apply andb_true_iff in Hfirst. destruct Hfirst as [Hhash _].
      now apply String.eqb_eq. }
    rewrite Hsame. reflexivity.
  - apply IH.
    + destruct Hin as [->|Hin]; [congruence | exact Hin].
    + intros other Hother. apply Hunique. now right.
Qed.

Lemma usable_row_passes_where (now : Z) (row : ApiKeyRow) :
  Usable now row -> usableKey (keyHash row) row = true /\ expiredAt now row = false.
Proof.
  intros [Hactive [Hrevoked Hexpiry]]. unfold usableKey, expiredAt.
  rewrite String.eqb_refl, Hactive, Hrevoked. split; [reflexivity|].
  destruct (expiresAt row) as [expiry|]; [|reflexivity].
  apply Z.ltb_ge. now apply Hexpiry.
Qed.

(** X17.  Whoever [validateApiKey] lets in presented a stored key: the
    authorization header is [Bearer ] followed by a key that starts with
    [b0t_], the table holds a row whose hash is the hash of that key, which
    is active, not revoked and not expired at the time of the request, and
    the user id and the permissions returned are those of that row. *)
Theorem validated_key_is_stored_active_and_unexpired
    (authorization : option string) (s : Server ExecutorState)
    (row : ApiKeyRow) (userId : string) (permissions : JsValue) :
  fst (validateApiKey sha256hex authorization s) = Normal (AuthOk row userId permissions) ->
  exists key,
    authorization = Some ("Bearer " +:+ key) /\
    String.prefix "b0t_" key = true /\
    In row (apiKeys (database s)) /\
    keyHash row = sha256hex key /\
    Usable (clock s) row /\
    userId = keyUserId row /\
    permissions = keyPermissions row.
Proof.
  intros Hok.
  destruct (validateApiKey_cases authorization s)
    as [[_ Heq] | (key & s' & Hheader & Hkey & Hcases)];
    [rewrite Heq in Hok; discriminate Hok|].
  cbv zeta in Hcases.
  destruct Hcases
    as [(_ & _ & Heq) | [(_ & _ & _ & Heq) | [(_ & found & rest & _ & _ & _ & Heq)
        | (_ & found & rest & Hfound & Hexpired & _ & Heq & _ & _)]]];
    rewrite Heq in Hok; cbn [fst] in Hok; try discriminate Hok.
  injection Hok as <- <- <-. exists key.
  destruct (found_key_is_usable _ _ _ _ Hfound) as [Hin [Hhash [Hactive Hrevoked]]].
  repeat (split; [assumption || reflexivity|]). split; [|split; reflexivity].
  split; [exact Hactive|]. split; [exact Hrevoked|].
  intros expiry Hexpiry. unfold expiredAt in Hexpired. rewrite Hexpiry in Hexpired.
  now apply Z.ltb_ge.
Qed.

(** X18.  [validateApiKey] changes nothing but the [lastUsedAt] column of
    the keys table, and that only when it lets the caller in: the process,
    the workflows and the audit log stay as they were, every other column
    of every key row is kept, and whenever the call refuses the key or the
    lookup rejects, the keys table is untouched.  Every refusal carries the
    status 401. *)
Theorem validation_records_only_the_last_use
    (authorization : option string) (s : Server ExecutorState) :
  SameButKeys s (snd (validateApiKey sha256hex authorization s)) /\
  map withoutLastUsed (apiKeys (database (snd (validateApiKey sha256hex authorization s))))
  = map withoutLastUsed (apiKeys (database s)) /\
  (forall message status,
     fst (validateApiKey sha256hex authorization s) = Normal (AuthError message status) ->
     status = 401%Z /\
     apiKeys (database (snd (validateApiKey sha256hex authorization s)))
     = apiKeys (database s)) /\
  (forall e,
     fst (validateApiKey sha256hex authorization s) = Throw e ->
     apiKeys (database (snd (validateApiKey sha256hex authorization s)))
     = apiKeys (database s)).
Proof.
  assert (Hweaken : forall s', SameTables s s' -> SameButKeys s s').
  { intros s' [Hp [Hc [Hi [_ [Hw Ha]]]]]. repeat split; assumption. }
  destruct (validateApiKey_cases authorization s)
    as [[_ Heq] | (key & s' & Hheader & Hkey & Hcases)];
    [|cbv zeta in Hcases;
      destruct Hcases
        as [(_ & Hsame & Heq) | [(_ & _ & Hsame & Heq)
            | [(_ & found & rest & _ & _ & Hsame & Heq)
               | (_ & found & rest & Hfound & Hexpired & Hframe & Heq & _ & Hrows)]]]];
    rewrite Heq; cbn [fst snd].
  - split; [repeat split|]. split; [reflexivity|].
    split; [intros message status Hm; injection Hm as <- <-; split; reflexivity|].
    discriminate.
  - assert (Hk : apiKeys (database s') = apiKeys (database s)) by apply Hsame.
    split; [now apply Hweaken|]. split; [now rewrite Hk|].
    split; [discriminate | intros; exact Hk].
  - assert (Hk : apiKeys (database s') = apiKeys (database s)) by apply Hsame.
    split; [now apply Hweaken|]. split; [now rewrite Hk|].
    split; [intros message status Hm; injection Hm as <- <-; now split | discriminate].
  - assert (Hk : apiKeys (database s') = apiKeys (database s)) by apply Hsame.
    split; [now apply Hweaken|]. split; [now rewrite Hk|].
    split; [intros message status Hm; injection Hm as <- <-; now split | discriminate].
  - split; [exact Hframe|]. split; [|split; discriminate].
    destruct Hrows as [[_ Hk] | [_ Hk]]; rewrite Hk; [reflexivity|].
    unfold touched. apply map_touch_withoutLastUsed.
Qed.

(** A header that does not start with [Bearer b0t_], or no header at all,
    is refused before the database is asked. *)
Lemma validateApiKey_malformed
    (authorization : option string) (s : Server ExecutorState) :
  (forall authHeader, authorization = Some authHeader ->
                      String.prefix "Bearer b0t_" authHeader = false) ->
  validateApiKey sha256hex authorization s
  = (Normal (AuthError "Missing or invalid API key" 401), s).
Proof.
  intros Hmalformed.
  destruct (validateApiKey_cases authorization s)
    as [[_ Heq] | [key [s' [Hheader [Hkey _]]]]]; [exact Heq|].
  specialize (Hmalformed _ Hheader). apply prefix_spec in Hkey. destruct Hkey as [rest ->].
  assert (Hyes : String.prefix "Bearer b0t_" ("Bearer " +:+ ("b0t_" +:+ rest)) = true)
    by (apply prefix_spec; now exists rest).
  congruence.
Qed.

(** The lookup of a stored, usable key with a unique hash returns its row. *)
Lemma stored_key_validates (key : string) (row : ApiKeyRow) (s : Server ExecutorState) :
  String.prefix "b0t_" key = true ->
  In row (apiKeys (database s)) ->
  keyHash row = sha256hex key ->
  (forall other, In other (apiKeys (database s)) ->
                 keyHash other = keyHash row -> other = row) ->
  Usable (clock s) row ->
  hd false (faults (database s)) = false ->
  exists s1,
    validateApiKey sha256hex (Some ("Bearer " +:+ key)) s
    = (Normal (AuthOk row (keyUserId row) (keyPermissions row)), s1) /\
    SameButKeys s s1 /\
    faults (database s1) = tl (tl (faults (database s))) /\
    ((hd false (tl (faults (database s))) = true /\
      apiKeys (database s1) = apiKeys (database s)) \/
     (hd false (tl (faults (database s))) = false /\
      apiKeys (database s1) = map (touched (keyId row) (clock s)) (apiKeys (database s)))).
Proof.
  intros Hprefix Hin Hhash Hunique Husable Hfault.
  destruct (usable_row_passes_where _ _ Husable) as [Hwhere Hfresh].
  rewrite Hhash in Hwhere.
  assert (Hone : firstn 1 (List.filter (usableKey (sha256hex key)) (apiKeys (database s)))
                 = [row]).
  { apply unique_hash_found; [exact Hin | exact Hwhere |].
    intros other Hother Hsame. apply Hunique; [exact Hother | congruence]. }
  destruct (validateApiKey_cases (Some ("Bearer " +:+ key)) s)
    as [[Hnone _] | [key' [s' [Hheader [Hkey' Hcases]]]]].
  { now contradiction (Hnone key Hprefix). }
  assert (Hkey : key' = key).
  { injection Hheader as Hheader. symmetry. exact Hheader. }
  subst key'. cbv zeta in Hcases. rewrite Hone in Hcases.
  destruct Hcases
    as [(Hno & _) | [(_ & Hno & _) | [(_ & found & rest & Hfound & Hexpired & _)
        | (_ & found & rest & Hfound & _ & Hframe & Heq & Hfaults & Hrows)]]].
  - congruence.
  - discriminate Hno.
  - injection Hfound as <- <-. congruence.
  - injection Hfound as <- <-. exists s'. auto.
Qed.

(** X19.  A stored key authenticates: when the table holds one row for the
    hash of the presented key (hashes are unique in the table), the row is
    active, not revoked and not expired, and the lookup does not fail, the
    caller is let in as the owner of that row with its permissions; and
    when the update does not fail either, every row with the id of that key
    then has the time of the request as its [lastUsedAt]. *)
Theorem stored_key_authenticates
    (key : string) (row : ApiKeyRow) (s : Server ExecutorState) :
  String.prefix "b0t_" key = true ->
  In row (apiKeys (database s)) ->
  keyHash row = sha256hex key ->
  (forall other, In other (apiKeys (database s)) ->
                 keyHash other = keyHash row -> other = row) ->
  Usable (clock s) row ->
  hd false (faults (database s)) = false ->
  fst (validateApiKey sha256hex (Some ("Bearer " +:+ key)) s)
  = Normal (AuthOk row (keyUserId row) (keyPermissions row)) /\
  (hd false (tl (faults (database s))) = false ->
   forall used,
     In used (apiKeys (database (snd (validateApiKey sha256hex
                                        (Some ("Bearer " +:+ key)) s)))) ->
     keyId used = keyId row -> lastUsedAt used = Some (clock s)).
Proof.
  intros Hprefix Hin Hhash Hunique Husable Hfault.
  destruct (stored_key_validates key row s Hprefix Hin Hhash Hunique Husable Hfault)
    as (s1 & Heq & _ & _ & Hrows).
  rewrite Heq. cbn [fst snd]. split; [reflexivity|].
  intros Hupdate used Hused Hid.
  destruct Hrows as [[Hno _] | [_ Hk]]; [congruence|].
  rewrite Hk in Hused. apply in_map_iff in Hused.
  destruct Hused as [before [<- _]]. unfold touched in Hid |- *.
  destruct (String.eqb (keyId before) (keyId row)) eqn:Hmatch; [reflexivity|].
  apply String.eqb_neq in Hmatch. contradiction.
Qed.

End WithServer.

Arguments SameTables {ExecutorState} s s'.
Arguments SameButKeys {ExecutorState} s s'.

(** A hash function, a stored key and a server to try the handlers on. *)
Definition sampleHash (key : string) : string := "sha256:" +:+ key.

Definition sampleKeyRow : ApiKeyRow :=
  {| keyId := "key-1"; keyName := "ci"; keyHash := sampleHash "b0t_secret";
     keyPrefix := "b0t_secr"; keyUserId := "alice";
     keyPermissions := JObject [("workflows", JObject [("execute", JBool true)])];
     lastUsedAt := None; expiresAt := Some 2000%Z; isActive := true;
     createdAt := 10%Z; revokedAt := None |}.

Definition sampleServer (process : World nat) (faults : list bool) : Server nat :=
  {| process := process;
     database := {| apiKeys := [sampleKeyRow];
                    workflows := [{| workflowRowId := "wf-a"; workflowRowUserId := "alice" |}];
                    apiAuditLog := []; faults := faults |};
     clock := 1000%Z; idsDrawn := 0 |}.

Lemma validated_key_is_stored_active_and_unexpired_witness :
  exists key,
    Some "Bearer b0t_secret" = Some ("Bearer " +:+ key) /\
    String.prefix "b0t_" key = true /\
    In sampleKeyRow (apiKeys (database (sampleServer bareWorld []))) /\
    keyHash sampleKeyRow = sampleHash key /\
    Usable (clock (sampleServer bareWorld [])) sampleKeyRow /\
    "alice" = keyUserId sampleKeyRow /\
    keyPermissions sampleKeyRow = keyPermissions sampleKeyRow.
Proof.
  apply (validated_key_is_stored_active_and_unexpired nat sampleHash
           (Some "Bearer b0t_secret") (sampleServer bareWorld []) sampleKeyRow "alice"
           (keyPermissions sampleKeyRow)).
  reflexivity.
Defined.

Lemma stored_key_authenticates_witness :
  fst (validateApiKey sampleHash (Some "Bearer b0t_secret") (sampleServer bareWorld []))
  = Normal (AuthOk sampleKeyRow "alice" (keyPermissions sampleKeyRow)) /\
  (hd false (tl (faults (database (sampleServer bareWorld [])))) = false ->
   forall used,
     In used (apiKeys (database (snd (validateApiKey sampleHash
                                        (Some "Bearer b0t_secret")
                                        (sampleServer bareWorld []))))) ->
     keyId used = keyId sampleKeyRow -> lastUsedAt used = Some 1000%Z).
Proof.
  apply (stored_key_authenticates nat sampleHash "b0t_secret" sampleKeyRow
           (sampleServer bareWorld [])).
  - reflexivity.
  - left. reflexivity.
  - reflexivity.
  - intros other [<-|[]] _. reflexivity.
  - split; [reflexivity|]. split; [reflexivity|].
    intros expiry Hexpiry. injection Hexpiry as <-. vm_compute. discriminate.
  - reflexivity.
Defined.

(** The row that [logAuditEvent] inserts under the id [id]. *)
Definition auditRowOf (id : string) (params : AuditEventParams) : AuditRow :=
  {| auditId := id; auditApiKeyId := apiKeyId params;
     auditUserId := auditedUserId params; auditAction := action params;
     auditResource := resource params; auditRequestMethod := requestMethod params;
     auditRequestPath := requestPath params;
     auditResponseStatus := responseStatus params;
     auditMetadata := metadata params; auditIpAddress := ipAddress params |}.

(** The rows of the workflows table with the given id and owner. *)
Definition owned (id userId : string) (rows : list WorkflowRow) : list WorkflowRow :=
  List.filter (fun row => String.eqb (workflowRowId row) id &&
                          String.eqb (workflowRowUserId row) userId) rows.

(** The body the route reads. *)
Definition bodyOf (parsedBody : option JsValue) : JsValue :=
  match parsedBody with
  | Some parsed => parsed
  | None => JObject []
  end.

Definition refusal (message : string) (status : Z) : Response :=
  json (JObject [("error", JString message)]) status.

Section WithRoute.
Variable h : Host.
Variable ExecutorState : Type.
Variable executeWorkflow :
  string -> string -> TriggerType -> option JsValue ->
  ExecutorState -> Completion ExecutionResult * ExecutorState.
Variable sha256hex : string -> string.
Variable nanoid : nat -> string.

(** Two processes that differ at most in what was logged. *)
Definition SameRun (w w' : World ExecutorState) : Prop :=
  REDIS_URL w' = REDIS_URL w /\ brokerReachable w' = brokerReachable w /\
  queues w' = queues w /\ workers w' = workers w /\
  executor w' = executor w /\ invocations w' = invocations w.

Lemma SameRun_refl (w : World ExecutorState) : SameRun w w.
Proof. repeat split. Qed.

Lemma SameRun_trans (w1 w2 w3 : World ExecutorState) :
  SameRun w1 w2 -> SameRun w2 w3 -> SameRun w1 w3.
Proof. unfold SameRun. intuition congruence. Qed.

(** The outcome of [logAuditEvent]: it resolves; the insert adds the row
    under a fresh id, and a failed insert is logged and adds nothing. *)
Lemma logAuditEvent_outcome (params : AuditEventParams) (s : Server ExecutorState) :
  exists s',
    logAuditEvent nanoid params s = (Normal tt, s') /\
    SameRun (process s) (process s') /\
    apiKeys (database s') = apiKeys (database s) /\
    workflows (database s') = workflows (database s) /\
    clock s' = clock s /\
    idsDrawn s' = S (idsDrawn s) /\
    ((hd false (faults (database s)) = false /\
      process s' = process s /\
      apiAuditLog (database s')
      = (apiAuditLog (database s) ++ [auditRowOf (nanoid (idsDrawn s)) params])%list) \/
     (hd false (faults (database s)) = true /\
      apiAuditLog (database s') = apiAuditLog (database s) /\
      logged (process s')
      = (logged (process s) ++ [(error_, "Failed to write audit log entry")])%list)).
Proof.
  unfold logAuditEvent, catching, query, inProcess, log. server_fields.
  destruct (faults (database s)) as [|[] later]; eexists;
    (split; [reflexivity|]); server_fields;
    (split; [repeat split|]); repeat (split; [reflexivity|]);
    first [ left; repeat split; reflexivity | right; repeat split; reflexivity ].
Qed.

(** What the route leaves of the database whatever happens after the key
    was checked: the keys, the workflows and the clock. *)
Definition SameStore (s s' : Server ExecutorState) : Prop :=
  apiKeys (database s') = apiKeys (database s) /\
  workflows (database s') = workflows (database s) /\
  clock s' = clock s.

(** The [try] block with its [catch]. *)
Definition guarded (apiKey : ApiKeyRow) (userId : string) (forwardedFor : option string)
    (id : string) (parsedBody : option JsValue)
  : Server ExecutorState -> Completion Response * Server ExecutorState :=
  catching
    (tryBlock h executeWorkflow nanoid apiKey userId forwardedFor id parsedBody)
    (fun _ =>
       andThen (inProcess (log ExecutorState error_
                             "External API: Failed to execute workflow"))
               (fun _ => pure (refusal "Failed to execute workflow" 500))).

(** The ways the guarded block ends, from the server [s1] it starts in. *)
Inductive Attempt (apiKey : ApiKeyRow) (userId : string) (forwardedFor : option string)
    (id : string) (parsedBody : option JsValue) (s1 : Server ExecutorState)
  : Response -> Server ExecutorState -> Prop :=
| attempt_lookup_failed s2 :
    hd false (faults (database s1)) = true ->
    SameStore s1 s2 -> SameRun (process s1) (process s2) ->
    apiAuditLog (database s2) = apiAuditLog (database s1) ->
    Attempt apiKey userId forwardedFor id parsedBody s1
            (refusal "Failed to execute workflow" 500) s2
| attempt_not_found s2 :
    hd false (faults (database s1)) = false ->
    firstn 1 (owned id userId (workflows (database s1))) = [] ->
    SameStore s1 s2 -> process s2 = process s1 ->
    apiAuditLog (database s2) = apiAuditLog (database s1) ->
    Attempt apiKey userId forwardedFor id parsedBody s1
            (refusal "Workflow not found" 404) s2
| attempt_unreadable workflow rest e s2 :
    firstn 1 (owned id userId (workflows (database s1))) = workflow :: rest ->
    requestedTriggerData h (bodyOf parsedBody) = Throw e ->
    SameStore s1 s2 -> SameRun (process s1) (process s2) ->
    apiAuditLog (database s2) = apiAuditLog (database s1) ->
    Attempt apiKey userId forwardedFor id parsedBody s1
            (refusal "Failed to execute workflow" 500) s2
| attempt_rejected workflow rest triggerData e s2 :
    firstn 1 (owned id userId (workflows (database s1))) = workflow :: rest ->
    requestedTriggerData h (bodyOf parsedBody) = Normal triggerData ->
    fst (dispatch executeWorkflow id userId triggerData (process s1)) = Throw e ->
    SameStore s1 s2 ->
    SameRun (snd (dispatch executeWorkflow id userId triggerData (process s1)))
            (process s2) ->
    apiAuditLog (database s2) = apiAuditLog (database s1) ->
    Attempt apiKey userId forwardedFor id parsedBody s1
            (refusal "Failed to execute workflow" 500) s2
| attempt_answered workflow rest triggerData result s2 :
    firstn 1 (owned id userId (workflows (database s1))) = workflow :: rest ->
    requestedTriggerData h (bodyOf parsedBody) = Normal triggerData ->
    fst (dispatch executeWorkflow id userId triggerData (process s1)) = Normal result ->
    SameStore s1 s2 ->
    SameRun (snd (dispatch executeWorkflow id userId triggerData (process s1)))
            (process s2) ->
    (hd false (tl (faults (database s1))) = false /\
     apiAuditLog (database s2)
     = (apiAuditLog (database s1)
        ++ [auditRowOf (nanoid (idsDrawn s1))
              (executeEvent apiKey userId id forwardedFor result)])%list \/
     hd false (tl (faults (database s1))) = true /\
     apiAuditLog (database s2) = apiAuditLog (database s1)) ->
    Attempt apiKey userId forwardedFor id parsedBody s1 (answer result) s2.

Lemma guarded_attempt (apiKey : ApiKeyRow) (userId : string) (forwardedFor : option string)
    (id : string) (parsedBody : option JsValue) (s1 : Server ExecutorState) :
  exists response s2,
    guarded apiKey userId forwardedFor id parsedBody s1 = (Normal response, s2) /\
    Attempt apiKey userId forwardedFor id parsedBody s1 response s2.
Proof.
  unfold guarded, catching, tryBlock.
  destruct (reading_query ExecutorState
              (fun db => firstn 1 (owned id userId (workflows db))) s1)
    as (sq & Hsame & Hfaults & [[Hfault Hq] | (Hfault & db & _ & Hrows & _ & Hq)]);
    cbv beta in Hq; unfold owned in Hq; unfold andThen at 1, selectWorkflow; rewrite Hq.
  - unfold andThen, inProcess, log, pure. eexists _, _. split; [reflexivity|].
    destruct Hsame as (Hp & Hc & Hi & Hk & Hw & Ha).
    apply attempt_lookup_failed; server_fields; try assumption.
    + repeat split; assumption.
    + rewrite <- Hp. repeat split.
  - rewrite Hrows. fold (owned id userId (workflows (database s1))).
    destruct Hsame as (Hp & Hc & Hi & Hk & Hw & Ha).
    destruct (firstn 1 (owned id userId (workflows (database s1))))
      as [|workflow rest] eqn:Hfound.
    + unfold pure. eexists _, _. split; [reflexivity|].
      apply attempt_not_found; try assumption. repeat split; assumption.
    + fold (bodyOf parsedBody). unfold andThen at 1, evaluating.
      destruct (requestedTriggerData h (bodyOf parsedBody)) as [triggerData|e] eqn:Hbody.
      * unfold andThen at 1, inProcess.
        destruct (dispatch executeWorkflow id userId triggerData (process sq))
          as [[result|e] w'] eqn:Hrun.
        -- destruct (logAuditEvent_outcome
                       (executeEvent apiKey userId id forwardedFor result)
                       {| process := w'; database := database sq; clock := clock sq;
                          idsDrawn := idsDrawn sq |})
             as (s2 & Hlog & Hrun2 & Hk2 & Hw2 & Hc2 & _ & Hrow).
           unfold andThen, pure. rewrite Hlog. eexists _, _. split; [reflexivity|].
           server_fields. rewrite Hp in Hrun.
           apply attempt_answered with (workflow := workflow) (rest := rest)
                                       (triggerData := triggerData);
             try assumption.
           ++ now rewrite Hrun.
           ++ repeat split; congruence.
           ++ rewrite Hrun. exact Hrun2.
           ++ rewrite <- Hfaults, <- Ha, <- Hi.
              destruct Hrow as [(Hno & _ & Hrow) | (Hyes & Hrow & _)]; [left | right];
                split; assumption.
        -- unfold andThen, inProcess, log, pure. eexists _, _. split; [reflexivity|].
           server_fields. rewrite Hp in Hrun.
           apply attempt_rejected with (workflow := workflow) (rest := rest)
                                       (triggerData := triggerData) (e := e);
             server_fields; try assumption.
           ++ now rewrite Hrun.
           ++ repeat split; assumption.
           ++ rewrite Hrun. repeat split.
      * unfold andThen, inProcess, log, pure. eexists _, _. split; [reflexivity|].
        apply attempt_unreadable with (workflow := workflow) (rest := rest) (e := e);
          server_fields; try assumption.
        -- repeat split; assumption.
        -- rewrite <- Hp. repeat split.
Qed.

(** The caller presented the stored key [row], and [s1] is the server after
    the key was checked. *)
Definition Authenticated (authorization : option string) (s : Server ExecutorState)
    (row : ApiKeyRow) (s1 : Server ExecutorState) : Prop :=
  (exists key,
     authorization = Some ("Bearer " +:+ key) /\
     String.prefix "b0t_" key = true /\
     keyHash row = sha256hex key) /\
  In row (apiKeys (database s)) /\
  Usable (clock s) row /\
  hd false (faults (database s)) = false /\
  SameButKeys s s1 /\
  clock s1 = clock s /\
  faults (database s1) = tl (tl (faults (database s))) /\
  map keyId (apiKeys (database s1)) = map keyId (apiKeys (database s)) /\
  map keyUserId (apiKeys (database s1)) = map keyUserId (apiKeys (database s)).

(** The ways a request to the route ends. *)
Inductive Outcome (authorization forwardedFor : option string) (id : string)
    (parsedBody : option JsValue) (s : Server ExecutorState)
  : Completion Response -> Server ExecutorState -> Prop :=
| outcome_lookup_rejected s' :
    hd false (faults (database s)) = true ->
    SameTables s s' ->
    Outcome authorization forwardedFor id parsedBody s (Throw (Error "database error")) s'
| outcome_unauthenticated message s' :
    SameTables s s' ->
    Outcome authorization forwardedFor id parsedBody s (Normal (refusal message 401)) s'
| outcome_permissions_unreadable row s1 e :
    Authenticated authorization s row s1 ->
    checkPermission h (keyPermissions row) "workflows" "execute" = Throw e ->
    Outcome authorization forwardedFor id parsedBody s (Throw e) s1
| outcome_forbidden row s1 :
    Authenticated authorization s row s1 ->
    checkPermission h (keyPermissions row) "workflows" "execute" = Normal false ->
    Outcome authorization forwardedFor id parsedBody s
            (Normal (refusal "Insufficient permissions" 403)) s1
| outcome_attempted row s1 response s2 :
    Authenticated authorization s row s1 ->
    checkPermission h (keyPermissions row) "workflows" "execute" = Normal true ->
    Attempt row (keyUserId row) forwardedFor id parsedBody s1 response s2 ->
    Outcome authorization forwardedFor id parsedBody s (Normal response) s2.

Lemma map_touched_ids (id : string) (at_ : Z) (rows : list ApiKeyRow) :
  map keyId (map (touched id at_) rows) = map keyId rows /\
  map keyUserId (map (touched id at_) rows) = map keyUserId rows.
Proof.
  rewrite !map_map. split; apply map_ext; intros row; unfold touched;
    destruct (String.eqb (keyId row) id); reflexivity.
Qed.

Lemma POST_outcome (authorization forwardedFor : option string) (id : string)
    (parsedBody : option JsValue) (s : Server ExecutorState) :
  Outcome authorization forwardedFor id parsedBody s
    (fst (POST h executeWorkflow sha256hex nanoid authorization forwardedFor id parsedBody s))
    (snd (POST h executeWorkflow sha256hex nanoid authorization forwardedFor id parsedBody s)).
Proof.
  remember (POST h executeWorkflow sha256hex nanoid authorization forwardedFor id
              parsedBody s) as ended eqn:Hended.
  unfold POST in Hended. unfold andThen at 1 in Hended.
  destruct (validateApiKey_cases ExecutorState sha256hex authorization s)
    as [[_ Heq] | (key & s1 & Hheader & Hkey & Hcases)].
  { rewrite Heq in Hended. subst ended. cbn [fst snd pure].
    apply outcome_unauthenticated. apply SameTables_refl. }
  cbv zeta in Hcases.
  destruct Hcases
    as [(Hfault & Hsame & Heq) | [(_ & _ & Hsame & Heq)
        | [(_ & found & rest & _ & _ & Hsame & Heq)
           | (Hfault & row & rest & Hfound & Hexpired & Hframe & Heq & Hfaults & Hrows)]]];
    rewrite Heq in Hended.
  - subst ended. cbn [fst snd]. now apply outcome_lookup_rejected.
  - subst ended. cbn [fst snd pure]. now apply outcome_unauthenticated.
  - subst ended. cbn [fst snd pure]. now apply outcome_unauthenticated.
  - assert (Hauth : Authenticated authorization s row s1).
    { destruct (found_key_is_usable _ _ _ _ Hfound) as (Hin & Hhash & Hactive & Hrevoked).
      split; [exists key; auto|]. split; [exact Hin|]. split.
      { split; [exact Hactive|]. split; [exact Hrevoked|].
        intros expiry Hexpiry. unfold expiredAt in Hexpired. rewrite Hexpiry in Hexpired.
        now apply Z.ltb_ge. }
      split; [exact Hfault|]. split; [exact Hframe|].
      split; [apply Hframe|]. split; [exact Hfaults|].
      destruct Hrows as [[_ Hk] | [_ Hk]]; rewrite Hk; [split; reflexivity|].
      apply map_touched_ids. }
    unfold andThen at 1, evaluating in Hended.
    destruct (checkPermission h (keyPermissions row) "workflows" "execute")
      as [[]|e] eqn:Hallowed; cbn [negb] in Hended.
    + destruct (guarded_attempt row (keyUserId row) forwardedFor id parsedBody s1)
        as (response & s2 & Hrun & Hattempt).
      unfold guarded, refusal in Hrun. rewrite Hrun in Hended. subst ended. cbn [fst snd].
      now apply outcome_attempted with (row := row) (s1 := s1).
    + subst ended. cbn [fst snd pure]. now apply outcome_forbidden with (row := row).
    + subst ended. cbn [fst snd]. now apply outcome_permissions_unreadable with (row := row).
Qed.

Lemma POST_ends (authorization forwardedFor : option string) (id : string)
    (parsedBody : option JsValue) (s : Server ExecutorState)
    (ended : Completion Response) (s' : Server ExecutorState) :
  POST h executeWorkflow sha256hex nanoid authorization forwardedFor id parsedBody s
  = (ended, s') ->
  Outcome authorization forwardedFor id parsedBody s ended s'.
Proof.
  intros Hrun.
  pose proof (POST_outcome authorization forwardedFor id parsedBody s) as Hended.
  rewrite Hrun in Hended. exact Hended.
Qed.

Lemma owned_found (id userId : string) (rows rest : list WorkflowRow)
    (workflow : WorkflowRow) :
  firstn 1 (owned id userId rows) = workflow :: rest ->
  In workflow rows /\ workflowRowId workflow = id /\ workflowRowUserId workflow = userId.
Proof.
  intros Hfound.
  assert (Hin : In workflow (owned id userId rows)).
  { destruct (owned id userId rows) as [|first others]; [discriminate|].
    cbn in Hfound. injection Hfound as -> _. now left. }
  apply filter_In in Hin. destruct Hin as [Hin Hmatch]. split; [exact Hin|].
  apply andb_true_iff in Hmatch. destruct Hmatch as [Hid Huser].
  split; now apply String.eqb_eq.
Qed.

(** [checkPermission] throws only on permissions that are null or
    undefined. *)
Lemma checkPermission_throws (permissions : JsValue) (resource action : string)
    (e : JsError) :
  checkPermission h permissions resource action = Throw e ->
  isNullish permissions = true.
Proof.
  unfold checkPermission. intros Hthrow.
  destruct (getProperty h permissions resource) as [resourcePerms|e'] eqn:Hread.
  - destruct (truthy resourcePerms) eqn:Htruthy; cbn [negb] in Hthrow; [|discriminate].
    rewrite (getProperty_of_truthy h resourcePerms action Htruthy) in Hthrow.
    discriminate.
  - destruct permissions; try discriminate Hread; reflexivity.
Qed.

Lemma answer_status (result : RouteResult) :
  status (answer result) = (if resultSuccess result then 200 else 500)%Z.
Proof. unfold answer. destruct (resultSuccess result); reflexivity. Qed.

(** X20.  Writing the audit entry never fails the caller.  [logAuditEvent]
    always resolves; it leaves the keys, the workflows and the run of the
    process alone; and either it appends exactly one row, which carries
    the given fields under a freshly drawn id, or the insert failed, the
    audit log is as before and the failure was logged. *)
Theorem audit_logging_never_blocks (params : AuditEventParams) (s : Server ExecutorState) :
  fst (logAuditEvent nanoid params s) = Normal tt /\
  apiKeys (database (snd (logAuditEvent nanoid params s))) = apiKeys (database s) /\
  workflows (database (snd (logAuditEvent nanoid params s))) = workflows (database s) /\
  SameRun (process s) (process (snd (logAuditEvent nanoid params s))) /\
  (apiAuditLog (database (snd (logAuditEvent nanoid params s)))
   = (apiAuditLog (database s) ++ [auditRowOf (nanoid (idsDrawn s)) params])%list \/
   apiAuditLog (database (snd (logAuditEvent nanoid params s))) = apiAuditLog (database s) /\
   In (error_, "Failed to write audit log entry")
      (logged (process (snd (logAuditEvent nanoid params s))))).
Proof.
  destruct (logAuditEvent_outcome params s)
    as (s' & Hlog & Hrun & Hkeys & Hworkflows & _ & _ & Hrow).
  rewrite Hlog. cbn [fst snd]. repeat (split; [assumption || reflexivity|]).
  destruct Hrow as [(_ & _ & Hrow) | (_ & Hrow & Hlogged)]; [now left | right].
  split; [exact Hrow|]. rewrite Hlogged. apply in_or_app. right. now left.
Qed.

(** X21.  A request without a [Bearer b0t_] key is answered 401 before
    anything is looked up: the server is left exactly as it was, also when
    the database would have failed. *)
Theorem request_without_key_is_refused_untouched
    (authorization forwardedFor : option string) (id : string)
    (parsedBody : option JsValue) (s : Server ExecutorState) :
  (forall authHeader, authorization = Some authHeader ->
                      String.prefix "Bearer b0t_" authHeader = false) ->
  POST h executeWorkflow sha256hex nanoid authorization forwardedFor id parsedBody s
  = (Normal (refusal "Missing or invalid API key" 401), s).
Proof.
  intros Hmalformed. unfold POST, andThen.
  rewrite (validateApiKey_malformed ExecutorState sha256hex authorization s Hmalformed).
  reflexivity.
Qed.

(** X22.  The route runs or queues a workflow only for its owner: when a
    request makes the executor run or changes the queues, the caller
    presented a stored key that is active, not revoked and not expired,
    whose permissions grant [workflows.execute], and the workflows table
    holds the requested workflow for the user of that key. *)
Theorem execution_requires_key_permission_and_ownership
    (authorization forwardedFor : option string) (id : string)
    (parsedBody : option JsValue) (s : Server ExecutorState) :
  invocations (process (snd (POST h executeWorkflow sha256hex nanoid authorization
                               forwardedFor id parsedBody s)))
    <> invocations (process s) \/
  queues (process (snd (POST h executeWorkflow sha256hex nanoid authorization
                          forwardedFor id parsedBody s)))
    <> queues (process s) ->
  exists key row workflow,
    authorization = Some ("Bearer " +:+ key) /\
    In row (apiKeys (database s)) /\
    keyHash row = sha256hex key /\
    Usable (clock s) row /\
    checkPermission h (keyPermissions row) "workflows" "execute" = Normal true /\
    In workflow (workflows (database s)) /\
    workflowRowId workflow = id /\
    workflowRowUserId workflow = keyUserId row.
Proof.
  intros Hchanged.
  destruct (POST h executeWorkflow sha256hex nanoid authorization forwardedFor id
              parsedBody s) as [ended s'] eqn:Hrun.
  apply POST_ends in Hrun. cbn [snd] in Hchanged.
  assert (Hquiet : forall w, SameRun (process s) w ->
                             process s' = w \/ SameRun w (process s') -> False).
  { intros w Hw [Heq | Hs'].
    - rewrite Heq in Hchanged. destruct Hw as (_ & _ & Hq & _ & _ & Hi).
      destruct Hchanged as [H|H]; now apply H.
    - pose proof (SameRun_trans _ _ _ Hw Hs') as (_ & _ & Hq & _ & _ & Hi).
      destruct Hchanged as [H|H]; now apply H. }
  destruct Hrun
    as [s' _ Hsame | message s' Hsame | row s1 e Hauth _ | row s1 Hauth _
        | row s1 response s2 Hauth Hallowed Hattempt].
  - exfalso. apply (Hquiet (process s)); [apply SameRun_refl | left; apply Hsame].
  - exfalso. apply (Hquiet (process s)); [apply SameRun_refl | left; apply Hsame].
  - exfalso. destruct Hauth as (_ & _ & _ & _ & Hframe & _).
    apply (Hquiet (process s)); [apply SameRun_refl | left; apply Hframe].
  - exfalso. destruct Hauth as (_ & _ & _ & _ & Hframe & _).
    apply (Hquiet (process s)); [apply SameRun_refl | left; apply Hframe].
  - destruct Hauth as ((key & Hheader & _ & Hhash) & Hin & Husable & _ & Hframe & _).
    assert (Hp : process s1 = process s) by apply Hframe.
    assert (Hw : workflows (database s1) = workflows (database s)) by apply Hframe.
    assert (Hfound : forall workflow rest,
               firstn 1 (owned id (keyUserId row) (workflows (database s1)))
               = workflow :: rest ->
               exists key row workflow,
                 authorization = Some ("Bearer " +:+ key) /\
                 In row (apiKeys (database s)) /\
                 keyHash row = sha256hex key /\
                 Usable (clock s) row /\
                 checkPermission h (keyPermissions row) "workflows" "execute"
                 = Normal true /\
                 In workflow (workflows (database s)) /\
                 workflowRowId workflow = id /\
                 workflowRowUserId workflow = keyUserId row).
    { intros workflow rest Hfound. apply owned_found in Hfound.
      rewrite Hw in Hfound. destruct Hfound as (Hwin & Hid & Huser).
      exists key, row, workflow. auto 10. }
    destruct Hattempt
      as [s2 _ _ Hquiet2 _ | s2 _ _ _ Hquiet2 _ | workflow rest e s2 _ _ _ Hquiet2 _
          | workflow rest triggerData e s2 Hfound' _ _ _ _ _
          | workflow rest triggerData result s2 Hfound' _ _ _ _ _].
    + exfalso. apply (Hquiet (process s1)); [rewrite Hp; apply SameRun_refl | now right].
    + exfalso. apply (Hquiet (process s1)); [rewrite Hp; apply SameRun_refl | now left].
    + exfalso. apply (Hquiet (process s1)); [rewrite Hp; apply SameRun_refl | now right].
    + exact (Hfound _ _ Hfound').
    + exact (Hfound _ _ Hfound').
Qed.

(** X23.  A refused request runs nothing and is not audited: when the route
    answers 401, 403 or 404, the process is exactly as before (nothing ran,
    nothing was queued, nothing was logged), and the audit log and the
    workflows table are unchanged. *)
Theorem refused_requests_run_and_audit_nothing
    (authorization forwardedFor : option string) (id : string)
    (parsedBody : option JsValue) (s : Server ExecutorState) (response : Response) :
  fst (POST h executeWorkflow sha256hex nanoid authorization forwardedFor id parsedBody s)
  = Normal response ->
  status response = 401%Z \/ status response = 403%Z \/ status response = 404%Z ->
  process (snd (POST h executeWorkflow sha256hex nanoid authorization forwardedFor id
                  parsedBody s)) = process s /\
  apiAuditLog (database (snd (POST h executeWorkflow sha256hex nanoid authorization
                                forwardedFor id parsedBody s)))
  = apiAuditLog (database s) /\
  workflows (database (snd (POST h executeWorkflow sha256hex nanoid authorization
                              forwardedFor id parsedBody s)))
  = workflows (database s).
Proof.
  intros Hanswer Hstatus.
  destruct (POST h executeWorkflow sha256hex nanoid authorization forwardedFor id
              parsedBody s) as [ended s'] eqn:Hrun.
  apply POST_ends in Hrun. cbn [fst snd] in *. subst ended.
  inversion Hrun
    as [s0 _ Hsame | message s0 Hsame | row s1 e Hauth _ | row s1 Hauth _
        | row s1 response' s2 Hauth Hallowed Hattempt]; subst.
  - destruct Hsame as (Hp & _ & _ & _ & Hw & Ha). auto.
  - destruct Hauth as (_ & _ & _ & _ & (Hp & _ & _ & Hw & Ha) & _). auto.
  - destruct Hauth as (_ & _ & _ & _ & (Hp & _ & _ & Hw & Ha) & _).
    destruct Hattempt
      as [s2 _ _ _ _ | s2 _ _ (_ & Hw2 & _) Hp2 Ha2 | workflow rest e s2 _ _ _ _ _
          | workflow rest triggerData e s2 _ _ _ _ _ _
          | workflow rest triggerData result s2 _ _ _ _ _ _];
      try (exfalso; cbn [status refusal json] in Hstatus;
           destruct Hstatus as [H|[H|H]]; discriminate H).
    + repeat split; congruence.
    + exfalso. rewrite answer_status in Hstatus.
      destruct (resultSuccess result); destruct Hstatus as [H|[H|H]]; discriminate H.
Qed.

(** X24.  A request adds at most one audit row, and the row agrees with
    the answer: either the audit log is unchanged, or the route answered
    with 200 or 500 and the log grew by exactly one row, for the action
    [workflows.execute] on the requested workflow, with the caller's
    forwarded address, the id and the user of a stored key, and the status
    of the answer as its response status. *)
Theorem audit_row_matches_the_answer
    (authorization forwardedFor : option string) (id : string)
    (parsedBody : option JsValue) (s : Server ExecutorState) :
  apiAuditLog (database (snd (POST h executeWorkflow sha256hex nanoid authorization
                                forwardedFor id parsedBody s)))
  = apiAuditLog (database s) \/
  exists entry response key,
    apiAuditLog (database (snd (POST h executeWorkflow sha256hex nanoid authorization
                                  forwardedFor id parsedBody s)))
    = (apiAuditLog (database s) ++ [entry])%list /\
    fst (POST h executeWorkflow sha256hex nanoid authorization forwardedFor id parsedBody s)
    = Normal response /\
    (status response = 200%Z /\ auditResponseStatus entry = Some "200" \/
     status response = 500%Z /\ auditResponseStatus entry = Some "500") /\
    auditId entry = nanoid (idsDrawn s) /\
    auditAction entry = "workflows.execute" /\
    auditResource entry = Some id /\
    auditRequestMethod entry = Some "POST" /\
    auditIpAddress entry = forwardedFor /\
    In key (apiKeys (database s)) /\
    auditApiKeyId entry = keyId key /\
    auditUserId entry = keyUserId key.
Proof.
  destruct (POST h executeWorkflow sha256hex nanoid authorization forwardedFor id
              parsedBody s) as [ended s'] eqn:Hrun.
  apply POST_ends in Hrun. cbn [fst snd].
  destruct Hrun
    as [s' _ Hsame | message s' Hsame | row s1 e Hauth _ | row s1 Hauth _
        | row s1 response s2 Hauth Hallowed Hattempt];
    try (left; apply Hsame);
    try (left; destruct Hauth as (_ & _ & _ & _ & Hframe & _); apply Hframe).
  destruct Hauth as (_ & Hin & _ & _ & (_ & _ & Hi & _ & Ha) & _).
  destruct Hattempt
    as [s2 _ _ _ Ha2 | s2 _ _ _ _ Ha2 | workflow rest e s2 _ _ _ _ Ha2
        | workflow rest triggerData e s2 _ _ _ _ _ Ha2
        | workflow rest triggerData result s2 _ _ _ _ _ [[_ Ha2] | [_ Ha2]]];
    try (left; congruence).
  right.
  exists (auditRowOf (nanoid (idsDrawn s1))
            (executeEvent row (keyUserId row) id forwardedFor result)),
         (answer result), row.
  split; [congruence|]. split; [reflexivity|].
  split.
  { rewrite answer_status. cbn [auditRowOf executeEvent auditResponseStatus responseStatus].
    destruct (resultSuccess result); [left | right]; split; reflexivity. }
  rewrite Hi. repeat split. exact Hin.
Qed.

(** X25.  The route answers whenever the key lookup itself succeeds and no
    stored key has null permissions: whatever the body, the executor, the
    queue, or a later failure of the database, the request resolves to a
    response, with one of the statuses 200, 401, 403, 404 and 500. *)
Theorem route_answers_once_the_key_lookup_succeeds
    (authorization forwardedFor : option string) (id : string)
    (parsedBody : option JsValue) (s : Server ExecutorState) :
  hd false (faults (database s)) = false ->
  (forall row, In row (apiKeys (database s)) -> isNullish (keyPermissions row) = false) ->
  exists response,
    fst (POST h executeWorkflow sha256hex nanoid authorization forwardedFor id parsedBody s)
    = Normal response /\
    In (status response) [200; 401; 403; 404; 500]%Z.
Proof.
  intros Hlookup Hpermissions.
  destruct (POST h executeWorkflow sha256hex nanoid authorization forwardedFor id
              parsedBody s) as [ended s'] eqn:Hrun.
  apply POST_ends in Hrun. cbn [fst].
  destruct Hrun
    as [s' Hfault _ | message s' _ | row s1 e Hauth Hthrow | row s1 _ _
        | row s1 response s2 _ _ Hattempt].
  - congruence.
  - eexists. split; [reflexivity|]. cbn. auto.
  - apply checkPermission_throws in Hthrow.
    destruct Hauth as (_ & Hin & _). rewrite (Hpermissions row Hin) in Hthrow.
    discriminate.
  - eexists. split; [reflexivity|]. cbn. auto.
  - eexists. split; [reflexivity|].
    destruct Hattempt; try (cbn; now auto 6).
    rewrite answer_status. destruct (resultSuccess result); cbn; auto 6.
Qed.

(** What the route makes of the outcome of a direct run. *)
Definition directResult (ran : ExecutionResult) : RouteResult :=
  {| resultSuccess := success ran; resultJobId := None; resultQueued := None;
     resultOutput := output ran; resultError := error ran;
     resultErrorStep := errorStep ran |}.

(** What the route makes of a queued job. *)
Definition queuedResult (enqueued : Enqueued) : RouteResult :=
  {| resultSuccess := true; resultJobId := Some (jobIdOf enqueued);
     resultQueued := Some (queued enqueued);
     resultOutput := None; resultError := None; resultErrorStep := None |}.

Lemma dispatch_direct (id userId : string) (triggerData : JsValue)
    (w : World ExecutorState) :
  isWorkflowQueueAvailable w = false ->
  dispatch executeWorkflow id userId triggerData w
  = (match fst (executeWorkflow id userId manual (Some triggerData) (executor w)) with
     | Normal ran => Normal (directResult ran)
     | Throw e => Throw e
     end,
     {| REDIS_URL := REDIS_URL w; brokerReachable := brokerReachable w;
        queues := queues w; workers := workers w;
        executor := snd (executeWorkflow id userId manual (Some triggerData) (executor w));
        invocations := invocations w ++
          [{| workflowId := id; userId := userId;
              triggerType := manual; triggerData := Some triggerData |}];
        logged := logged w |}).
Proof.
  intros Hqueue. unfold dispatch. rewrite Hqueue. unfold bind.
  rewrite callExecuteWorkflow_eq.
  destruct (fst (executeWorkflow id userId manual (Some triggerData) (executor w)));
    reflexivity.
Qed.

Lemma dispatch_queued (id userId : string) (triggerData : JsValue)
    (w : World ExecutorState) :
  isWorkflowQueueAvailable w = true ->
  exists q job q',
    queues w !! WORKFLOW_QUEUE_NAME = Some q /\
    addToQueue ("workflow-" +:+ id)
      {| workflowId := id; userId := userId; triggerType := manual;
         triggerData := Some triggerData |}
      {| priority := 5; delay := None |} q = (job, q') /\
    dispatch executeWorkflow id userId triggerData w
    = (Normal (queuedResult
                 {| jobIdOf := if isSet (jobId job) then interpolate (jobId job)
                               else "unknown";
                    queued := true |}),
       {| REDIS_URL := REDIS_URL w; brokerReachable := brokerReachable w;
          queues := <[WORKFLOW_QUEUE_NAME := q']> (queues w); workers := workers w;
          executor := executor w; invocations := invocations w;
          logged := logged w ++ [(info, "Workflow queued for execution")] |}).
Proof.
  intros Hqueue. unfold dispatch. rewrite Hqueue.
  unfold isWorkflowQueueAvailable in Hqueue.
  apply andb_true_iff in Hqueue. destruct Hqueue as [Hset Hq].
  destruct (queues w !! WORKFLOW_QUEUE_NAME) as [q|] eqn:Hlookup; [|discriminate Hq].
  destruct (queueWorkflowExecution_queued ExecutorState executeWorkflow id userId manual
              (Some triggerData) None w q Hset Hlookup) as [job [q' [Hadd Heq]]].
  exists q, job, q'. split; [reflexivity|]. split; [exact Hadd|].
  unfold bind. rewrite Heq. reflexivity.
Qed.

(** With a stored key that grants the execution, the route enters the
    guarded block. *)
Lemma gates_pass (key : string) (row : ApiKeyRow) (forwardedFor : option string)
    (id : string) (parsedBody : option JsValue) (s : Server ExecutorState) :
  String.prefix "b0t_" key = true ->
  In row (apiKeys (database s)) ->
  keyHash row = sha256hex key ->
  (forall other, In other (apiKeys (database s)) ->
                 keyHash other = keyHash row -> other = row) ->
  Usable (clock s) row ->
  hd false (faults (database s)) = false ->
  checkPermission h (keyPermissions row) "workflows" "execute" = Normal true ->
  exists s1,
    POST h executeWorkflow sha256hex nanoid (Some ("Bearer " +:+ key)) forwardedFor id
         parsedBody s
    = guarded row (keyUserId row) forwardedFor id parsedBody s1 /\
    SameButKeys s s1 /\
    faults (database s1) = tl (tl (faults (database s))).
Proof.
  intros Hprefix Hin Hhash Hunique Husable Hfault Hallowed.
  destruct (stored_key_validates ExecutorState sha256hex key row s
              Hprefix Hin Hhash Hunique Husable Hfault)
    as (s1 & Heq & Hframe & Hfaults & _).
  exists s1. split; [|split; assumption].
  unfold POST. unfold andThen at 1. rewrite Heq.
  unfold andThen at 1, evaluating. rewrite Hallowed. reflexivity.
Qed.

Lemma owned_present (id userId : string) (rows : list WorkflowRow) :
  In {| workflowRowId := id; workflowRowUserId := userId |} rows ->
  firstn 1 (owned id userId rows) <> [].
Proof.
  intros Hin Hnone.
  assert (Hfound : In {| workflowRowId := id; workflowRowUserId := userId |}
                      (owned id userId rows)).
  { apply filter_In. split; [exact Hin|]. cbn. now rewrite !String.eqb_refl. }
  destruct (owned id userId rows); [contradiction | discriminate].
Qed.

(** X26.  A granted request runs the workflow directly when the queue is
    not available: with a stored usable key that grants [workflows.execute],
    the workflow owned by the key's user, a readable body and a working
    database, the executor is called once, for the requested workflow, the
    user of the key, a manual trigger and the trigger data of the body.
    When it resolves, the answer is that of its result (200 with the
    output, or 500 with error and errorStep) and one audit row is written;
    when it rejects, the answer is the generic 500 and no audit row is
    written although the executor was called. *)
Theorem granted_request_runs_directly
    (key : string) (row : ApiKeyRow) (forwardedFor : option string) (id : string)
    (parsedBody : option JsValue) (triggerData : JsValue) (s : Server ExecutorState) :
  String.prefix "b0t_" key = true ->
  In row (apiKeys (database s)) ->
  keyHash row = sha256hex key ->
  (forall other, In other (apiKeys (database s)) ->
                 keyHash other = keyHash row -> other = row) ->
  Usable (clock s) row ->
  checkPermission h (keyPermissions row) "workflows" "execute" = Normal true ->
  In {| workflowRowId := id; workflowRowUserId := keyUserId row |}
     (workflows (database s)) ->
  requestedTriggerData h (bodyOf parsedBody) = Normal triggerData ->
  faults (database s) = [] ->
  isWorkflowQueueAvailable (process s) = false ->
  executor (process (snd (POST h executeWorkflow sha256hex nanoid
                            (Some ("Bearer " +:+ key)) forwardedFor id parsedBody s)))
  = snd (executeWorkflow id (keyUserId row) manual (Some triggerData)
           (executor (process s))) /\
  invocations (process (snd (POST h executeWorkflow sha256hex nanoid
                               (Some ("Bearer " +:+ key)) forwardedFor id parsedBody s)))
  = (invocations (process s)
     ++ [{| workflowId := id; userId := keyUserId row; triggerType := manual;
            triggerData := Some triggerData |}])%list /\
  queues (process (snd (POST h executeWorkflow sha256hex nanoid
                          (Some ("Bearer " +:+ key)) forwardedFor id parsedBody s)))
  = queues (process s) /\
  match fst (executeWorkflow id (keyUserId row) manual (Some triggerData)
               (executor (process s))) with
  | Normal ran =>
      fst (POST h executeWorkflow sha256hex nanoid (Some ("Bearer " +:+ key))
             forwardedFor id parsedBody s)
      = Normal (answer (directResult ran)) /\
      apiAuditLog (database (snd (POST h executeWorkflow sha256hex nanoid
                                    (Some ("Bearer " +:+ key)) forwardedFor id
                                    parsedBody s)))
      = (apiAuditLog (database s)
         ++ [auditRowOf (nanoid (idsDrawn s))
               (executeEvent row (keyUserId row) id forwardedFor (directResult ran))])%list
  | Throw _ =>
      fst (POST h executeWorkflow sha256hex nanoid (Some ("Bearer " +:+ key))
             forwardedFor id parsedBody s)
      = Normal (refusal "Failed to execute workflow" 500) /\
      apiAuditLog (database (snd (POST h executeWorkflow sha256hex nanoid
                                    (Some ("Bearer " +:+ key)) forwardedFor id
                                    parsedBody s)))
      = apiAuditLog (database s)
  end.
Proof.
  intros Hprefix Hin Hhash Hunique Husable Hallowed Hworkflow Hbody Hfaults Hqueue.
  assert (Hfault : hd false (faults (database s)) = false) by now rewrite Hfaults.
  destruct (gates_pass key row forwardedFor id parsedBody s
              Hprefix Hin Hhash Hunique Husable Hfault Hallowed)
    as (s1 & Hrun & (Hp & _ & Hi & Hw & Ha) & Hfaults1).
  rewrite Hfaults in Hfaults1. cbn [tl] in Hfaults1.
  destruct (guarded_attempt row (keyUserId row) forwardedFor id parsedBody s1)
    as (response & s2 & Hguarded & Hattempt).
  rewrite Hrun, Hguarded. cbn [fst snd].
  rewrite <- Hw in Hworkflow. apply owned_present in Hworkflow.
  rewrite <- Hp in Hqueue.
  pose proof (dispatch_direct id (keyUserId row) triggerData (process s1) Hqueue)
    as Hdirect.
  rewrite Hp in Hdirect.
  destruct Hattempt
    as [s2 Hfailed _ _ _ | s2 _ Hnone _ _ _ | workflow rest e s2 _ Hthrow _ _ _
        | workflow rest triggerData' e s2 _ Hread Hend _ Hafter Haudit
        | workflow rest triggerData' result s2 _ Hread Hend _ Hafter Haudit].
  - rewrite Hfaults1 in Hfailed. discriminate Hfailed.
  - contradiction.
  - congruence.
  - assert (triggerData' = triggerData) by congruence. subst triggerData'.
    rewrite Hp in Hend, Hafter. rewrite Hdirect in Hend, Hafter.
    cbn [fst snd] in Hend, Hafter.
    destruct Hafter as (_ & _ & Hq & _ & He & Hv). world_fields.
    split; [exact He|]. split; [exact Hv|]. split; [exact Hq|].
    destruct (fst (executeWorkflow id (keyUserId row) manual (Some triggerData)
                     (executor (process s)))); [discriminate Hend|].
    split; [reflexivity | congruence].
  - assert (triggerData' = triggerData) by congruence. subst triggerData'.
    rewrite Hp in Hend, Hafter. rewrite Hdirect in Hend, Hafter.
    cbn [fst snd] in Hend, Hafter.
    destruct Hafter as (_ & _ & Hq & _ & He & Hv). world_fields.
    split; [exact He|]. split; [exact Hv|]. split; [exact Hq|].
    destruct (fst (executeWorkflow id (keyUserId row) manual (Some triggerData)
                     (executor (process s)))) as [ran|]; [|discriminate Hend].
    injection Hend as <-. split; [reflexivity|].
    rewrite Hfaults1 in Haudit. destruct Haudit as [[_ Hrow] | [Hno _]];
      [|discriminate Hno].
    rewrite Hrow, Ha, Hi. reflexivity.
Qed.

(** X27.  A granted request is only queued when the queue is available:
    under the same conditions the answer is 200 with success: true,
    queued: true, a non-empty job id and no output; the executor is not
    called; the waiting list of the workflow queue gets one more job, a
    manual trigger of the requested workflow for the user of the key with
    the trigger data of the body at the default priority 5; and the audit
    row records the status 200, whatever the run will do later. *)
Theorem granted_request_is_queued
    (key : string) (row : ApiKeyRow) (forwardedFor : option string) (id : string)
    (parsedBody : option JsValue) (triggerData : JsValue) (s : Server ExecutorState) :
  String.prefix "b0t_" key = true ->
  In row (apiKeys (database s)) ->
  keyHash row = sha256hex key ->
  (forall other, In other (apiKeys (database s)) ->
                 keyHash other = keyHash row -> other = row) ->
  Usable (clock s) row ->
  checkPermission h (keyPermissions row) "workflows" "execute" = Normal true ->
  In {| workflowRowId := id; workflowRowUserId := keyUserId row |}
     (workflows (database s)) ->
  requestedTriggerData h (bodyOf parsedBody) = Normal triggerData ->
  faults (database s) = [] ->
  isWorkflowQueueAvailable (process s) = true ->
  exists jobIdText q q' job entry,
    fst (POST h executeWorkflow sha256hex nanoid (Some ("Bearer " +:+ key))
           forwardedFor id parsedBody s)
    = Normal (json (JObject [("success", JBool true);
                             ("output", JUndefined);
                             ("jobId", JString jobIdText);
                             ("queued", JBool true)]) 200) /\
    jobIdText <> "" /\
    executor (process (snd (POST h executeWorkflow sha256hex nanoid
                              (Some ("Bearer " +:+ key)) forwardedFor id parsedBody s)))
    = executor (process s) /\
    invocations (process (snd (POST h executeWorkflow sha256hex nanoid
                                 (Some ("Bearer " +:+ key)) forwardedFor id
                                 parsedBody s)))
    = invocations (process s) /\
    queues (process s) !! WORKFLOW_QUEUE_NAME = Some q /\
    queues (process (snd (POST h executeWorkflow sha256hex nanoid
                            (Some ("Bearer " +:+ key)) forwardedFor id parsedBody s)))
      !! WORKFLOW_QUEUE_NAME = Some q' /\
    waiting q' = (waiting q ++ [job])%list /\
    jobData job = {| workflowId := id; userId := keyUserId row; triggerType := manual;
                     triggerData := Some triggerData |} /\
    priority (jobOptions job) = 5%Z /\
    apiAuditLog (database (snd (POST h executeWorkflow sha256hex nanoid
                                  (Some ("Bearer " +:+ key)) forwardedFor id
                                  parsedBody s)))
    = (apiAuditLog (database s) ++ [entry])%list /\
    auditResponseStatus entry = Some "200" /\
    auditUserId entry = keyUserId row /\
    auditResource entry = Some id.
Proof.
  intros Hprefix Hin Hhash Hunique Husable Hallowed Hworkflow Hbody Hfaults Hqueue.
  assert (Hfault : hd false (faults (database s)) = false) by now rewrite Hfaults.
  destruct (gates_pass key row forwardedFor id parsedBody s
              Hprefix Hin Hhash Hunique Husable Hfault Hallowed)
    as (s1 & Hrun & (Hp & _ & Hi & Hw & Ha) & Hfaults1).
  rewrite Hfaults in Hfaults1. cbn [tl] in Hfaults1.
  destruct (guarded_attempt row (keyUserId row) forwardedFor id parsedBody s1)
    as (response & s2 & Hguarded & Hattempt).
  rewrite Hrun, Hguarded. cbn [fst snd].
  rewrite <- Hw in Hworkflow. apply owned_present in Hworkflow.
  rewrite <- Hp in Hqueue.
  destruct (dispatch_queued id (keyUserId row) triggerData (process s1) Hqueue)
    as (q & job & q' & Hq & Hadd & Hqueued).
  rewrite Hp in Hq.
  destruct Hattempt
    as [s2 Hfailed _ _ _ | s2 _ Hnone _ _ _ | workflow rest e s2 _ Hthrow _ _ _
        | workflow rest triggerData' e s2 _ Hread Hend _ Hafter Haudit
        | workflow rest triggerData' result s2 _ Hread Hend _ Hafter Haudit].
  - rewrite Hfaults1 in Hfailed. discriminate Hfailed.
  - contradiction.
  - congruence.
  - assert (triggerData' = triggerData) by congruence. subst triggerData'.
    rewrite Hqueued in Hend. discriminate Hend.
  - assert (triggerData' = triggerData) by congruence. subst triggerData'.
    rewrite Hqueued in Hend, Hafter. cbn [fst snd] in Hend, Hafter.
    injection Hend as <-.
    destruct Hafter as (_ & _ & Hq2 & _ & He & Hv). world_fields.
    rewrite Hfaults1 in Haudit. destruct Haudit as [[_ Hrow] | [Hno _]];
      [|discriminate Hno].
    eexists _, q, q', job, _.
    split; [reflexivity|].
    split; [apply WorkflowQueueUse.reported_job_id_not_empty|].
    split; [congruence|]. split; [congruence|]. split; [exact Hq|].
    split; [rewrite Hq2, Hp; apply lookup_insert_eq|].
    unfold addToQueue in Hadd. injection Hadd as <- <-.
    split; [reflexivity|]. split; [reflexivity|]. split; [reflexivity|].
    split; [rewrite Hrow, Ha; reflexivity|]. repeat split.
Qed.

End WithRoute.

(** The ids drawn for audit rows in the examples. *)
Definition sampleNanoid (drawn : nat) : string := "audit-" +:+ indexKey drawn.

Lemma request_without_key_is_refused_untouched_witness :
  POST sampleHost sampleExecutor sampleHash sampleNanoid (Some "Basic b0t_secret") None
       "wf-a" None (sampleServer bareWorld [true])
  = (Normal (refusal "Missing or invalid API key" 401), sampleServer bareWorld [true]).
Proof.
  apply (request_without_key_is_refused_untouched sampleHost nat sampleExecutor
           sampleHash sampleNanoid (Some "Basic b0t_secret") None "wf-a" None
           (sampleServer bareWorld [true])).
  intros authHeader Hheader. injection Hheader as <-. reflexivity.
Defined.

Lemma execution_requires_key_permission_and_ownership_witness :
  exists key row workflow,
    Some "Bearer b0t_secret" = Some ("Bearer " +:+ key) /\
    In row (apiKeys (database (sampleServer bareWorld []))) /\
    keyHash row = sampleHash key /\
    Usable (clock (sampleServer bareWorld [])) row /\
    checkPermission sampleHost (keyPermissions row) "workflows" "execute" = Normal true /\
    In workflow (workflows (database (sampleServer bareWorld []))) /\
    workflowRowId workflow = "wf-a" /\
    workflowRowUserId workflow = keyUserId row.
Proof.
  apply (execution_requires_key_permission_and_ownership sampleHost nat sampleExecutor
           sampleHash sampleNanoid (Some "Bearer b0t_secret") None "wf-a" None
           (sampleServer bareWorld [])).
  left. vm_compute. discriminate.
Defined.

Lemma refused_requests_run_and_audit_nothing_witness :
  process (snd (POST sampleHost sampleExecutor sampleHash sampleNanoid
                  (Some "Bearer b0t_other") None "wf-a" None (sampleServer bareWorld [])))
  = bareWorld /\
  apiAuditLog (database (snd (POST sampleHost sampleExecutor sampleHash sampleNanoid
                                (Some "Bearer b0t_other") None "wf-a" None
                                (sampleServer bareWorld []))))
  = [] /\
  workflows (database (snd (POST sampleHost sampleExecutor sampleHash sampleNanoid
                              (Some "Bearer b0t_other") None "wf-a" None
                              (sampleServer bareWorld []))))
  = [{| workflowRowId := "wf-a"; workflowRowUserId := "alice" |}].
Proof.
  apply (refused_requests_run_and_audit_nothing sampleHost nat sampleExecutor
           sampleHash sampleNanoid (Some "Bearer b0t_other") None "wf-a" None
           (sampleServer bareWorld []) (refusal "Invalid or revoked API key" 401)).
  - reflexivity.
  - left. reflexivity.
Defined.

Lemma route_answers_once_the_key_lookup_succeeds_witness :
  exists response,
    fst (POST sampleHost sampleExecutor sampleHash sampleNanoid
           (Some "Bearer b0t_secret") None "wf-a" (Some JNull) (sampleServer bareWorld []))
    = Normal response /\
    In (status response) [200; 401; 403; 404; 500]%Z.
Proof.
  apply (route_answers_once_the_key_lookup_succeeds sampleHost nat sampleExecutor
           sampleHash sampleNanoid (Some "Bearer b0t_secret") None "wf-a" (Some JNull)
           (sampleServer bareWorld [])).
  - reflexivity.
  - intros row [<-|[]]. reflexivity.
Defined.

Lemma granted_request_runs_directly_witness :
  executor (process (snd (POST sampleHost sampleExecutor sampleHash sampleNanoid
                            (Some "Bearer b0t_secret") (Some "10.0.0.1") "wf-a" None
                            (sampleServer bareWorld []))))
  = 1 /\
  invocations (process (snd (POST sampleHost sampleExecutor sampleHash sampleNanoid
                               (Some "Bearer b0t_secret") (Some "10.0.0.1") "wf-a" None
                               (sampleServer bareWorld []))))
  = [{| workflowId := "wf-a"; userId := "alice"; triggerType := manual;
        triggerData := Some (JObject []) |}] /\
  queues (process (snd (POST sampleHost sampleExecutor sampleHash sampleNanoid
                          (Some "Bearer b0t_secret") (Some "10.0.0.1") "wf-a" None
                          (sampleServer bareWorld []))))
  = queues bareWorld /\
  fst (POST sampleHost sampleExecutor sampleHash sampleNanoid
         (Some "Bearer b0t_secret") (Some "10.0.0.1") "wf-a" None
         (sampleServer bareWorld []))
  = Normal (json (JObject [("success", JBool true);
                           ("output", JObject [("now", JNumber 5)]);
                           ("jobId", JUndefined);
                           ("queued", JUndefined)]) 200) /\
  apiAuditLog (database (snd (POST sampleHost sampleExecutor sampleHash sampleNanoid
                                (Some "Bearer b0t_secret") (Some "10.0.0.1") "wf-a" None
                                (sampleServer bareWorld []))))
  = [{| auditId := "audit-0"; auditApiKeyId := "key-1"; auditUserId := "alice";
        auditAction := "workflows.execute"; auditResource := Some "wf-a";
        auditRequestMethod := Some "POST";
        auditRequestPath := Some "/api/external/workflows/wf-a/execute";
        auditResponseStatus := Some "200"; auditMetadata := None;
        auditIpAddress := Some "10.0.0.1" |}].
Proof.
  apply (granted_request_runs_directly sampleHost nat sampleExecutor sampleHash
           sampleNanoid "b0t_secret" sampleKeyRow (Some "10.0.0.1") "wf-a" None
           (JObject []) (sampleServer bareWorld [])).
  - reflexivity.
  - left. reflexivity.
  - reflexivity.
  - intros other [<-|[]] _. reflexivity.
  - split; [reflexivity|]. split; [reflexivity|].
    intros expiry Hexpiry. injection Hexpiry as <-. vm_compute. discriminate.
  - reflexivity.
  - left. reflexivity.
  - reflexivity.
  - reflexivity.
  - reflexivity.
Defined.

Lemma granted_request_is_queued_witness :
  exists jobIdText q q' job entry,
    fst (POST sampleHost sampleExecutor sampleHash sampleNanoid
           (Some "Bearer b0t_secret") None "wf-a"
           (Some (JObject [("params", JObject [("n", JNumber 1)])]))
           (sampleServer startedUp []))
    = Normal (json (JObject [("success", JBool true);
                             ("output", JUndefined);
                             ("jobId", JString jobIdText);
                             ("queued", JBool true)]) 200) /\
    jobIdText <> "" /\
    executor (process (snd (POST sampleHost sampleExecutor sampleHash sampleNanoid
                              (Some "Bearer b0t_secret") None "wf-a"
                              (Some (JObject [("params", JObject [("n", JNumber 1)])]))
                              (sampleServer startedUp []))))
    = executor (process (sampleServer startedUp [])) /\
    invocations (process (snd (POST sampleHost sampleExecutor sampleHash sampleNanoid
                                 (Some "Bearer b0t_secret") None "wf-a"
                                 (Some (JObject [("params", JObject [("n", JNumber 1)])]))
                                 (sampleServer startedUp []))))
    = invocations (process (sampleServer startedUp [])) /\
    queues (process (sampleServer startedUp [])) !! WORKFLOW_QUEUE_NAME = Some q /\
    queues (process (snd (POST sampleHost sampleExecutor sampleHash sampleNanoid
                            (Some "Bearer b0t_secret") None "wf-a"
                            (Some (JObject [("params", JObject [("n", JNumber 1)])]))
                            (sampleServer startedUp []))))
      !! WORKFLOW_QUEUE_NAME = Some q' /\
    waiting q' = (waiting q ++ [job])%list /\
    jobData job = {| workflowId := "wf-a"; userId := keyUserId sampleKeyRow;
                     triggerType := manual;
                     triggerData := Some (JObject [("n", JNumber 1)]) |} /\
    priority (jobOptions job) = 5%Z /\
    apiAuditLog (database (snd (POST sampleHost sampleExecutor sampleHash sampleNanoid
                                  (Some "Bearer b0t_secret") None "wf-a"
                                  (Some (JObject [("params", JObject [("n", JNumber 1)])]))
                                  (sampleServer startedUp []))))
    = (apiAuditLog (database (sampleServer startedUp [])) ++ [entry])%list /\
    auditResponseStatus entry = Some "200" /\
    auditUserId entry = keyUserId sampleKeyRow /\
    auditResource entry = Some "wf-a".
Proof.
  apply (granted_request_is_queued sampleHost nat sampleExecutor sampleHash
           sampleNanoid "b0t_secret" sampleKeyRow None "wf-a"
           (Some (JObject [("params", JObject [("n", JNumber 1)])]))
           (JObject [("n", JNumber 1)]) (sampleServer startedUp [])).
  - reflexivity.
  - left. reflexivity.
  - reflexivity.
  - intros other [<-|[]] _. reflexivity.
  - split; [reflexivity|]. split; [reflexivity|].
    intros expiry Hexpiry. injection Hexpiry as <-. vm_compute. discriminate.
  - reflexivity.
  - left. reflexivity.
  - reflexivity.
  - reflexivity.
  - vm_compute. reflexivity.
Defined.

(** The update that the revocation makes to one row. *)
Definition revokedBy (id userId : string) (at_ : Z) (row : ApiKeyRow) : ApiKeyRow :=
  if String.eqb (keyId row) id && String.eqb (keyUserId row) userId
  then {| keyId := keyId row; keyName := keyName row; keyHash := keyHash row;
          keyPrefix := keyPrefix row; keyUserId := keyUserId row;
          keyPermissions := keyPermissions row; lastUsedAt := lastUsedAt row;
          expiresAt := expiresAt row; isActive := false; createdAt := createdAt row;
          revokedAt := Some at_ |}
  else row.

Section WithKeys.
Variable ExecutorState : Type.
Variable sha256hex : string -> string.

(** The outcomes of the revocation: it always answers, and the keys table
    changes only with the answer 200. *)
Lemma DELETE_cases (sessionUserId : option string) (id : string)
    (s : Server ExecutorState) :
  exists response s',
    DELETE sessionUserId id s = (Normal response, s') /\
    workflows (database s') = workflows (database s) /\
    apiAuditLog (database s') = apiAuditLog (database s) /\
    ((status response <> 200%Z /\ apiKeys (database s') = apiKeys (database s)) \/
     (exists user,
        sessionUserId = Some user /\
        response = json (JObject [("success", JBool true)]) 200 /\
        apiKeys (database s') = map (revokedBy id user (clock s)) (apiKeys (database s)))).
Proof.
  unfold DELETE, catching.
  destruct sessionUserId as [user|].
  2: { unfold pure. eexists _, _. split; [reflexivity|]. repeat split.
       left. split; [discriminate | reflexivity]. }
  destruct (String.eqb user "").
  { unfold pure. eexists _, _. split; [reflexivity|]. repeat split.
    left. split; [discriminate | reflexivity]. }
  destruct (reading_query ExecutorState
              (fun db => firstn 1 (map keyId
                                     (List.filter
                                        (fun row => String.eqb (keyId row) id &&
                                                    String.eqb (keyUserId row) user)
                                        (apiKeys db)))) s)
    as (sq & (Hp & Hc & Hi & Hk & Hw & Ha) & Hfaults
        & [[Hfault Hq] | (Hfault & db & Hrows & _ & _ & Hq)]);
    cbv beta in Hq; unfold andThen at 1, selectOwnKey; rewrite Hq.
  - unfold andThen, inProcess, log, pure. eexists _, _. split; [reflexivity|].
    server_fields. repeat (split; [assumption|]).
    left. split; [discriminate | assumption].
  - destruct (firstn 1 (map keyId _)) as [|found rest].
    + unfold pure. eexists _, _. split; [reflexivity|].
      repeat (split; [assumption|]). left. split; [discriminate | assumption].
    + unfold andThen, revokeOwnKey, query, inProcess, log, pure.
      destruct (faults (database sq)) as [|[] later]; server_fields;
        eexists _, _; (split; [reflexivity|]); server_fields;
        repeat (split; [assumption|]);
        first [ left; split; [discriminate | assumption]
              | right; exists user; split; [reflexivity|]; split; [reflexivity|];
                rewrite Hk, Hc; reflexivity ].
Qed.

Lemma revokedBy_keeps (id userId : string) (at_ : Z) (row : ApiKeyRow) :
  keyId (revokedBy id userId at_ row) = keyId row /\
  keyUserId (revokedBy id userId at_ row) = keyUserId row /\
  keyHash (revokedBy id userId at_ row) = keyHash row.
Proof.
  unfold revokedBy.
  destruct (String.eqb (keyId row) id && String.eqb (keyUserId row) userId);
    repeat split.
Qed.

(** After the revocation no row of that id and owner passes the [where]
    clause of the key lookup. *)
Lemma revoked_rows_unusable (id userId : string) (at_ : Z) (hash : string)
    (rows : list ApiKeyRow) :
  (forall row, In row rows -> keyHash row = hash ->
               keyId row = id /\ keyUserId row = userId) ->
  List.filter (usableKey hash) (map (revokedBy id userId at_) rows) = [].
Proof.
  intros Hours. induction rows as [|row rows IH]; [reflexivity|].
  cbn [map List.filter].
  rewrite IH by (intros other Hother; apply Hours; now right).
  destruct (usableKey hash (revokedBy id userId at_ row)) eqn:Husable; [|reflexivity].
  exfalso. unfold usableKey in Husable.
  apply andb_true_iff in Husable. destruct Husable as [Husable _].
  apply andb_true_iff in Husable. destruct Husable as [Hhash Hactive].
  apply String.eqb_eq in Hhash.
  destruct (revokedBy_keeps id userId at_ row) as (_ & _ & Hkept).
  rewrite Hkept in Hhash.
  destruct (Hours row (or_introl eq_refl) Hhash) as [Hid Huser].
  unfold revokedBy in Hactive. rewrite Hid, Huser, !String.eqb_refl in Hactive.
  discriminate Hactive.
Qed.

(** X28.  A revoked key is refused: once the owner's revocation of a key
    was answered with success, a request that presents that key is refused
    with 401 [Invalid or revoked API key], on any later server with that
    keys table whose lookup does not fail. *)
Theorem revoked_key_is_refused
    (user id key : string) (s later : Server ExecutorState) :
  fst (DELETE (Some user) id s) = Normal (json (JObject [("success", JBool true)]) 200) ->
  String.prefix "b0t_" key = true ->
  (forall row, In row (apiKeys (database s)) -> keyHash row = sha256hex key ->
               keyId row = id /\ keyUserId row = user) ->
  apiKeys (database later) = apiKeys (database (snd (DELETE (Some user) id s))) ->
  hd false (faults (database later)) = false ->
  fst (validateApiKey sha256hex (Some ("Bearer " +:+ key)) later)
  = Normal (AuthError "Invalid or revoked API key" 401).
Proof.
  intros Hrevoked Hprefix Hours Hlater Hfault.
  destruct (DELETE_cases (Some user) id s)
    as (response & s' & Hrun & _ & _ & [[Hstatus _] | (user' & Huser & _ & Hkeys)]).
  { rewrite Hrun in Hrevoked. cbn [fst] in Hrevoked. injection Hrevoked as ->.
    now contradiction Hstatus. }
  injection Huser as <-. rewrite Hrun in Hlater. cbn [snd] in Hlater.
  rewrite Hkeys in Hlater.
  destruct (validateApiKey_cases ExecutorState sha256hex (Some ("Bearer " +:+ key)) later)
    as [[Hnone _] | (key' & s2 & Hheader & _ & Hcases)].
  { now contradiction (Hnone key Hprefix). }
  assert (Hkey : key' = key).
  { injection Hheader as Hheader. symmetry. exact Hheader. }
  subst key'. cbv zeta in Hcases.
  rewrite Hlater, (revoked_rows_unusable id user (clock s) (sha256hex key) _ Hours)
    in Hcases.
  destruct Hcases
    as [(Hno & _) | [(_ & _ & _ & Heq) | [(_ & found & rest & Hfound & _)
        | (_ & found & rest & Hfound & _)]]].
  - congruence.
  - rewrite Heq. reflexivity.
  - discriminate Hfound.
  - discriminate Hfound.
Qed.

(** X29.  The revocation touches only the owner's key: whatever the
    outcome, the workflows and the audit log are unchanged and no key row
    is added or removed; every row with another id or of another user is
    kept as it is; no row is active afterwards that was not stored as such
    before; and unless the answer is 200 the keys table is exactly as
    before. *)
Theorem revocation_touches_only_the_owners_key
    (sessionUserId : option string) (id : string) (s : Server ExecutorState) :
  workflows (database (snd (DELETE sessionUserId id s))) = workflows (database s) /\
  apiAuditLog (database (snd (DELETE sessionUserId id s))) = apiAuditLog (database s) /\
  map keyId (apiKeys (database (snd (DELETE sessionUserId id s))))
  = map keyId (apiKeys (database s)) /\
  (forall row, In row (apiKeys (database s)) ->
               keyId row <> id \/ Some (keyUserId row) <> sessionUserId ->
               In row (apiKeys (database (snd (DELETE sessionUserId id s))))) /\
  (forall row, In row (apiKeys (database (snd (DELETE sessionUserId id s)))) ->
               isActive row = true -> In row (apiKeys (database s))) /\
  (forall response,
     fst (DELETE sessionUserId id s) = Normal response ->
     status response <> 200%Z ->
     apiKeys (database (snd (DELETE sessionUserId id s))) = apiKeys (database s)).
Proof.
  destruct (DELETE_cases sessionUserId id s)
    as (response & s' & Hrun & Hw & Ha & [[Hstatus Hkeys] | (user & Huser & Hanswer & Hkeys)]);
    rewrite Hrun; cbn [fst snd]; (split; [exact Hw|]); (split; [exact Ha|]).
  - rewrite Hkeys. split; [reflexivity|]. split; [auto|]. split; auto.
  - rewrite Hkeys. split; [|split; [|split]].
    + rewrite map_map. apply map_ext. intros row. apply revokedBy_keeps.
    + intros row Hin Hother. apply in_map_iff. exists row. split; [|exact Hin].
      unfold revokedBy.
      destruct (String.eqb_spec (keyId row) id) as [Hid|_]; [|reflexivity].
      destruct (String.eqb_spec (keyUserId row) user) as [Hu|_]; [|reflexivity].
      exfalso. destruct Hother as [Hno | Hno]; [now apply Hno | apply Hno; congruence].
    + intros row Hin Hactive. apply in_map_iff in Hin.
      destruct Hin as (before & <- & Hin). unfold revokedBy in Hactive |- *.
      destruct (String.eqb (keyId before) id && String.eqb (keyUserId before) user);
        [discriminate Hactive | exact Hin].
    + intros answer Hanswer' Hstatus. injection Hanswer' as <-. subst response.
      now contradiction Hstatus.
Qed.

Lemma substring_prefix (n : nat) (s : string) :
  String.prefix (String.substring 0 n s) s = true.
Proof.
  revert s. induction n as [|n IH]; intros s.
  - destruct s; reflexivity.
  - destruct s as [|c s]; [reflexivity|]. cbn.
    destruct (ascii_dec c c) as [_|Hne]; [apply IH | now contradiction Hne].
Qed.

(** X30.  A generated key authenticates: the key that [generateApiKey]
    returns starts with [b0t_], its prefix is the start of the key, and once
    a usable row stores its hash (hashes are unique in the table), a request
    that presents the key as [Bearer] token is let in as the owner of that
    row, provided the lookup does not fail. *)
Theorem generated_key_authenticates
    (rawKey : string) (row : ApiKeyRow) (s : Server ExecutorState) :
  In row (apiKeys (database s)) ->
  keyHash row = generatedHash (generateApiKey sha256hex rawKey) ->
  (forall other, In other (apiKeys (database s)) ->
                 keyHash other = keyHash row -> other = row) ->
  Usable (clock s) row ->
  hd false (faults (database s)) = false ->
  fst (validateApiKey sha256hex
         (Some ("Bearer " +:+ generatedKey (generateApiKey sha256hex rawKey))) s)
  = Normal (AuthOk row (keyUserId row) (keyPermissions row)) /\
  String.prefix "b0t_" (generatedPrefix (generateApiKey sha256hex rawKey)) = true /\
  String.prefix (generatedPrefix (generateApiKey sha256hex rawKey))
                (generatedKey (generateApiKey sha256hex rawKey)) = true.
Proof.
  intros Hin Hhash Hunique Husable Hfault.
  assert (Hprefix : String.prefix "b0t_" (generatedKey (generateApiKey sha256hex rawKey))
                    = true).
  { apply prefix_spec. now exists rawKey. }
  destruct (stored_key_validates ExecutorState sha256hex _ row s
              Hprefix Hin Hhash Hunique Husable Hfault) as (s1 & Heq & _).
  rewrite Heq. split; [reflexivity|]. split; [|apply substring_prefix].
  apply prefix_spec. exists (String.substring 0 8 rawKey). reflexivity.
Qed.

End WithKeys.

Lemma revoked_key_is_refused_witness :
  fst (validateApiKey sampleHash (Some "Bearer b0t_secret")
         (snd (DELETE (Some "alice") "key-1" (sampleServer bareWorld []))))
  = Normal (AuthError "Invalid or revoked API key" 401).
Proof.
  apply (revoked_key_is_refused nat sampleHash "alice" "key-1" "b0t_secret"
           (sampleServer bareWorld [])
           (snd (DELETE (Some "alice") "key-1" (sampleServer bareWorld [])))).
  - reflexivity.
  - reflexivity.
  - intros row [<-|[]] _. split; reflexivity.
  - reflexivity.
  - reflexivity.
Defined.

Lemma generated_key_authenticates_witness :
  fst (validateApiKey sampleHash (Some "Bearer b0t_secret") (sampleServer bareWorld []))
  = Normal (AuthOk sampleKeyRow "alice" (keyPermissions sampleKeyRow)) /\
  String.prefix "b0t_" (generatedPrefix (generateApiKey sampleHash "secret")) = true /\
  String.prefix (generatedPrefix (generateApiKey sampleHash "secret")) "b0t_secret" = true.
Proof.
  apply (generated_key_authenticates nat sampleHash "secret" sampleKeyRow
           (sampleServer bareWorld [])).
  - left. reflexivity.
  - reflexivity.
  - intros other [<-|[]] _. reflexivity.
  - split; [reflexivity|]. split; [reflexivity|].
    intros expiry Hexpiry. injection Hexpiry as <-. vm_compute. discriminate.
  - reflexivity.
Defined.

End ExternalApiFacts.
